(** * PBChatbot: the response-acquisition pipeline of [src/visual.ts]

    A shallow embedding of the chat visual's request construction,
    retry loop, response classification, event-stream decoding, simulated
    typing playback and settings update, followed by the properties the
    specification states about them.

    Strings are byte strings holding UTF-8; the substring, prefix and split
    operations used by the program only ever look for ASCII or whole UTF-8
    needles, so they agree with the UTF-16 operations of the source. *)

From Stdlib Require Import ZArith QArith Lqa String Ascii List Lia Bool.
From stdpp Require Import gmap strings pretty.
Import ListNotations.

Local Open Scope string_scope.
Local Open Scope Z_scope.

(** ** String primitives of the host language *)

Definition LF : ascii := "010"%char.
Definition NL : string := String LF "".
Definition DQUOTE : ascii := "034"%char.
Definition BACKSLASH : ascii := "092"%char.

(** [s.startsWith(p)] *)
Definition startsWith (s p : string) : bool := String.prefix p s.

(** [s.includes(needle)] *)
Fixpoint includes (s needle : string) : bool :=
  String.prefix needle s
  || match s with
     | "" => false
     | String _ s' => includes s' needle
     end.

(** [s.slice(n)] for [n] within the string. *)
Fixpoint slice (n : nat) (s : string) : string :=
  match n, s with
  | O, _ => s
  | S n', String _ s' => slice n' s'
  | S _, "" => ""
  end.

(** [s.split(sep)] for a one-character separator: always at least one piece. *)
Fixpoint split (sep : ascii) (s : string) : list string :=
  match s with
  | "" => [""]
  | String c s' =>
      if Ascii.eqb c sep then "" :: split sep s'
      else match split sep s' with
           | w :: ws => String c w :: ws
           | [] => [String c ""]
           end
  end.

(** [pieces.join(sep)] *)
Fixpoint join (sep : string) (pieces : list string) : string :=
  match pieces with
  | [] => ""
  | [w] => w
  | w :: ws => w ++ sep ++ join sep ws
  end.

(** [lines.pop()]: the array without its last element, and that element. *)
Fixpoint pop (l : list string) : list string * option string :=
  match l with
  | [] => ([], None)
  | [x] => ([], Some x)
  | x :: l' => let '(init, last) := pop l' in (x :: init, last)
  end.

Fixpoint string_rev (s : string) : string :=
  match s with
  | "" => ""
  | String c s' => string_rev s' ++ String c ""
  end.

Fixpoint repeat_string (n : nat) (s : string) : string :=
  match n with
  | O => ""
  | S n' => s ++ repeat_string n' s
  end.

(** Length in bytes of the white-space or line-terminator code point that
    starts the byte list, [0] when there is none.  The code points are those
    [String.prototype.trim] removes: U+0009..U+000D, U+0020, U+00A0, U+1680,
    U+2000..U+200A, U+2028, U+2029, U+202F, U+205F, U+3000 and U+FEFF. *)
Definition ws_width (b : list N) : nat :=
  match b with
  | c :: b1 =>
      if ((9 <=? c) && (c <=? 13) || (c =? 32))%N then 1%nat
      else match b1 with
           | c1 :: b2 =>
               if ((c =? 194) && (c1 =? 160))%N then 2%nat
               else match b2 with
                    | c2 :: _ =>
                        if ((c =? 225) && (c1 =? 154) && (c2 =? 128))%N then 3%nat
                        else if ((c =? 226) && (c1 =? 128)
                                 && ((128 <=? c2) && (c2 <=? 138)
                                     || (c2 =? 168) || (c2 =? 169) || (c2 =? 175)))%N
                        then 3%nat
                        else if ((c =? 226) && (c1 =? 129) && (c2 =? 159))%N then 3%nat
                        else if ((c =? 227) && (c1 =? 128) && (c2 =? 128))%N then 3%nat
                        else if ((c =? 239) && (c1 =? 187) && (c2 =? 191))%N then 3%nat
                        else 0%nat
                    | [] => 0%nat
                    end
           | [] => 0%nat
           end
  | [] => 0%nat
  end.

Definition bytes_of (s : string) : list N := map N_of_ascii (list_ascii_of_string s).

(** The same test read from the end of a string: the argument is the
    reversed byte list, so its first three bytes are put back in order. *)
Definition ws_width_rev (b : list N) : nat :=
  match b with
  | c :: b1 =>
      if ((9 <=? c) && (c <=? 13) || (c =? 32))%N then 1%nat
      else match b1 with
           | c1 :: b2 =>
               if (ws_width [c1; c] =? 2)%nat then 2%nat
               else match b2 with
                    | c2 :: _ => if (ws_width [c2; c1; c] =? 3)%nat then 3%nat else 0%nat
                    | [] => 0%nat
                    end
           | [] => 0%nat
           end
  | [] => 0%nat
  end.

Fixpoint trimStart_go (fuel : nat) (s : string) : string :=
  match fuel with
  | O => s
  | S fuel' =>
      match ws_width (bytes_of s) with
      | O => s
      | w => trimStart_go fuel' (slice w s)
      end
  end.

Fixpoint trimEnd_go (fuel : nat) (r : string) : string :=
  match fuel with
  | O => r
  | S fuel' =>
      match ws_width_rev (bytes_of r) with
      | O => r
      | w => trimEnd_go fuel' (slice w r)
      end
  end.

(** [s.trim()]; each step removes at least one byte, so the length of the
    string is fuel enough (see [trimStart_go_fuel_stable]). *)
Definition trim (s : string) : string :=
  let s1 := trimStart_go (String.length s) s in
  string_rev (trimEnd_go (String.length s1) (string_rev s1)).

(** ** JSON values and the coercions the program applies to them *)

(** A number is an IEEE 754 double.  A finite one is held as its exact
    decimal value [m * 10^e] in lowest terms ([m] not divisible by ten, zero
    as [0 * 10^0]; the sign of zero is not kept, no operation of the program
    tells [-0] from [0]); the infinities, which [JSON.parse] returns for a
    number too large for a double, have a constructor of their own. *)
#[local] Set Warnings "-register-all".
Inductive json : Type :=
  | JNull
  | JBool (b : bool)
  | JNum (m e : Z)
  | JInfinity (negative : bool)
  | JStr (s : string)
  | JArr (items : list json)
  | JObj (members : list (string * json)).

(** A value of the host language that came out of a parsed body:
    [None] is [undefined]. *)
Definition jsval : Type := option json.

Definition truthy (v : jsval) : bool :=
  match v with
  | None | Some JNull => false
  | Some (JBool b) => b
  | Some (JNum m _) => negb (m =? 0)
  | Some (JStr s) => negb (String.eqb s "")
  | Some (JInfinity _) | Some (JArr _) | Some (JObj _) => true
  end.

(** [a || b] *)
Definition js_or (a b : jsval) : jsval := if truthy a then a else b.
Infix "|||" := js_or (at level 50, left associativity).

(** [v === n] for an integer literal [n] other than zero. *)
Definition is_number (v : jsval) (n : Z) : bool :=
  match v with
  | Some (JNum m e) => (0 <=? e) && (m * 10 ^ e =? n)
  | _ => false
  end.

(** [v === true] *)
Definition is_true (v : jsval) : bool :=
  match v with
  | Some (JBool true) => true
  | _ => false
  end.

(** Own property of a parsed object; a later duplicate key wins, as in
    [JSON.parse]. *)
Fixpoint lookup_member (k : string) (members : list (string * json)) : jsval :=
  match members with
  | [] => None
  | (k', v) :: rest =>
      match lookup_member k rest with
      | Some v' => Some v'
      | None => if String.eqb k' k then Some v else None
      end
  end.

(** [o.k] on a value that is neither [null] nor [undefined], for the
    property names this program reads (none of them is inherited from a
    prototype). *)
Definition prop (o : json) (k : string) : jsval :=
  match o with
  | JObj members => lookup_member k members
  | _ => None
  end.

(** [o?.k] *)
Definition opt_prop (o : jsval) (k : string) : jsval :=
  match o with
  | None | Some JNull => None
  | Some v => prop v k
  end.

(** [o?.[0]]: an array element, the property ["0"] of an object, or the
    first character of a string. *)
Definition opt_index0 (o : jsval) : jsval :=
  match o with
  | Some (JArr (x :: _)) => Some x
  | Some (JObj members) => lookup_member "0" members
  | Some (JStr (String c _)) => Some (JStr (String c ""))
  | _ => None
  end.

(** *** Doubles

    The arithmetic of the host is that of IEEE 754 binary64 with rounding
    to nearest, ties to even.  A positive double is [M * 2^E] for integers
    [M < 2^53] and [-1074 <= E]. *)

(** [floor (log2 (p / q))] for positive [p] and [q]. *)
Definition floor_log2 (p q : Z) : Z :=
  let est := Z.log2 p - Z.log2 q in
  if (if 0 <=? est then p <? q * 2 ^ est else p * 2 ^ (- est) <? q) then est - 1 else est.

(** [n / d] rounded to the nearest integer, a tie to the even one. *)
Definition round_half_even (n d : Z) : Z :=
  let k := n / d in
  let r := n mod d in
  if 2 * r <? d then k
  else if d <? 2 * r then k + 1
  else if Z.even k then k else k + 1.

(** The double nearest to the positive rational [p / q], as the pair
    [(M, E)] of its value [M * 2^E]: [E] is the exponent of the last of the
    53 bits, and never less than that of the subnormal numbers.  A value of
    [2^1024] or more stands for infinity. *)
Definition nearest_double (p q : Z) : Z * Z :=
  let E := Z.max (floor_log2 p q - 52) (-1074) in
  (if 0 <=? E then round_half_even p (q * 2 ^ E) else round_half_even (p * 2 ^ (- E)) q, E).

Definition overflows (d : Z * Z) : bool := (0 <=? snd d) && (2 ^ 1024 <=? fst d * 2 ^ snd d).

Fixpoint strip_zeros (fuel : nat) (m e : Z) : Z * Z :=
  match fuel with
  | O => (m, e)
  | S fuel' => if m mod 10 =? 0 then strip_zeros fuel' (m / 10) (e + 1) else (m, e)
  end.

(** The decimal [m * 10^e], [0 <= m], in lowest terms. *)
Definition lowest_terms (m e : Z) : Z * Z :=
  if m =? 0 then (0, 0) else strip_zeros (Z.to_nat (Z.log2 m)) m e.

(** The exact decimal value of the double [M * 2^E]. *)
Definition decimal_of_double (d : Z * Z) : Z * Z :=
  let '(M, E) := d in
  if 0 <=? E then lowest_terms (M * 2 ^ E) 0 else lowest_terms (M * 5 ^ (- E)) E.

Inductive number : Type :=
  | Finite (m e : Z)
  | Infinite.

(** The double nearest to the decimal [m * 10^e], [0 <= m].  The two
    shortcuts only spare the arithmetic: beyond [10^400] every value is
    infinite, below [10^-400] every value is zero. *)
Definition double_of_decimal (m e : Z) : number :=
  if m =? 0 then Finite 0 0
  else if 400 <? e then Infinite
  else if e + Z.log2 m + 1 <? -400 then Finite 0 0
  else
    let d := if 0 <=? e then nearest_double (m * 10 ^ e) 1
             else nearest_double m (10 ^ (- e)) in
    if overflows d then Infinite
    else let '(m', e') := decimal_of_double d in Finite m' e'.

(** The same rounding on a rational, for the arithmetic on random numbers;
    its operands in this program are far from the overflow threshold. *)
Definition double_value (d : Z * Z) : Q :=
  if 0 <=? snd d then inject_Z (fst d * 2 ^ snd d) else fst d # Z.to_pos (2 ^ (- snd d)).

Definition round_double (x : Q) : Q :=
  match Qnum x with
  | 0 => 0%Q
  | Zpos p => double_value (nearest_double (Zpos p) (Zpos (Qden x)))
  | Zneg p => Qopp (double_value (nearest_double (Zpos p) (Zpos (Qden x))))
  end.

(** *** [Number.prototype.toString]

    The digits are the shortest decimal that reads back as the same double
    (the closest one when several of that length do); the notation is plain
    up to 21 integer digits and down to six zeros after the point, and has
    an exponent otherwise. *)

Fixpoint count_digits (fuel : nat) (m : Z) : Z :=
  match fuel with
  | O => 0
  | S fuel' => if m <? 10 then 1 else 1 + count_digits fuel' (m / 10)
  end.

(** The number of decimal digits of [m], [0 < m]. *)
Definition decimal_length (m : Z) : Z := count_digits (S (Z.to_nat (Z.log2 m))) m.

Definition rounds_to (s n : Z) (m e : Z) : bool :=
  match double_of_decimal s n with
  | Finite m' e' => (m' =? m) && (e' =? e)
  | Infinite => false
  end.

(** The integers [(s, k, n)] of the specification of the host: [s] has
    [k] digits, [s * 10^(n - k)] reads back as the double [m * 10^e] (which
    has [d] digits), and [k] is as small as possible. *)
Fixpoint shortest (fuel : nat) (k : Z) (m e d : Z) : Z * Z * Z :=
  match fuel with
  | O => (m, d, d + e)
  | S fuel' =>
      if d <=? k then (m, d, d + e)
      else
        let unit := 10 ^ (d - k) in
        let lo := m / unit in
        let r := m mod unit in
        let n := d + e in
        let lo_ok := (10 ^ (k - 1) <=? lo) && rounds_to lo (n - k) m e in
        let hi_ok := rounds_to (lo + 1) (n - k) m e in
        let take_hi := if lo + 1 =? 10 ^ k then (1, 1, n + 1) else (lo + 1, k, n) in
        if lo_ok && hi_ok then
          if 2 * r <? unit then (lo, k, n)
          else if unit <? 2 * r then take_hi
          else if Z.even lo then (lo, k, n) else take_hi
        else if lo_ok then (lo, k, n)
        else if hi_ok then take_hi
        else shortest fuel' (k + 1) m e d
  end.

Definition exponent_part (n : Z) : string :=
  "e" ++ (if 0 <=? n - 1 then "+" else "-") ++ pretty (Z.abs (n - 1)).

Definition format_number (s k n : Z) : string :=
  let ds := pretty s in
  if (k <=? n) && (n <=? 21) then ds ++ repeat_string (Z.to_nat (n - k)) "0"
  else if (0 <? n) && (n <=? 21) then
    String.substring 0 (Z.to_nat n) ds ++ "."
    ++ String.substring (Z.to_nat n) (Z.to_nat (k - n)) ds
  else if (-6 <? n) && (n <=? 0) then "0." ++ repeat_string (Z.to_nat (- n)) "0" ++ ds
  else if k =? 1 then ds ++ exponent_part n
  else String.substring 0 1 ds ++ "." ++ String.substring 1 (Z.to_nat (k - 1)) ds
       ++ exponent_part n.

(** [String(x)] for the finite number [m * 10^e]. *)
Definition number_to_string (m e : Z) : string :=
  match double_of_decimal (Z.abs m) e with
  | Infinite => if m <? 0 then "-Infinity" else "Infinity"
  | Finite 0 _ => "0"
  | Finite m' e' =>
      let '(s, k, n) := shortest 17 1 m' e' (decimal_length m') in
      (if m <? 0 then "-" else "") ++ format_number s k n
  end.

(** [String(v)], the coercion applied by [+=], by template literals and by
    [new Error(v)]; [None] stands for the [TypeError] it throws.  An array
    joins its elements with commas, [null] giving the empty string.  A
    parsed object is converted by the [toString] it inherits unless it has a
    member of that name: a member is never callable, and the inherited
    [valueOf] returns the object, so no primitive value is found. *)
Fixpoint ToString (v : json) : option string :=
  match v with
  | JNull => Some "null"
  | JBool true => Some "true"
  | JBool false => Some "false"
  | JNum m e => Some (number_to_string m e)
  | JInfinity negative => Some (if negative then "-Infinity" else "Infinity")
  | JStr s => Some s
  | JArr items =>
      option_map (join ",")
        ((fix elements (l : list json) : option (list string) :=
            match l with
            | [] => Some []
            | x :: rest =>
                match match x with JNull => Some "" | _ => ToString x end, elements rest with
                | Some a, Some b => Some (a :: b)
                | _, _ => None
                end
            end) items)
  | JObj members =>
      match lookup_member "toString" members with
      | Some _ => None
      | None => Some "[object Object]"
      end
  end.

Definition ToString_val (v : jsval) : option string :=
  match v with
  | None => Some "undefined"
  | Some x => ToString x
  end.

(** The error of a failed conversion. *)
Definition cannot_convert : string := "Cannot convert object to primitive value".

(** ** [JSON.parse]

    A recursive-descent reader of the JSON grammar.  [None] stands for the
    [SyntaxError] the host raises.  Any two nested calls have consumed at
    least one character between them, so the fuel handed out by
    [JSON_parse], twice the length of the text and two more, is never
    exhausted: more fuel gives the same answer (see
    [JSON_parse_fuel_is_enough] and [parse_chars_fuel_stable]). *)

Definition is_json_ws (c : ascii) : bool :=
  let n := N_of_ascii c in ((n =? 32) || (n =? 9) || (n =? 10) || (n =? 13))%N.

Fixpoint skip_ws (s : string) : string :=
  match s with
  | String c r => if is_json_ws c then skip_ws r else s
  | "" => ""
  end.

Definition digit_of (c : ascii) : option Z :=
  let n := N_of_ascii c in
  if ((48 <=? n) && (n <=? 57))%N then Some (Z.of_N (n - 48)) else None.

Definition hex_of (c : ascii) : option N :=
  let n := N_of_ascii c in
  if ((48 <=? n) && (n <=? 57))%N then Some (n - 48)%N
  else if ((65 <=? n) && (n <=? 70))%N then Some (n - 55)%N
  else if ((97 <=? n) && (n <=? 102))%N then Some (n - 87)%N
  else None.

(** Four hexadecimal digits of a [\u] escape. *)
Definition parse_hex4 (s : string) : option (N * string) :=
  match s with
  | String a (String b (String c (String d r))) =>
      match hex_of a, hex_of b, hex_of c, hex_of d with
      | Some x, Some y, Some z, Some w => Some ((((x * 16 + y) * 16 + z) * 16 + w)%N, r)
      | _, _, _, _ => None
      end
  | _ => None
  end.

Definition byte (n : N) : ascii := ascii_of_N n.

(** UTF-8 encoding of a code point. *)
Definition utf8_encode (cp : N) : string :=
  (if cp <? 128 then String (byte cp) ""
   else if cp <? 2048 then
     String (byte (192 + cp / 64)) (String (byte (128 + cp mod 64)) "")
   else if cp <? 65536 then
     String (byte (224 + cp / 4096))
       (String (byte (128 + (cp / 64) mod 64)) (String (byte (128 + cp mod 64)) ""))
   else
     String (byte (240 + cp / 262144))
       (String (byte (128 + (cp / 4096) mod 64))
          (String (byte (128 + (cp / 64) mod 64)) (String (byte (128 + cp mod 64)) ""))))%N.

(** The characters of a string literal after its opening quote, up to and
    including the closing quote.  A high surrogate escape directly followed
    by a low surrogate escape is one code point. *)
Fixpoint parse_chars (fuel : nat) (s : string) : option (string * string) :=
  match fuel with
  | O => None
  | S fuel' =>
      match s with
      | "" => None
      | String c r =>
          if Ascii.eqb c DQUOTE then Some ("", r)
          else if Ascii.eqb c BACKSLASH then
            match r with
            | "" => None
            | String e r1 =>
                let simple (x : string) :=
                  match parse_chars fuel' r1 with
                  | Some (t, rest) => Some (x ++ t, rest)
                  | None => None
                  end in
                if Ascii.eqb e DQUOTE then simple (String DQUOTE "")
                else if Ascii.eqb e BACKSLASH then simple (String BACKSLASH "")
                else if Ascii.eqb e "/" then simple "/"
                else if Ascii.eqb e "b" then simple (String "008" "")
                else if Ascii.eqb e "f" then simple (String "012" "")
                else if Ascii.eqb e "n" then simple (String "010" "")
                else if Ascii.eqb e "r" then simple (String "013" "")
                else if Ascii.eqb e "t" then simple (String "009" "")
                else if Ascii.eqb e "u" then
                  match parse_hex4 r1 with
                  | None => None
                  | Some (hi, r2) =>
                      let single :=
                        match parse_chars fuel' r2 with
                        | Some (t, rest) => Some (utf8_encode hi ++ t, rest)
                        | None => None
                        end in
                      if ((55296 <=? hi) && (hi <? 56320))%N then
                        match r2 with
                        | String b1 (String b2 r3) =>
                            if Ascii.eqb b1 BACKSLASH && Ascii.eqb b2 "u" then
                              match parse_hex4 r3 with
                              | Some (lo, r4) =>
                                  if ((56320 <=? lo) && (lo <? 57344))%N then
                                    match parse_chars fuel' r4 with
                                    | Some (t, rest) =>
                                        Some (utf8_encode
                                                (65536 + (hi - 55296) * 1024 + (lo - 56320))%N
                                              ++ t, rest)
                                    | None => None
                                    end
                                  else single
                              | None => single
                              end
                            else single
                        | _ => single
                        end
                      else single
                  end
                else None
            end
          else if (N_of_ascii c <? 32)%N then None
          else
            match parse_chars fuel' r with
            | Some (t, rest) => Some (String c t, rest)
            | None => None
            end
      end
  end.

Fixpoint take_digits (s : string) : list Z * string :=
  match s with
  | "" => ([], "")
  | String c r =>
      match digit_of c with
      | Some d => let '(ds, rest) := take_digits r in (d :: ds, rest)
      | None => ([], s)
      end
  end.

Definition digits_value (ds : list Z) : Z := fold_left (fun acc d => acc * 10 + d) ds 0.

(** The double nearest to the number [sign * digits * 10^e] of the text. *)
Definition make_number (negative : bool) (ds : list Z) (e : Z) : json :=
  match double_of_decimal (digits_value ds) e with
  | Finite m e' => JNum (if negative then - m else m) e'
  | Infinite => JInfinity negative
  end.

(** A number token: an optional minus sign; an integer part that is either
    a single zero or starts with a non-zero digit; an optional fraction of at
    least one digit; an optional exponent of at least one digit. *)
Definition parse_number (s : string) : option (json * string) :=
  let '(negative, s1) :=
    match s with
    | String c r => if Ascii.eqb c "-" then (true, r) else (false, s)
    | "" => (false, s)
    end in
  let '(int_ds, s2) := take_digits s1 in
  match int_ds with
  | [] => None
  | d :: more =>
      if (d =? 0) && negb (Nat.eqb (length more) 0) then None
      else
        let frac :=
          match s2 with
          | String c r =>
              if Ascii.eqb c "." then
                match take_digits r with
                | ([], _) => None
                | (fs, rest) => Some (fs, rest)
                end
              else Some ([], s2)
          | "" => Some ([], s2)
          end in
        match frac with
        | None => None
        | Some (frac_ds, s3) =>
            let expo :=
              match s3 with
              | String c r =>
                  if Ascii.eqb c "e" || Ascii.eqb c "E" then
                    let '(eneg, r1) :=
                      match r with
                      | String sg r' =>
                          if Ascii.eqb sg "-" then (true, r')
                          else if Ascii.eqb sg "+" then (false, r')
                          else (false, r)
                      | "" => (false, r)
                      end in
                    match take_digits r1 with
                    | ([], _) => None
                    | (es, rest) =>
                        Some ((if eneg then - digits_value es else digits_value es), rest)
                    end
                  else Some (0, s3)
              | "" => Some (0, s3)
              end in
            match expo with
            | None => None
            | Some (ex, s4) =>
                Some (make_number negative (int_ds ++ frac_ds)
                        (ex - Z.of_nat (length frac_ds)), s4)
            end
        end
  end.

Definition parse_literal (word : string) (v : json) (s : string) : option (json * string) :=
  if startsWith s word then Some (v, slice (String.length word) s) else None.

Fixpoint parse_value (fuel : nat) (s : string) {struct fuel} : option (json * string) :=
  match fuel with
  | O => None
  | S fuel' =>
      match skip_ws s with
      | "" => None
      | String c r as s0 =>
          if Ascii.eqb c "{" then
            match skip_ws r with
            | String c1 r1 as body =>
                if Ascii.eqb c1 "}" then Some (JObj [], r1)
                else match parse_members fuel' body with
                     | Some (ms, rest) => Some (JObj ms, rest)
                     | None => None
                     end
            | "" => None
            end
          else if Ascii.eqb c "[" then
            match skip_ws r with
            | String c1 r1 as body =>
                if Ascii.eqb c1 "]" then Some (JArr [], r1)
                else match parse_elements fuel' body with
                     | Some (xs, rest) => Some (JArr xs, rest)
                     | None => None
                     end
            | "" => None
            end
          else if Ascii.eqb c DQUOTE then
            match parse_chars (String.length s0) r with
            | Some (t, rest) => Some (JStr t, rest)
            | None => None
            end
          else if Ascii.eqb c "t" then parse_literal "true" (JBool true) s0
          else if Ascii.eqb c "f" then parse_literal "false" (JBool false) s0
          else if Ascii.eqb c "n" then parse_literal "null" JNull s0
          else parse_number s0
      end
  end

with parse_members (fuel : nat) (s : string) {struct fuel}
  : option (list (string * json) * string) :=
  match fuel with
  | O => None
  | S fuel' =>
      match s with
      | String q r =>
          if Ascii.eqb q DQUOTE then
            match parse_chars (String.length s) r with
            | None => None
            | Some (k, r1) =>
                match skip_ws r1 with
                | String colon r2 =>
                    if Ascii.eqb colon ":" then
                      match parse_value fuel' r2 with
                      | None => None
                      | Some (v, r3) =>
                          match skip_ws r3 with
                          | String d r4 =>
                              if Ascii.eqb d "}" then Some ([(k, v)], r4)
                              else if Ascii.eqb d "," then
                                match parse_members fuel' (skip_ws r4) with
                                | Some (ms, rest) => Some ((k, v) :: ms, rest)
                                | None => None
                                end
                              else None
                          | "" => None
                          end
                      end
                    else None
                | "" => None
                end
            end
          else None
      | "" => None
      end
  end

with parse_elements (fuel : nat) (s : string) {struct fuel}
  : option (list json * string) :=
  match fuel with
  | O => None
  | S fuel' =>
      match parse_value fuel' s with
      | None => None
      | Some (v, r1) =>
          match skip_ws r1 with
          | String d r2 =>
              if Ascii.eqb d "]" then Some ([v], r2)
              else if Ascii.eqb d "," then
                match parse_elements fuel' r2 with
                | Some (xs, rest) => Some (v :: xs, rest)
                | None => None
                end
              else None
          | "" => None
          end
      end
  end.

(** [JSON.parse(text)]: one value, white space around it, nothing else. *)
Definition JSON_parse (text : string) : option json :=
  match parse_value (2 * String.length text + 2) text with
  | Some (v, rest) => if String.eqb (skip_ws rest) "" then Some v else None
  | None => None
  end.

(** ** Errors, requests, responses *)

Record JsError : Type := { err_name : string; err_message : string }.

Definition new_Error (msg : string) : JsError :=
  {| err_name := "Error"; err_message := msg |}.

Definition new_TypeError (msg : string) : JsError :=
  {| err_name := "TypeError"; err_message := msg |}.

(** What a [throw] carries: an error object, or [undefined] (the initial
    value of [lastError] in [callApiWithRetry]). *)
Inductive Thrown : Type :=
  | Exception (e : JsError)
  | Undefined.

Record ApiSettings : Type := { apiUrl : string; apiKey : string; authType : string }.

Record RequestBody : Type := { message : string; timestamp : string; stream : bool }.

Record Request : Type := {
  url : string;
  method : string;
  headers : gmap string string;
  body : RequestBody;
  mode : string;
  credentials : string;
  cache : string;
  redirect : string
}.

(** A completed HTTP response: [text] is the outcome of [response.text()],
    [content_type] that of [response.headers.get("content-type")]. *)
Record Response : Type := {
  status : Z;
  statusText : string;
  content_type : option string;
  text : JsError + string
}.

(** [response.ok] *)
Definition ok (r : Response) : bool := (200 <=? status r) && (status r <=? 299).

Inductive FetchOutcome : Type :=
  | Rejected (e : JsError)
  | Resolved (r : Response).

(** The successive results of [reader.read()] on a response body; a value
    stands for the text the streaming decoder yields for that chunk. *)
Inductive Reader : Type :=
  | ReadDone
  | ReadValue (value : string) (next : Reader)
  | ReadError (e : JsError).

Fixpoint reader_of (chunks : list string) : Reader :=
  match chunks with
  | [] => ReadDone
  | c :: rest => ReadValue c (reader_of rest)
  end.

Record URL : Type := { protocol : string; host : string; port : string }.

(** ** The world around the visual

    Calls into the user interface and the network are recorded as events;
    the DOM, the message list and Markdown rendering stay outside. *)

Inductive Event : Type :=
  | Fetch (req : Request)
  | SetTimeout (ms : Q)
  | UpdateMessage (messageId newText : string)
  | UpdateMessageWithTyping (messageId newText : string)
  | FinishTyping (messageId finalText : string)
  | RemoveStreamingEffect (messageId : string).

(** What the program cannot decide itself: the outcome of the [i]-th call of
    [fetch], the clock, the random generator, the URL parser of the host,
    and the chunks in which a body made from a string is read back. *)
Record Env : Type := {
  fetch : nat -> Request -> FetchOutcome;
  Date_toISOString : nat -> string;
  Date_toLocaleString : nat -> string;
  Math_random : nat -> Q;
  URL_parse : string -> option URL;
  body_chunks : string -> list string
}.

Record World : Type := {
  trace : list Event;
  fetches : nat;
  dates : nat;
  randoms : nat
}.

Definition initial : World := {| trace := []; fetches := 0; dates := 0; randoms := 0 |}.

Definition log (ev : Event) (w : World) : World :=
  {| trace := trace w ++ [ev]; fetches := fetches w; dates := dates w; randoms := randoms w |}.

(** ** Computations that may throw *)

Inductive Completion (A : Type) : Type :=
  | Normal (a : A)
  | Abrupt (t : Thrown).
Arguments Normal {A} a.
Arguments Abrupt {A} t.

Definition M (A : Type) : Type := World -> Completion A * World.

Definition ret {A} (a : A) : M A := fun w => (Normal a, w).

Definition throw {A} (t : Thrown) : M A := fun w => (Abrupt t, w).

Definition bind {A B} (m : M A) (k : A -> M B) : M B :=
  fun w =>
    match m w with
    | (Normal a, w') => k a w'
    | (Abrupt t, w') => (Abrupt t, w')
    end.

(** [try { m } catch (error) { handler error }] *)
Definition try_catch {A} (m : M A) (handler : Thrown -> M A) : M A :=
  fun w =>
    match m w with
    | (Normal a, w') => (Normal a, w')
    | (Abrupt t, w') => handler t w'
    end.

Notation "x <- m ;; k" := (bind m (fun x => k))
  (at level 100, m at next level, right associativity).
Notation "m ;; k" := (bind m (fun _ => k))
  (at level 100, right associativity).

Definition emit (ev : Event) : M unit := fun w => (Normal tt, log ev w).

Definition when (b : bool) (m : M unit) : M unit := if b then m else ret tt.

(** [if (messageId)]: the identifier was passed and is not empty. *)
Definition given (messageId : option string) : bool :=
  match messageId with
  | Some s => negb (String.eqb s "")
  | None => false
  end.

Definition id_of (messageId : option string) : string := default "" messageId.

Definition updateMessage (messageId newText : string) : M unit :=
  emit (UpdateMessage messageId newText).

Definition updateMessageWithTyping (messageId newText : string) : M unit :=
  emit (UpdateMessageWithTyping messageId newText).

Definition finishTyping (messageId finalText : string) : M unit :=
  emit (FinishTyping messageId finalText).

Definition removeStreamingEffect (messageId : string) : M unit :=
  emit (RemoveStreamingEffect messageId).

(** [await new Promise(resolve => setTimeout(resolve, ms))] *)
Definition sleep (ms : Q) : M unit := emit (SetTimeout ms).

(** [Math.ceil(n / d)] on integers. *)
Definition Math_ceil_div (n d : Z) : Z := - ((- n) / d).

(** ** [JSON.stringify] *)

Definition hex_digit (n : N) : ascii :=
  if (n <? 10)%N then ascii_of_N (48 + n) else ascii_of_N (87 + n).

Definition escape_char (c : ascii) : string :=
  let n := N_of_ascii c in
  if Ascii.eqb c DQUOTE then String BACKSLASH (String DQUOTE "")
  else if Ascii.eqb c BACKSLASH then String BACKSLASH (String BACKSLASH "")
  else if (n =? 8)%N then String BACKSLASH "b"
  else if (n =? 9)%N then String BACKSLASH "t"
  else if (n =? 10)%N then String BACKSLASH "n"
  else if (n =? 12)%N then String BACKSLASH "f"
  else if (n =? 13)%N then String BACKSLASH "r"
  else if (n <? 32)%N then
    String BACKSLASH ("u00" ++ String (hex_digit (n / 16)) (String (hex_digit (n mod 16)) ""))
  else String c "".

Fixpoint escape_chars (s : string) : string :=
  match s with
  | "" => ""
  | String c r => escape_char c ++ escape_chars r
  end.

Definition quote (s : string) : string :=
  String DQUOTE (escape_chars s ++ String DQUOTE "").

Fixpoint JSON_stringify (v : json) : string :=
  match v with
  | JNull => "null"
  | JBool true => "true"
  | JBool false => "false"
  | JNum m e => number_to_string m e
  | JInfinity _ => "null"
  | JStr s => quote s
  | JArr items => "[" ++ join "," (map JSON_stringify items) ++ "]"
  | JObj members =>
      "{" ++ join "," (map (fun kv => quote (fst kv) ++ ":" ++ JSON_stringify (snd kv)) members)
      ++ "}"
  end.

(** [chain || fallback] where the fallback is a non-empty literal or any
    other value that ends the chain. *)
Definition value_or (chain : jsval) (fallback : json) : json :=
  match chain with
  | Some v => if truthy chain then v else fallback
  | None => fallback
  end.

(** ** The visual *)

Section Visual.

Context (env : Env) (apiSettings : ApiSettings).

(** [new Date().toISOString()] *)
Definition now_toISOString : M string := fun w =>
  (Normal (Date_toISOString env (dates w)),
   {| trace := trace w; fetches := fetches w; dates := S (dates w); randoms := randoms w |}).

(** [new Date().toLocaleString()] *)
Definition now_toLocaleString : M string := fun w =>
  (Normal (Date_toLocaleString env (dates w)),
   {| trace := trace w; fetches := fetches w; dates := S (dates w); randoms := randoms w |}).

(** [Math.random()] *)
Definition random : M Q := fun w =>
  (Normal (Math_random env (randoms w)),
   {| trace := trace w; fetches := fetches w; dates := dates w; randoms := S (randoms w) |}).

(** [await fetch(...)]: the call is recorded, then resolves or rejects. *)
Definition do_fetch (req : Request) : M Response := fun w =>
  let w' := {| trace := trace w ++ [Fetch req]; fetches := S (fetches w);
               dates := dates w; randoms := randoms w |} in
  match fetch env (fetches w) req with
  | Rejected e => (Abrupt (Exception e), w')
  | Resolved r => (Normal r, w')
  end.

(** *** handleStreamResponse *)

(** The [try] block of the line loop up to the value of [content]:
    [None] when [JSON.parse] or the first property read throws. *)
Definition extract_content (data : string) : option json :=
  match JSON_parse data with
  | None => None
  | Some JNull => None
  | Some parsed =>
      Some (value_or
              (opt_prop (opt_prop (opt_index0 (prop parsed "choices")) "delta") "content"
               ||| prop parsed "content" ||| prop parsed "text" ||| prop parsed "message")
              (JStr ""))
  end.

(** What a [data:] line does to [fullResponse]. *)
Inductive LineEffect : Type :=
  | Skip
  | Append (text : string).

(** The [catch] block of the line loop: the line itself is the text,
    unless it is blank. *)
Definition caught (data : string) : LineEffect :=
  if negb (String.eqb (trim data) "") then Append data else Skip.

(** The [try] block of the line loop and its [catch]: a content that is
    not falsy is converted to a string and appended; when [JSON.parse], the
    first property read or that conversion throws, the [catch] block takes
    over, with [fullResponse] as it was. *)
Definition line_effect (data : string) : LineEffect :=
  match extract_content data with
  | Some content =>
      if truthy (Some content) then
        match ToString content with
        | Some text => Append text
        | None => caught data
        end
      else Skip
  | None => caught data
  end.

(** [for (const line of lines) { ... }]; the result is [fullResponse]
    after the loop.  [break] leaves this loop only.  Both blocks report the
    text they append in the same way. *)
Fixpoint forLines (messageId : option string) (lines : list string)
    (fullResponse : string) : M string :=
  match lines with
  | [] => ret fullResponse
  | line :: rest =>
      if String.eqb (trim line) "" then forLines messageId rest fullResponse
      else if startsWith line "data: " then
        let data := slice 6 line in
        if String.eqb data "[DONE]" then ret fullResponse
        else
          match line_effect data with
          | Append text =>
              let fullResponse' := fullResponse ++ text in
              when (given messageId)
                (updateMessageWithTyping (id_of messageId) fullResponse') ;;
              forLines messageId rest fullResponse'
          | Skip => forLines messageId rest fullResponse
          end
      else forLines messageId rest fullResponse
  end.

(** [while (true) { read; if (done) break; ... }]: the result is
    [fullResponse] when the loop ends, with the error of a failed read. *)
Fixpoint readLoop (messageId : option string) (reader : Reader)
    (buffer fullResponse : string) : M (string * option JsError) :=
  match reader with
  | ReadDone => ret (fullResponse, None)
  | ReadError e => ret (fullResponse, Some e)
  | ReadValue value next =>
      let '(lines, last) := pop (split LF (buffer ++ value)) in
      fullResponse' <- forLines messageId lines fullResponse ;;
      readLoop messageId next (default "" last) fullResponse'
  end.

Definition handleStreamResponse (response_body : option Reader)
    (messageId : option string) : M string :=
  match response_body with
  | None => throw (Exception (new_Error "无法读取流式响应"))
  | Some reader =>
      when (given messageId)
        (removeStreamingEffect (id_of messageId) ;; updateMessage (id_of messageId) "") ;;
      r <- readLoop messageId reader "" "" ;;
      let '(fullResponse, failure) := r in
      when (given messageId && negb (String.eqb fullResponse ""))
        (finishTyping (id_of messageId) fullResponse) ;;
      match failure with
      | Some e => throw (Exception e)
      | None => ret (if String.eqb fullResponse "" then "收到空响应" else fullResponse)
      end
  end.

(** *** simulateTypingEffect *)

(** [Math.random() * 100 + 50]: a product and a sum of doubles, each
    rounded. *)
Definition typing_delay (r : Q) : Q := round_double (round_double (r * 100) + 50)%Q.

Fixpoint typeWords (messageId : string) (words : list string) (i : nat)
    (currentText : string) : M unit :=
  match words with
  | [] => ret tt
  | word :: rest =>
      let currentText' := currentText ++ (if (0 <? i)%nat then " " else "") ++ word in
      updateMessageWithTyping messageId currentText' ;;
      r <- random ;;
      sleep (typing_delay r) ;;
      typeWords messageId rest (S i) currentText'
  end.

(** The argument is whatever value the caller extracted; only a string
    has a [split] method. *)
Definition simulateTypingEffect (messageId : string) (content : json) : M unit :=
  match content with
  | JStr text =>
      typeWords messageId (split " " text) 0 "" ;;
      finishTyping messageId text
  | _ => throw (Exception (new_TypeError "text.split is not a function"))
  end.

(** [if (messageId) { removeStreamingEffect; updateMessage; await simulateTypingEffect }] *)
Definition reveal (messageId : option string) (content : json) : M unit :=
  when (given messageId)
    (removeStreamingEffect (id_of messageId) ;;
     updateMessage (id_of messageId) "" ;;
     simulateTypingEffect (id_of messageId) content).

(** *** performNetworkDiagnostics *)

(** The report for a diagnosis made at local time [now]. *)
Definition diagnostics (now : string) : string :=
  let url_lines :=
    match URL_parse env (apiUrl apiSettings) with
    | Some u =>
        ("✓ URL格式正确: " ++ protocol u ++ "//" ++ host u)
        :: List.app
             (if negb (String.eqb (protocol u) "https:")
              then ["⚠️ 协议警告: 使用" ++ protocol u ++ "，PowerBI要求HTTPS"] else [])
             (if negb (String.eqb (port u) "") && negb (String.eqb (port u) "443")
              then ["ℹ️ 端口信息: " ++ port u] else [])
    | None => ["❌ URL格式错误: " ++ apiUrl apiSettings]
    end in
  let auth_line :=
    if String.eqb (authType apiSettings) "None" then "🔓 认证方式: 无认证"
    else "🔐 认证方式: " ++ authType apiSettings ++ " "
         ++ (if negb (String.eqb (apiKey apiSettings) "") then "(已配置)" else "(未配置密钥)") in
  join NL (List.app url_lines
             ["🌐 运行环境: PowerBI Desktop/Service"; "🔒 安全模式: 沙箱环境"; auth_line;
              "⏰ 诊断时间: " ++ now]).

Definition performNetworkDiagnostics : M string :=
  now <- now_toLocaleString ;;
  ret (diagnostics now).

(** *** callApi *)

(** The [headers] object built before the request is sent. *)
Definition request_headers : gmap string string :=
  let headers : gmap string string :=
    <["Accept" := "text/event-stream, application/json"]>
      (<["Content-Type" := "application/json"]> ∅) in
  if negb (String.eqb (authType apiSettings) "None")
     && negb (String.eqb (apiKey apiSettings) "") then
    if String.eqb (authType apiSettings) "Bearer" then
      <["Authorization" := "Bearer " ++ apiKey apiSettings]> headers
    else if String.eqb (authType apiSettings) "ApiKey" then
      <["X-API-Key" := apiKey apiSettings]> headers
    else headers
  else headers.

Definition build_request (message : string) (timestamp : string) : Request :=
  {| url := apiUrl apiSettings;
     method := "POST";
     headers := request_headers;
     body := {| message := message; timestamp := timestamp; stream := true |};
     mode := "cors";
     credentials := "omit";
     cache := "no-cache";
     redirect := "follow" |}.

Definition reply_fields (data : json) : jsval :=
  prop data "response" ||| prop data "message" ||| prop data "reply"
  ||| prop data "content" ||| prop data "text".

(** The message of [new Error(data.error || data.message || `...`)]: the
    template is evaluated only when the two fields are falsy, and both the
    template and the constructor convert their value to a string; [None]
    when that conversion throws. *)
Definition error_message (data : json) : option string :=
  let chain := prop data "error" ||| prop data "message" in
  if truthy chain then ToString_val chain
  else
    option_map (fun status => "API返回错误状态: " ++ status)
      (ToString_val (prop data "statusCode" ||| prop data "status")).

(** The handling of a body that [JSON.parse] accepted. *)
Definition handle_json (data : json) (messageId : option string) : M json :=
  match data with
  | JNull =>
      throw (Exception
               (new_TypeError "Cannot read properties of null (reading 'statusCode')"))
  | _ =>
      if is_number (prop data "statusCode") 200
         || is_number (prop data "status") 200
         || is_true (prop data "success") then
        let responseContent := value_or (reply_fields data) (JStr "收到回复，但内容为空") in
        reveal messageId responseContent ;;
        ret responseContent
      else if truthy (prop data "error")
              || negb (is_number (prop data "statusCode") 200) then
        throw (Exception
                 match error_message data with
                 | Some errorMessage => new_Error errorMessage
                 | None => new_TypeError cannot_convert
                 end)
      else
        let responseContent := value_or (reply_fields data) (JStr (JSON_stringify data)) in
        reveal messageId responseContent ;;
        ret responseContent
  end.

(** The body of the [try] block once [fetch] has resolved.  An event stream
    is read from a second [Response] made from the text already received;
    its constructor refuses a body for the statuses 204 and 205. *)
Definition handle_response (response : Response) (messageId : option string) : M json :=
  if negb (ok response) then
    let errorText := match text response with inr t => t | inl _ => "未知错误" end in
    throw (Exception
             (new_Error ("API调用失败 (" ++ pretty (status response) ++ "): "
                         ++ statusText response ++ ". " ++ errorText)))
  else
    let contentType := default "" (content_type response) in
    match text response with
    | inl e => throw (Exception e)
    | inr responseText =>
        if includes contentType "text/event-stream" then
          if (status response =? 204) || (status response =? 205) then
            throw (Exception
                     (new_TypeError
                        "Failed to construct 'Response': Response with null body status cannot have body"))
          else
            full <- handleStreamResponse
                      (Some (reader_of (body_chunks env responseText))) messageId ;;
            ret (JStr full)
        else if includes contentType "application/json"
                || includes contentType "text/plain" then
          match JSON_parse responseText with
          | None =>
              reveal messageId (JStr responseText) ;;
              ret (JStr responseText)
          | Some data => handle_json data messageId
          end
        else
          reveal messageId (JStr responseText) ;;
          ret (JStr (if String.eqb responseText "" then "收到响应，但内容为空"
                     else responseText))
    end.

(** The message of the error raised for a failed connection. *)
Definition network_failure (diagnosticInfo : string) : string :=
  "网络连接失败" ++ NL ++ NL ++ "诊断信息：" ++ NL ++ diagnosticInfo
  ++ NL ++ NL ++ "请检查：" ++ NL ++ "1. API URL是否正确" ++ NL
  ++ "2. 网络连接是否正常" ++ NL ++ "3. API是否支持CORS跨域请求" ++ NL
  ++ "4. PowerBI网络策略设置".

(** The [catch] block of [callApi]. *)
Definition classify_error (error : Thrown) : M json :=
  match error with
  | Undefined =>
      throw (Exception
               (new_TypeError "Cannot read properties of undefined (reading 'name')"))
  | Exception e =>
      if String.eqb (err_name e) "AbortError" then
        throw (Exception (new_Error "请求超时，请检查网络连接或API响应速度"))
      else if includes (err_message e) "Failed to fetch" then
        diagnosticInfo <- performNetworkDiagnostics ;;
        throw (Exception (new_Error (network_failure diagnosticInfo)))
      else if includes (err_message e) "CORS" then
        throw (Exception (new_Error "跨域请求被阻止，请确保API Gateway配置了正确的CORS策略"))
      else if includes (err_message e) "TypeError" then
        throw (Exception (new_Error "请求配置错误，请检查API URL格式和请求参数"))
      else throw error
  end.

Definition callApi (message : string) (messageId : option string) : M json :=
  if String.eqb (apiUrl apiSettings) "" then
    throw (Exception (new_Error "请先配置API URL"))
  else
    timestamp <- now_toISOString ;;
    try_catch
      (response <- do_fetch (build_request message timestamp) ;;
       handle_response response messageId)
      classify_error.

(** *** callApiWithRetry *)

Definition backoff_delay (attempt : Z) : Z := Z.min (1000 * 2 ^ (attempt - 1)) 5000.

(** The [catch] block of the retry loop; [again] is the rest of the loop
    after [continue]. *)
Definition on_failure (attempt maxRetries : Z) (loadingId : option string)
    (again : M json) (error : Thrown) : M json :=
  match error with
  | Undefined =>
      throw (Exception
               (new_TypeError "Cannot read properties of undefined (reading 'message')"))
  | Exception e =>
      if (includes (err_message e) "Failed to fetch"
          || includes (err_message e) "网络连接失败")
         && (attempt <? maxRetries) then
        when (given loadingId)
          (updateMessage (id_of loadingId)
             ("连接失败，" ++ pretty (Math_ceil_div (backoff_delay attempt) 1000)
              ++ "秒后重试...")) ;;
        sleep (inject_Z (backoff_delay attempt)) ;;
        again
      else throw error
  end.

(** The loop from [attempt] on.  [fuel] is the number of iterations the
    loop condition [attempt <= maxRetries] still allows, so the exhausted
    case is the statement after the loop. *)
Fixpoint retry_from (fuel : nat) (attempt maxRetries : Z) (message : string)
    (loadingId : option string) (lastError : Thrown) : M json :=
  match fuel with
  | O => throw lastError
  | S fuel' =>
      fun w =>
        match (when (given loadingId && (1 <? attempt))
                 (updateMessage (id_of loadingId)
                    ("正在重试连接... (" ++ pretty attempt ++ "/" ++ pretty maxRetries ++ ")")) ;;
               callApi message None) w with
        | (Normal a, w') => (Normal a, w')
        | (Abrupt error, w') =>
            on_failure attempt maxRetries loadingId
              (retry_from fuel' (attempt + 1) maxRetries message loadingId error)
              error w'
        end
  end.

Definition callApiWithRetry (message : string) (maxRetries : Z)
    (loadingId : option string) : M json :=
  retry_from (Z.to_nat maxRetries) 1 maxRetries message loadingId Undefined.

End Visual.

(** ** update *)

(** The part of [VisualUpdateOptions] that [update] reads.  Property values
    are strings, as the casts in the source state. *)
Record DataViewMetadata : Type := { objects : option (gmap string (gmap string string)) }.
Record DataView : Type := { metadata : DataViewMetadata }.
Record VisualUpdateOptions : Type := { dataViews : list DataView }.

(** [value || fallback] on a property that may be missing. *)
Definition string_or (value : option string) (fallback : string) : string :=
  match value with
  | Some s => if String.eqb s "" then fallback else s
  | None => fallback
  end.

(** [options.dataViews[0]?.metadata.objects] followed by [objects?.apiSettings] *)
Definition apiSettings_object (options : VisualUpdateOptions) : option (gmap string string) :=
  match dataViews options with
  | dataView :: _ =>
      match objects (metadata dataView) with
      | Some objs => objs !! "apiSettings"
      | None => None
      end
  | [] => None
  end.

(** The stored settings after [update(options)]. *)
Definition update (this_apiSettings : ApiSettings) (options : VisualUpdateOptions)
    : ApiSettings :=
  match apiSettings_object options with
  | Some o =>
      {| apiUrl := string_or (o !! "apiUrl") "";
         apiKey := string_or (o !! "apiKey") "";
         authType := string_or (o !! "authType") "Bearer" |}
  | None => this_apiSettings
  end.

(** ** Reading traces *)

(** The network-level view of a trace: requests sent and delays awaited. *)
Inductive Step : Type :=
  | Attempt
  | Wait (ms : Q).

Fixpoint steps (evs : list Event) : list Step :=
  match evs with
  | [] => []
  | Fetch _ :: rest => Attempt :: steps rest
  | SetTimeout ms :: rest => Wait ms :: steps rest
  | _ :: rest => steps rest
  end.

Fixpoint fetch_count (evs : list Event) : nat :=
  match evs with
  | [] => 0
  | Fetch _ :: rest => S (fetch_count rest)
  | _ :: rest => fetch_count rest
  end.

(** The texts handed to [updateMessageWithTyping], in order. *)
Fixpoint typing_texts (evs : list Event) : list string :=
  match evs with
  | [] => []
  | UpdateMessageWithTyping _ t :: rest => t :: typing_texts rest
  | _ :: rest => typing_texts rest
  end.

(** The values a text takes while [fragments] are appended to it one by one. *)
Fixpoint running_texts (acc : string) (fragments : list string) : list string :=
  match fragments with
  | [] => []
  | f :: rest => (acc ++ f) :: running_texts (acc ++ f) rest
  end.

(** All fragments laid end to end. *)
Fixpoint concat_all (fragments : list string) : string :=
  match fragments with
  | [] => ""
  | f :: rest => f ++ concat_all rest
  end.

(** The attempts and waits of [m] tries that all end in a retry but the last. *)
Fixpoint schedule_from (attempt : Z) (m : nat) : list Step :=
  match m with
  | O => []
  | S O => [Attempt]
  | S m' => Attempt :: Wait (inject_Z (backoff_delay attempt)) :: schedule_from (attempt + 1) m'
  end.

(** The events of a simulated playback of [words] with the given delays. *)
Fixpoint playback (messageId : string) (texts : list string) (delays : list Q) : list Event :=
  match texts, delays with
  | t :: texts', d :: delays' =>
      UpdateMessageWithTyping messageId t :: SetTimeout d :: playback messageId texts' delays'
  | _, _ => []
  end.

(** ** Sample environments *)

Definition sample_env (outcome : nat -> FetchOutcome) : Env :=
  {| fetch := fun i _ => outcome i;
     Date_toISOString := fun i => "2024-01-01T00:00:0" ++ pretty i ++ ".000Z";
     Date_toLocaleString := fun i => "2024/1/1 00:00:0" ++ pretty i;
     Math_random := fun _ => (1 # 2)%Q;
     URL_parse :=
       fun _ => Some {| protocol := "https:"; host := "api.example.com"; port := "" |};
     body_chunks := fun s => [s] |}.

Definition sample_settings : ApiSettings :=
  {| apiUrl := "https://api.example.com/chat"; apiKey := "abc"; authType := "Bearer" |}.

Definition json_response (code : Z) (reason body_text : string) : Response :=
  {| status := code; statusText := reason;
     content_type := Some "application/json"; text := inr body_text |}.

Definition event_stream_response (body_text : string) : Response :=
  {| status := 200; statusText := "OK";
     content_type := Some "text/event-stream"; text := inr body_text |}.

(** The same environment, with bodies read back in two chunks cut after
    [n] bytes. *)
Definition read_in_two (n : nat) (env : Env) : Env :=
  {| fetch := fetch env;
     Date_toISOString := Date_toISOString env;
     Date_toLocaleString := Date_toLocaleString env;
     Math_random := Math_random env;
     URL_parse := URL_parse env;
     body_chunks := fun s => [String.substring 0 n s; slice n s] |}.

(** A line [data: payload] of an event stream, with its line feed. *)
Definition data_line (payload : string) : string := "data: " ++ payload ++ NL.

(** [{"key":"value"}] *)
Definition object1 (key value : string) : string :=
  "{" ++ quote key ++ ":" ++ quote value ++ "}".

(** ** The words of the specification, for comparison *)

Definition is_space_char (c : ascii) : bool :=
  let n := N_of_ascii c in ((9 <=? n) && (n <=? 13) || (n =? 32))%N.

(** "Splits the text on whitespace into tokens": the maximal runs of
    characters that are not white space. *)
Fixpoint whitespace_tokens_go (s : string) (current : string) : list string :=
  match s with
  | "" => if String.eqb current "" then [] else [current]
  | String c r =>
      if is_space_char c then
        if String.eqb current "" then whitespace_tokens_go r ""
        else current :: whitespace_tokens_go r ""
      else whitespace_tokens_go r (current ++ String c "")
  end.

Definition whitespace_tokens (s : string) : list string := whitespace_tokens_go s "".


(** ** Notions used in the statements *)

Local Open Scope list_scope.

(** [ui_only g m]: running [m] sends no request; the events it adds are
    calls into the user interface and timers, and there are none at all
    unless [g] holds. *)
Definition ui_only (g : bool) {A} (m : M A) : Prop :=
  forall w, exists evs,
    trace (snd (m w)) = trace w ++ evs
    /\ fetches (snd (m w)) = fetches w
    /\ fetch_count evs = 0%nat
    /\ (g = false -> evs = []).

(** The world once the timestamp is read and the request has left. *)
Definition sent (env : Env) (s : ApiSettings) (message : string) (w : World) : World :=
  {| trace := trace w ++ [Fetch (build_request s message (Date_toISOString env (dates w)))];
     fetches := S (fetches w);
     dates := S (dates w);
     randoms := randoms w |}.

(** What [callApi] does after the request has left. *)
Definition after_fetch (env : Env) (s : ApiSettings) (messageId : option string)
    (outcome : FetchOutcome) : M json :=
  try_catch
    match outcome with
    | Rejected e => throw (Exception e)
    | Resolved r => handle_response env r messageId
    end
    (classify_error env s).

(** The world in which attempt number [attempt] starts. *)
Definition announced (attempt maxRetries : Z) (loadingId : option string) (w : World) : World :=
  if given loadingId && (1 <? attempt)
  then log (UpdateMessage (id_of loadingId)
              ("正在重试连接... (" +:+ pretty attempt +:+ "/" +:+ pretty maxRetries +:+ ")")) w
  else w.

(** A connection failure, as [callApiWithRetry] recognises it. *)
Definition retriable (e : JsError) : bool :=
  includes (err_message e) "Failed to fetch" || includes (err_message e) "网络连接失败".

(** The world after the notice of a failed attempt and the backoff wait. *)
Definition backed_off (attempt : Z) (loadingId : option string) (w : World) : World :=
  log (SetTimeout (inject_Z (backoff_delay attempt)))
    (if given loadingId
     then log (UpdateMessage (id_of loadingId)
                 ("连接失败，" +:+ pretty (Math_ceil_div (backoff_delay attempt) 1000)
                  +:+ "秒后重试...")) w
     else w).

(** The world after a call of [callApi] whose request was rejected for a
    connection failure: the request left, the clock was read twice. *)
Definition failed (env : Env) (s : ApiSettings) (message : string) (w : World) : World :=
  {| trace := trace w ++ [Fetch (build_request s message (Date_toISOString env (dates w)))];
     fetches := S (fetches w);
     dates := S (S (dates w));
     randoms := randoms w |}.

(** The error raised for a response outside the 2xx range. *)
Definition http_failure (response : Response) : string :=
  "API调用失败 (" +:+ pretty (status response) +:+ "): " +:+ statusText response +:+ ". "
  +:+ match text response with inr t => t | inl _ => "未知错误" end.

(** A response of a gateway whose upstream could not be reached. *)
Definition bad_gateway : Response :=
  {| status := 502; statusText := "Bad Gateway"; content_type := Some "text/plain";
     text := inr "Failed to fetch upstream" |}.

(** One report to the user interface, when there is a message to update. *)
Definition reported (messageId : option string) (fullResponse : string) (w : World) : World :=
  if given messageId
  then log (UpdateMessageWithTyping (id_of messageId) fullResponse) w
  else w.

(** The texts [typeWords] shows, word after word. *)
Fixpoint revealed (i : nat) (currentText : string) (words : list string) : list string :=
  match words with
  | [] => []
  | word :: rest =>
      let currentText' := currentText +:+ (if (0 <? i)%nat then " " else "") +:+ word in
      currentText' :: revealed (S i) currentText' rest
  end.

(** What the specification's words describe: the text cut at white space,
    and the tokens shown one more at a time. *)
Definition spec_revealed (text : string) : list string :=
  let tokens := whitespace_tokens text in
  map (fun k => join " " (firstn k tokens)) (seq 1 (length tokens)).

(** A delay of the simulated playback: in the 50-150 ms range, both ends
    included. *)
Definition in_range (d : Q) : Prop := (50 <= d /\ d <= 150)%Q.

Definition TAB : string := String "009" "".


(** The three success signals [handle_json] tests first. *)
Definition signals_success (data : json) : bool :=
  is_number (prop data "statusCode") 200
  || is_number (prop data "status") 200
  || is_true (prop data "success").

(** The first of the named fields of [data], in the order given, whose
    value is not falsy (not missing, [null], [false], zero or the empty
    string). *)
Fixpoint first_present (data : json) (fields : list string) : option json :=
  match fields with
  | [] => None
  | field :: rest =>
      match prop data field with
      | Some v => if truthy (Some v) then Some v else first_present data rest
      | None => first_present data rest
      end
  end.

(** The error raised for an object without a success signal.  Its message
    is the [error] field, else the [message] field, else "API返回错误状态: "
    followed by [statusCode] or, when that is falsy, by [status]; each is
    converted to a string, and a value that cannot be converted raises the
    [TypeError] of the conversion instead. *)
Definition raised_error (data : json) : JsError :=
  match
    match first_present data ["error"; "message"] with
    | Some v => ToString v
    | None =>
        option_map (fun status => "API返回错误状态: " +:+ status)
          (ToString_val (if truthy (prop data "statusCode") then prop data "statusCode"
                         else prop data "status"))
    end
  with
  | Some msg => new_Error msg
  | None => new_TypeError cannot_convert
  end.



(** ** Further notions: lines of a stream *)

(** Whether the character occurs in the string. *)
Fixpoint has_char (c : ascii) (s : string) : bool :=
  match s with
  | "" => false
  | String a r => Ascii.eqb a c || has_char c r
  end.

(** The complete lines of a text: every piece of [text.split(LF)] but the
    last, which is the line still being received. *)
Definition complete_lines (text : string) : list string := fst (pop (split LF text)).

(** ** Further notions: what a run may show *)

(** [only P m]: every event that [m] adds to the trace satisfies [P]. *)
Definition only (P : Event -> bool) {A} (m : M A) : Prop :=
  forall w, exists evs,
    trace (snd (m w)) = trace w ++ evs /\ forallb P evs = true.

(** A request, a timer, or a call into the user interface about the
    message [messageId]. *)
Definition targets (messageId : string) (ev : Event) : bool :=
  match ev with
  | Fetch _ | SetTimeout _ => true
  | UpdateMessage i _ | UpdateMessageWithTyping i _ | FinishTyping i _
  | RemoveStreamingEffect i => String.eqb i messageId
  end.

(** A request, a timer, or a plain text notice written to the loading
    message, when there is one. *)
Definition notice_for (loadingId : option string) (ev : Event) : bool :=
  match ev with
  | Fetch _ | SetTimeout _ => true
  | UpdateMessage i _ => given loadingId && String.eqb i (id_of loadingId)
  | _ => false
  end.

(** A completion of [callApi] that a caller can show: a text, or an error
    object with a [message]. *)
Definition text_or_error (c : Completion json) : Prop :=
  match c with
  | Normal (JStr _) => True
  | Normal _ => False
  | Abrupt (Exception _) => True
  | Abrupt Undefined => False
  end.

(** A completion other than [throw undefined]. *)
Definition throws_undefined {A} (c : Completion A) : bool :=
  match c with
  | Abrupt Undefined => true
  | _ => false
  end.

(** A reply whose [response] field is a number: [{"status":200,"response":5}]. *)
Definition number_reply : Response :=
  json_response 200 "OK" ("{" +:+ quote "status" +:+ ":200," +:+ quote "response" +:+ ":5}").

(** ** enumerateObjectInstances *)

(** The settings the visual is constructed with. *)
Definition initial_apiSettings : ApiSettings :=
  {| apiUrl := ""; apiKey := ""; authType := "Bearer" |}.

Record VisualObjectInstance : Type := {
  objectName : string;
  properties : gmap string string;
  validValues : gmap string string;
  selector : option string
}.

(** [this.apiSettings] is never null and its fields are strings, so the
    [?? ...] defaults are not taken. *)
Definition enumerateObjectInstances (this_apiSettings : ApiSettings)
    : list VisualObjectInstance :=
  [ {| objectName := "apiSettings";
       properties :=
         <["authType" := authType this_apiSettings]>
           (<["apiKey" := apiKey this_apiSettings]>
              (<["apiUrl" := apiUrl this_apiSettings]> ∅));
       validValues := ∅;
       selector := None |} ].

(** The update the host sends when it hands the enumerated properties back
    as the objects of the first data view. *)
Definition persisted (instances : list VisualObjectInstance) : VisualUpdateOptions :=
  {| dataViews :=
       [ {| metadata :=
              {| objects :=
                   Some (foldr (fun i objs => <[objectName i := properties i]> objs)
                           ∅ instances) |} |} ] |}.

(** ** The message list and sendMessage

    [this.messages] and the text of the input box join the world; the DOM
    elements, which mirror the list, and Markdown rendering stay outside. *)

Module ChatMessage.
Record t : Type := { id : string; text : string; isUser : bool; timestamp : nat }.
End ChatMessage.

Record Visual : Type := {
  world : World;
  messages : list ChatMessage.t;
  messageInput_value : string
}.

(** [message.text = newText] *)
Definition with_text (m : ChatMessage.t) (newText : string) : ChatMessage.t :=
  {| ChatMessage.id := ChatMessage.id m; ChatMessage.text := newText;
     ChatMessage.isUser := ChatMessage.isUser m;
     ChatMessage.timestamp := ChatMessage.timestamp m |}.

(** [const message = this.messages.find(m => m.id === messageId);
     if (message) { message.text = newText; }] *)
Fixpoint set_text (messageId newText : string) (msgs : list ChatMessage.t)
    : list ChatMessage.t :=
  match msgs with
  | [] => []
  | m :: rest =>
      if String.eqb (ChatMessage.id m) messageId then with_text m newText :: rest
      else m :: set_text messageId newText rest
  end.

(** What a call into the user interface does to the list: [updateMessage],
    [updateMessageWithTyping] and [finishTyping] end with the same update
    of the message in memory; [removeStreamingEffect] touches the DOM only. *)
Definition apply_event (msgs : list ChatMessage.t) (ev : Event) : list ChatMessage.t :=
  match ev with
  | UpdateMessage i t | UpdateMessageWithTyping i t | FinishTyping i t => set_text i t msgs
  | Fetch _ | SetTimeout _ | RemoveStreamingEffect _ => msgs
  end.

(** [this.messages = this.messages.filter(m => m.id !== messageId)] *)
Definition removeMessage (messageId : string) (msgs : list ChatMessage.t)
    : list ChatMessage.t :=
  List.filter (fun m => negb (String.eqb (ChatMessage.id m) messageId)) msgs.

(** The events a computation adds to the trace. *)
Definition events_of {A} (m : M A) (w : World) : list Event :=
  skipn (length (trace w)) (trace (snd (m w))).

(** A computation over the world, run inside the visual: the calls into
    the user interface it made are applied to the list. *)
Definition on_world {A} (m : M A) (v : Visual) : Completion A * Visual :=
  (fst (m (world v)),
   {| world := snd (m (world v));
      messages := fold_left apply_event (events_of m (world v)) (messages v);
      messageInput_value := messageInput_value v |}).

(** [response === text] *)
Definition is_string (response : json) (s : string) : bool :=
  match response with
  | JStr t => String.eqb t s
  | _ => false
  end.

(** The body of the [try] block of [sendMessage] after [callApi].  The
    placeholder is a bot message, whose text goes through [parseMarkdown]:
    only a string has the [replace] method that it calls on a value that
    is not falsy. *)
Definition show_response (responseId : string) (response : json) : M unit :=
  if truthy (Some response) && negb (is_string response "收到空响应") then
    match response with
    | JStr t => updateMessage responseId t
    | _ => throw (Exception (new_TypeError "text.replace is not a function"))
    end
  else if is_string response "收到空响应" then
    updateMessage responseId "抱歉，没有收到有效回复，请重试。"
  else ret tt.

(** The text shown for an error. *)
Definition error_notice (msg : string) : string :=
  if includes msg "网络连接失败" then
    "❌ 网络连接失败" +:+ NL +:+ NL +:+ msg +:+ NL +:+ NL +:+ "💡 建议：检查网络连接和API配置"
  else if includes msg "请求超时" then
    "⏰ 请求超时" +:+ NL +:+ NL +:+ msg +:+ NL +:+ NL +:+ "💡 建议：检查网络连接或稍后重试"
  else
    "❌ 发生错误：" +:+ msg +:+ NL +:+ NL +:+ "💡 请检查API配置和网络连接".

(** The [catch] block of [sendMessage]. *)
Definition show_error (responseId : string) (error : Thrown) : M unit :=
  match error with
  | Undefined =>
      throw (Exception
               (new_TypeError "Cannot read properties of undefined (reading 'message')"))
  | Exception e => updateMessage responseId (error_notice (err_message e))
  end.

Section Chat.

(** Besides the environment of [callApi]: the clock in milliseconds at its
    [i]-th reading, and the digits of a number in base 36. *)
Context (env : Env) (apiSettings : ApiSettings)
        (Date_now : nat -> Z) (Number_toString36 : Q -> string).

(** [Date.now().toString() + Math.random().toString(36).substr(2, 9)] *)
Definition new_messageId (w : World) : string :=
  pretty (Date_now (dates w))
  +:+ String.substring 2 9 (Number_toString36 (Math_random env (randoms w))).

(** [addMessage]: the identifier is made from the clock and a random
    number, the time stamp is a second reading of the clock. *)
Definition addMessage (text : string) (isUser : bool) (v : Visual) : string * Visual :=
  let w := world v in
  let messageId := new_messageId w in
  (messageId,
   {| world := {| trace := trace w; fetches := fetches w;
                  dates := S (S (dates w)); randoms := S (randoms w) |};
      messages :=
        messages v ++ [ {| ChatMessage.id := messageId; ChatMessage.text := text;
                           ChatMessage.isUser := isUser;
                           ChatMessage.timestamp := S (dates w) |} ];
      messageInput_value := messageInput_value v |}).

Definition sendMessage (v : Visual) : Completion unit * Visual :=
  let messageText := trim (messageInput_value v) in
  if String.eqb messageText "" then (Normal tt, v)
  else
    let '(_, v1) := addMessage messageText true v in
    let v2 := {| world := world v1; messages := messages v1; messageInput_value := "" |} in
    let '(responseId, v3) := addMessage "正在连接..." false v2 in
    on_world
      (try_catch
         (response <- callApi env apiSettings messageText (Some responseId) ;;
          show_response responseId response)
         (show_error responseId))
      v3.

End Chat.

(** The identifiers [sendMessage] gives to the user's message and to the
    placeholder of the reply, and the world in which it calls [callApi]. *)
Definition user_id (env : Env) (Date_now : nat -> Z) (Number_toString36 : Q -> string)
    (v : Visual) : string :=
  new_messageId env Date_now Number_toString36 (world v).

Definition asking (w : World) : World :=
  {| trace := trace w; fetches := fetches w;
     dates := S (S (S (S (dates w)))); randoms := S (S (randoms w)) |}.

Definition response_id (env : Env) (Date_now : nat -> Z) (Number_toString36 : Q -> string)
    (v : Visual) : string :=
  new_messageId env Date_now Number_toString36
    {| trace := trace (world v); fetches := fetches (world v);
       dates := S (S (dates (world v))); randoms := S (randoms (world v)) |}.

(** What [sendMessage] writes to the placeholder once [callApi] has
    completed with a text or an error, if it writes anything. *)
Definition final_notice (c : Completion json) : option string :=
  match c with
  | Normal (JStr t) =>
      if String.eqb t "" then None
      else if String.eqb t "收到空响应" then Some "抱歉，没有收到有效回复，请重试。"
      else Some t
  | Abrupt (Exception e) => Some (error_notice (err_message e))
  | _ => None
  end.

(** The text of the placeholder after an exchange that completed with a
    text or an error. *)
Definition shown (c : Completion json) : string :=
  match c with
  | Normal (JStr t) => if String.eqb t "收到空响应" then "抱歉，没有收到有效回复，请重试。" else t
  | Abrupt (Exception e) => error_notice (err_message e)
  | _ => "正在连接..."
  end.

(** The last text the events of a run give to message [messageId]. *)
Definition last_text (messageId : string) (evs : list Event) (before : string) : string :=
  fold_left
    (fun current ev =>
       match ev with
       | UpdateMessage i t | UpdateMessageWithTyping i t | FinishTyping i t =>
           if String.eqb i messageId then t else current
       | _ => current
       end)
    evs before.

(** A sample visual and sample sources of identifiers. *)
Definition sample_visual (input : string) : Visual :=
  {| world := initial; messages := []; messageInput_value := input |}.

Definition sample_now (i : nat) : Z := 1700000000000 + Z.of_nat i.

Definition sample_digits (r : Q) : string := "0.4fzyo82mvyr".

(** A reply with a text: [{"status":200,"response":"hi"}]. *)
Definition text_reply : Response :=
  json_response 200 "OK"
    ("{" +:+ quote "status" +:+ ":200," +:+ quote "response" +:+ ":" +:+ quote "hi" +:+ "}").

(** A payload whose [apiSettings] entry has an endpoint only. *)
Definition endpoint_only : VisualUpdateOptions :=
  {| dataViews :=
       [ {| metadata :=
              {| objects :=
                   Some (<["apiSettings" := <["apiUrl" := "https://other.example.com"]> ∅]> ∅)
              |} |} ] |}.


(** The rejection of [fetch] as Firefox words it. *)
Definition firefox_failure : JsError :=
  new_TypeError "NetworkError when attempting to fetch resource.".

(** * Properties *)

(** ** Strings *)

Lemma prefix_append (a b : string) : String.prefix a (a +:+ b) = true.
Proof.
  induction a as [|c a IH]; simpl.
  - destruct b; reflexivity.
  - destruct (ascii_dec c c) as [_|N]; [exact IH | contradiction].
Qed.

Lemma includes_prefix (s needle : string) :
  String.prefix needle s = true -> includes s needle = true.
Proof. intros H. destruct s; cbn [includes]; rewrite H; reflexivity. Qed.

Lemma includes_at_start (a b : string) : includes (a +:+ b) a = true.
Proof. apply includes_prefix, prefix_append. Qed.

Lemma string_eqb_false (a b : string) : a <> b -> String.eqb a b = false.
Proof. intros H. apply String.eqb_neq. exact H. Qed.

(** ** The fuel of the JSON reader and of [trim] is enough *)

Lemma skip_ws_length (s : string) : (String.length (skip_ws s) <= String.length s)%nat.
Proof.
  induction s as [|c s IH]; [apply Nat.le_refl|]. cbn [skip_ws].
  destruct (is_json_ws c); cbn [String.length]; lia.
Qed.

Lemma skip_ws_cons (s : string) c r :
  skip_ws s = String c r -> (S (String.length r) <= String.length s)%nat.
Proof. intros H. pose proof (skip_ws_length s) as L. rewrite H in L. exact L. Qed.

Lemma slice_length (n : nat) (s : string) :
  (String.length (slice n s) <= String.length s)%nat.
Proof.
  revert s. induction n as [|n IH]; intros s; [apply Nat.le_refl|].
  destruct s as [|c s]; cbn [slice String.length]; [lia|].
  specialize (IH s). lia.
Qed.

Lemma parse_literal_length word v s v' rest :
  word <> "" -> parse_literal word v s = Some (v', rest) ->
  (String.length rest < String.length s)%nat.
Proof.
  unfold parse_literal. intros Hw H.
  destruct (startsWith s word) eqn:Hp; [| discriminate]. injection H as _ <-.
  destruct word as [|a word]; [contradiction|].
  destruct s as [|c s]; [discriminate|].
  cbn [String.length slice]. pose proof (slice_length (String.length word) s). lia.
Qed.

Lemma take_digits_length (s : string) ds rest :
  take_digits s = (ds, rest) -> (String.length rest + length ds = String.length s)%nat.
Proof.
  revert ds rest. induction s as [|c s IH]; intros ds rest H; cbn [take_digits] in H.
  - injection H as <- <-. reflexivity.
  - destruct (digit_of c).
    + destruct (take_digits s) as [ds' rest'] eqn:E. injection H as <- <-.
      specialize (IH _ _ eq_refl). cbn [String.length length]. lia.
    + injection H as <- <-. cbn [length]. lia.
Qed.

Lemma parse_hex4_length (s : string) n rest :
  parse_hex4 s = Some (n, rest) -> (String.length rest + 4 = String.length s)%nat.
Proof.
  unfold parse_hex4. intros H.
  destruct s as [|a [|b [|c [|d r]]]]; try discriminate.
  destruct (hex_of a), (hex_of b), (hex_of c), (hex_of d); try discriminate.
  injection H as _ <-. cbn [String.length]. lia.
Qed.

Lemma parse_number_length (s : string) v rest :
  parse_number s = Some (v, rest) -> (String.length rest < String.length s)%nat.
Proof.
  unfold parse_number. intros H.
  destruct (match s with
            | String c r => if Ascii.eqb c "-" then (true, r) else (false, s)
            | "" => (false, s)
            end) as [negative s1] eqn:E1.
  assert (L1 : (String.length s1 <= String.length s)%nat).
  { destruct s as [|c r]; [injection E1 as _ <-; apply Nat.le_refl|].
    destruct (Ascii.eqb c "-"); injection E1 as _ <-; cbn [String.length]; lia. }
  destruct (take_digits s1) as [int_ds s2] eqn:E2.
  pose proof (take_digits_length _ _ _ E2) as L2.
  destruct int_ds as [|d more]; [discriminate|]. cbn [length] in L2.
  destruct ((d =? 0) && negb (Nat.eqb (length more) 0)); [discriminate|].
  match type of H with
  | match ?frac with _ => _ end = _ => destruct frac as [[frac_ds s3]|] eqn:E3; [| discriminate]
  end.
  assert (L3 : (String.length s3 <= String.length s2)%nat).
  { destruct s2 as [|c r]; [injection E3 as _ <-; apply Nat.le_refl|].
    destruct (Ascii.eqb c ".").
    - destruct (take_digits r) as [[|f fs] rest'] eqn:E4; [discriminate|].
      injection E3 as _ <-. pose proof (take_digits_length _ _ _ E4).
      cbn [String.length]. lia.
    - injection E3 as _ <-. apply Nat.le_refl. }
  match type of H with
  | match ?expo with _ => _ end = _ => destruct expo as [[ex s4]|] eqn:E5; [| discriminate]
  end.
  injection H as _ <-.
  assert (L4 : (String.length s4 <= String.length s3)%nat).
  { destruct s3 as [|c r]; [injection E5 as _ <-; apply Nat.le_refl|].
    destruct (Ascii.eqb c "e" || Ascii.eqb c "E").
    - destruct (match r with
                | String sg r' =>
                    if Ascii.eqb sg "-" then (true, r')
                    else if Ascii.eqb sg "+" then (false, r') else (false, r)
                | "" => (false, r)
                end) as [eneg r1] eqn:E6.
      assert (String.length r1 <= String.length r)%nat.
      { destruct r as [|sg r']; [injection E6 as _ <-; apply Nat.le_refl|].
        destruct (Ascii.eqb sg "-"); [injection E6 as _ <-; cbn [String.length]; lia|].
        destruct (Ascii.eqb sg "+"); injection E6 as _ <-; cbn [String.length]; lia. }
      destruct (take_digits r1) as [[|e0 es] rest'] eqn:E7; [discriminate|].
      injection E5 as _ <-. pose proof (take_digits_length _ _ _ E7).
      cbn [String.length]. lia.
    - injection E5 as _ <-. apply Nat.le_refl. }
  lia.
Qed.

Lemma parse_chars_length (fuel : nat) :
  forall s t rest,
    parse_chars fuel s = Some (t, rest) -> (String.length rest < String.length s)%nat.
Proof.
  induction fuel as [|fuel IH]; intros s t rest H; [discriminate|].
  cbn [parse_chars] in H.
  destruct s as [|c r]; [discriminate|]. cbn [String.length].
  destruct (Ascii.eqb c DQUOTE); [injection H as _ <-; lia|].
  destruct (Ascii.eqb c BACKSLASH).
  - destruct r as [|e r1]; [discriminate|]. cbn [String.length].
    assert (Hsimple : forall x,
               match parse_chars fuel r1 with
               | Some (t0, rest0) => Some (x +:+ t0, rest0)
               | None => None
               end = Some (t, rest) -> (String.length rest < S (S (String.length r1)))%nat).
    { intros x Hx. destruct (parse_chars fuel r1) as [[t0 rest0]|] eqn:E; [| discriminate].
      injection Hx as _ <-. specialize (IH _ _ _ E). lia. }
    repeat match type of H with
           | (if ?b then _ else _) = _ =>
               destruct b; [first [ apply (Hsimple _ H) | idtac ] |]
           end; try discriminate.
    destruct (parse_hex4 r1) as [[hi r2]|] eqn:E2; [| discriminate].
    pose proof (parse_hex4_length _ _ _ E2) as L2.
    assert (Hsingle :
              match parse_chars fuel r2 with
              | Some (t0, rest0) => Some (utf8_encode hi +:+ t0, rest0)
              | None => None
              end = Some (t, rest) -> (String.length rest < S (S (String.length r1)))%nat).
    { intros Hx. destruct (parse_chars fuel r2) as [[t0 rest0]|] eqn:E; [| discriminate].
      injection Hx as _ <-. specialize (IH _ _ _ E). lia. }
    destruct ((55296 <=? hi)%N && (hi <? 56320)%N); [| exact (Hsingle H)].
    destruct r2 as [|b1 [|b2 r3]]; try exact (Hsingle H).
    destruct (Ascii.eqb b1 BACKSLASH && Ascii.eqb b2 "u"); [| exact (Hsingle H)].
    destruct (parse_hex4 r3) as [[lo r4]|] eqn:E4; [| exact (Hsingle H)].
    pose proof (parse_hex4_length _ _ _ E4) as L4.
    destruct ((56320 <=? lo)%N && (lo <? 57344)%N); [| exact (Hsingle H)].
    destruct (parse_chars fuel r4) as [[t0 rest0]|] eqn:E; [| discriminate].
    injection H as _ <-. specialize (IH _ _ _ E). cbn [String.length] in L2. lia.
  - destruct (N_of_ascii c <? 32)%N; [discriminate|].
    destruct (parse_chars fuel r) as [[t0 rest0]|] eqn:E; [| discriminate].
    injection H as _ <-. specialize (IH _ _ _ E). lia.
Qed.

Lemma parse_lengths (fuel : nat) :
  (forall s v rest,
      parse_value fuel s = Some (v, rest) -> (String.length rest < String.length s)%nat)
  /\ (forall s ms rest,
        parse_members fuel s = Some (ms, rest) -> (String.length rest < String.length s)%nat)
  /\ (forall s xs rest,
        parse_elements fuel s = Some (xs, rest) -> (String.length rest < String.length s)%nat).
Proof.
  induction fuel as [|fuel (IHv & IHm & IHe)]; [repeat split; discriminate|].
  split; [| split].
  - intros s v rest H. cbn [parse_value] in H.
    destruct (skip_ws s) as [|c r] eqn:E0; [discriminate|].
    pose proof (skip_ws_cons _ _ _ E0) as L0.
    destruct (Ascii.eqb c "{").
    { destruct (skip_ws r) as [|c1 r1] eqn:E1; [discriminate|].
      pose proof (skip_ws_cons _ _ _ E1) as L1.
      destruct (Ascii.eqb c1 "}"); [injection H as _ <-; lia|].
      destruct (parse_members fuel (String c1 r1)) as [[ms rest0]|] eqn:E; [| discriminate].
      injection H as _ <-. specialize (IHm _ _ _ E). cbn [String.length] in IHm. lia. }
    destruct (Ascii.eqb c "[").
    { destruct (skip_ws r) as [|c1 r1] eqn:E1; [discriminate|].
      pose proof (skip_ws_cons _ _ _ E1) as L1.
      destruct (Ascii.eqb c1 "]"); [injection H as _ <-; lia|].
      destruct (parse_elements fuel (String c1 r1)) as [[xs rest0]|] eqn:E; [| discriminate].
      injection H as _ <-. specialize (IHe _ _ _ E). cbn [String.length] in IHe. lia. }
    destruct (Ascii.eqb c DQUOTE).
    { destruct (parse_chars _ r) as [[t rest0]|] eqn:E; [| discriminate].
      injection H as _ <-. pose proof (parse_chars_length _ _ _ _ E). lia. }
    destruct (Ascii.eqb c "t").
    { apply parse_literal_length in H; [| discriminate]. cbn [String.length] in H. lia. }
    destruct (Ascii.eqb c "f").
    { apply parse_literal_length in H; [| discriminate]. cbn [String.length] in H. lia. }
    destruct (Ascii.eqb c "n").
    { apply parse_literal_length in H; [| discriminate]. cbn [String.length] in H. lia. }
    apply parse_number_length in H. cbn [String.length] in H. lia.
  - intros s ms rest H. cbn [parse_members] in H.
    destruct s as [|q r]; [discriminate|]. cbn [String.length].
    destruct (Ascii.eqb q DQUOTE); [| discriminate].
    destruct (parse_chars _ r) as [[k r1]|] eqn:E1; [| discriminate].
    pose proof (parse_chars_length _ _ _ _ E1) as L1.
    destruct (skip_ws r1) as [|colon r2] eqn:E2; [discriminate|].
    pose proof (skip_ws_cons _ _ _ E2) as L2.
    destruct (Ascii.eqb colon ":"); [| discriminate].
    destruct (parse_value fuel r2) as [[v r3]|] eqn:E3; [| discriminate].
    pose proof (IHv _ _ _ E3) as L3.
    destruct (skip_ws r3) as [|d r4] eqn:E4; [discriminate|].
    pose proof (skip_ws_cons _ _ _ E4) as L4.
    destruct (Ascii.eqb d "}"); [injection H as _ <-; lia|].
    destruct (Ascii.eqb d ","); [| discriminate].
    destruct (parse_members fuel (skip_ws r4)) as [[ms0 rest0]|] eqn:E5; [| discriminate].
    injection H as _ <-. pose proof (IHm _ _ _ E5) as L5.
    pose proof (skip_ws_length r4). lia.
  - intros s xs rest H. cbn [parse_elements] in H.
    destruct (parse_value fuel s) as [[v r1]|] eqn:E1; [| discriminate].
    pose proof (IHv _ _ _ E1) as L1.
    destruct (skip_ws r1) as [|d r2] eqn:E2; [discriminate|].
    pose proof (skip_ws_cons _ _ _ E2) as L2.
    destruct (Ascii.eqb d "]"); [injection H as _ <-; lia|].
    destruct (Ascii.eqb d ","); [| discriminate].
    destruct (parse_elements fuel r2) as [[xs0 rest0]|] eqn:E3; [| discriminate].
    injection H as _ <-. pose proof (IHe _ _ _ E3). lia.
Qed.

Lemma parse_value_S (fuel : nat) (s : string) :
  parse_value (S fuel) s
  = (match skip_ws s with
      | "" => None
      | String c r =>
          if Ascii.eqb c "{" then
            match skip_ws r with
            | String c1 r1 =>
                if Ascii.eqb c1 "}" then Some (JObj [], r1)
                else match parse_members fuel (String c1 r1) with
                     | Some (ms, rest) => Some (JObj ms, rest)
                     | None => None
                     end
            | "" => None
            end
          else if Ascii.eqb c "[" then
            match skip_ws r with
            | String c1 r1 =>
                if Ascii.eqb c1 "]" then Some (JArr [], r1)
                else match parse_elements fuel (String c1 r1) with
                     | Some (xs, rest) => Some (JArr xs, rest)
                     | None => None
                     end
            | "" => None
            end
          else if Ascii.eqb c DQUOTE then
            match parse_chars (String.length (String c r)) r with
            | Some (t, rest) => Some (JStr t, rest)
            | None => None
            end
          else if Ascii.eqb c "t" then parse_literal "true" (JBool true) (String c r)
          else if Ascii.eqb c "f" then parse_literal "false" (JBool false) (String c r)
          else if Ascii.eqb c "n" then parse_literal "null" JNull (String c r)
          else parse_number (String c r)
      end).
Proof. reflexivity. Qed.

Lemma parse_members_S (fuel : nat) (s : string) :
  parse_members (S fuel) s
  = (match s with
      | String q r =>
          if Ascii.eqb q DQUOTE then
            match parse_chars (String.length s) r with
            | None => None
            | Some (k, r1) =>
                match skip_ws r1 with
                | String colon r2 =>
                    if Ascii.eqb colon ":" then
                      match parse_value fuel r2 with
                      | None => None
                      | Some (v, r3) =>
                          match skip_ws r3 with
                          | String d r4 =>
                              if Ascii.eqb d "}" then Some ([(k, v)], r4)
                              else if Ascii.eqb d "," then
                                match parse_members fuel (skip_ws r4) with
                                | Some (ms, rest) => Some ((k, v) :: ms, rest)
                                | None => None
                                end
                              else None
                          | "" => None
                          end
                      end
                    else None
                | "" => None
                end
            end
          else None
      | "" => None
      end).
Proof. reflexivity. Qed.

Lemma parse_elements_S (fuel : nat) (s : string) :
  parse_elements (S fuel) s
  = (match parse_value fuel s with
      | None => None
      | Some (v, r1) =>
          match skip_ws r1 with
          | String d r2 =>
              if Ascii.eqb d "]" then Some ([v], r2)
              else if Ascii.eqb d "," then
                match parse_elements fuel r2 with
                | Some (xs, rest) => Some (v :: xs, rest)
                | None => None
                end
              else None
          | "" => None
          end
      end).
Proof. reflexivity. Qed.

(** Once the fuel is twice the length of the input, one more unit changes
    nothing. *)
Lemma parse_fuel_stable (fuel : nat) :
  (forall s, (2 * String.length s <= fuel)%nat ->
             parse_value (S fuel) s = parse_value fuel s)
  /\ (forall s, (2 * String.length s + 1 <= fuel)%nat ->
                parse_members (S fuel) s = parse_members fuel s)
  /\ (forall s, (2 * String.length s + 1 <= fuel)%nat ->
                parse_elements (S fuel) s = parse_elements fuel s).
Proof.
  induction fuel as [|fuel (IHv & IHm & IHe)].
  { split; [| split; intros s H; lia].
    intros [|c s] H; [reflexivity | cbn [String.length] in H; lia]. }
  split; [| split].
  - intros s H.
    rewrite (parse_value_S (S fuel) s), (parse_value_S fuel s).
    destruct (skip_ws s) as [|c r] eqn:E0; [reflexivity|].
    pose proof (skip_ws_cons _ _ _ E0) as L0.
    destruct (Ascii.eqb c "{").
    { destruct (skip_ws r) as [|c1 r1] eqn:E1; [reflexivity|].
      pose proof (skip_ws_cons _ _ _ E1) as L1.
      destruct (Ascii.eqb c1 "}"); [reflexivity|].
      rewrite IHm by (cbn [String.length]; lia). reflexivity. }
    destruct (Ascii.eqb c "[").
    { destruct (skip_ws r) as [|c1 r1] eqn:E1; [reflexivity|].
      pose proof (skip_ws_cons _ _ _ E1) as L1.
      destruct (Ascii.eqb c1 "]"); [reflexivity|].
      rewrite IHe by (cbn [String.length]; lia). reflexivity. }
    reflexivity.
  - intros s H.
    rewrite (parse_members_S (S fuel) s), (parse_members_S fuel s).
    destruct s as [|q r]; [reflexivity|]. cbn [String.length] in H.
    destruct (Ascii.eqb q DQUOTE); [| reflexivity].
    destruct (parse_chars _ r) as [[k r1]|] eqn:E1; [| reflexivity].
    pose proof (parse_chars_length _ _ _ _ E1) as L1.
    destruct (skip_ws r1) as [|colon r2] eqn:E2; [reflexivity|].
    pose proof (skip_ws_cons _ _ _ E2) as L2.
    destruct (Ascii.eqb colon ":"); [| reflexivity].
    rewrite IHv by lia.
    destruct (parse_value fuel r2) as [[v r3]|] eqn:E3; [| reflexivity].
    pose proof (proj1 (parse_lengths fuel) _ _ _ E3) as L3.
    destruct (skip_ws r3) as [|d r4] eqn:E4; [reflexivity|].
    pose proof (skip_ws_cons _ _ _ E4) as L4.
    destruct (Ascii.eqb d "}"); [reflexivity|].
    destruct (Ascii.eqb d ","); [| reflexivity].
    pose proof (skip_ws_length r4).
    rewrite IHm by lia. reflexivity.
  - intros s H.
    rewrite (parse_elements_S (S fuel) s), (parse_elements_S fuel s).
    rewrite IHv by lia.
    destruct (parse_value fuel s) as [[v r1]|] eqn:E1; [| reflexivity].
    pose proof (proj1 (parse_lengths fuel) _ _ _ E1) as L1.
    destruct (skip_ws r1) as [|d r2] eqn:E2; [reflexivity|].
    pose proof (skip_ws_cons _ _ _ E2) as L2.
    destruct (Ascii.eqb d "]"); [reflexivity|].
    destruct (Ascii.eqb d ","); [| reflexivity].
    rewrite IHe by lia. reflexivity.
Qed.

(** [JSON_parse] gives the answer of the reader with any larger fuel. *)
Lemma JSON_parse_fuel_is_enough (text : string) (more : nat) :
  parse_value (2 * String.length text + 2 + more) text
  = parse_value (2 * String.length text + 2) text.
Proof.
  induction more as [|more IH]; [rewrite Nat.add_0_r; reflexivity|].
  rewrite Nat.add_succ_r, <- IH.
  apply (proj1 (parse_fuel_stable _)). lia.
Qed.

Lemma parse_chars_S (fuel : nat) (c : ascii) (r : string) :
  parse_chars (S fuel) (String c r)
  = (if Ascii.eqb c DQUOTE then Some ("", r)
     else if Ascii.eqb c BACKSLASH then
       match r with
       | "" => None
       | String e r1 =>
           let simple (x : string) :=
             match parse_chars fuel r1 with
             | Some (t, rest) => Some (x +:+ t, rest)
             | None => None
             end in
           if Ascii.eqb e DQUOTE then simple (String DQUOTE "")
           else if Ascii.eqb e BACKSLASH then simple (String BACKSLASH "")
           else if Ascii.eqb e "/" then simple "/"
           else if Ascii.eqb e "b" then simple (String "008" "")
           else if Ascii.eqb e "f" then simple (String "012" "")
           else if Ascii.eqb e "n" then simple (String "010" "")
           else if Ascii.eqb e "r" then simple (String "013" "")
           else if Ascii.eqb e "t" then simple (String "009" "")
           else if Ascii.eqb e "u" then
             match parse_hex4 r1 with
             | None => None
             | Some (hi, r2) =>
                 let single :=
                   match parse_chars fuel r2 with
                   | Some (t, rest) => Some (utf8_encode hi +:+ t, rest)
                   | None => None
                   end in
                 if ((55296 <=? hi) && (hi <? 56320))%N then
                   match r2 with
                   | String b1 (String b2 r3) =>
                       if Ascii.eqb b1 BACKSLASH && Ascii.eqb b2 "u" then
                         match parse_hex4 r3 with
                         | Some (lo, r4) =>
                             if ((56320 <=? lo) && (lo <? 57344))%N then
                               match parse_chars fuel r4 with
                               | Some (t, rest) =>
                                   Some (utf8_encode
                                           (65536 + (hi - 55296) * 1024 + (lo - 56320))%N
                                         +:+ t, rest)
                               | None => None
                               end
                             else single
                         | None => single
                         end
                       else single
                   | _ => single
                   end
                 else single
             end
           else None
       end
     else if (N_of_ascii c <? 32)%N then None
     else
       match parse_chars fuel r with
       | Some (t, rest) => Some (String c t, rest)
       | None => None
       end).
Proof. reflexivity. Qed.

Lemma parse_chars_fuel_stable (fuel : nat) :
  forall s, (String.length s < fuel)%nat -> parse_chars (S fuel) s = parse_chars fuel s.
Proof.
  induction fuel as [|fuel IH]; intros s H; [lia|].
  destruct s as [|c r]; [reflexivity|]. cbn [String.length] in H.
  rewrite (parse_chars_S (S fuel)), (parse_chars_S fuel).
  destruct (Ascii.eqb c DQUOTE); [reflexivity|].
  destruct (Ascii.eqb c BACKSLASH).
  - destruct r as [|e r1]; [reflexivity|]. cbn [String.length] in H. cbv zeta.
    rewrite (IH r1) by lia.
    repeat match goal with
           | |- (if ?b then _ else _) = _ => destruct b; [reflexivity|]
           end.
    destruct (Ascii.eqb e "u"); [| reflexivity].
    destruct (parse_hex4 r1) as [[hi r2]|] eqn:E2; [| reflexivity].
    pose proof (parse_hex4_length _ _ _ E2) as L2.
    rewrite (IH r2) by lia.
    destruct ((55296 <=? hi)%N && (hi <? 56320)%N); [| reflexivity].
    destruct r2 as [|b1 [|b2 r3]]; try reflexivity.
    destruct (Ascii.eqb b1 BACKSLASH && Ascii.eqb b2 "u"); [| reflexivity].
    destruct (parse_hex4 r3) as [[lo r4]|] eqn:E4; [| reflexivity].
    pose proof (parse_hex4_length _ _ _ E4) as L4. cbn [String.length] in L2.
    rewrite (IH r4) by lia. reflexivity.
  - destruct (N_of_ascii c <? 32)%N; [reflexivity|].
    rewrite (IH r) by lia. reflexivity.
Qed.

Lemma slice_succ_length (w : nat) (s : string) :
  s <> "" -> (S (String.length (slice (S w) s)) <= String.length s)%nat.
Proof.
  destruct s as [|c r]; [contradiction|]. intros _. cbn [slice String.length].
  pose proof (slice_length w r). lia.
Qed.

Lemma trimStart_go_fuel_stable (fuel : nat) :
  forall s, (String.length s <= fuel)%nat -> trimStart_go (S fuel) s = trimStart_go fuel s.
Proof.
  induction fuel as [|fuel IH]; intros s H.
  - destruct s; [reflexivity | cbn [String.length] in H; lia].
  - change (trimStart_go (S (S fuel)) s) with
      (match ws_width (bytes_of s) with
       | O => s
       | S w => trimStart_go (S fuel) (slice (S w) s)
       end).
    change (trimStart_go (S fuel) s) with
      (match ws_width (bytes_of s) with
       | O => s
       | S w => trimStart_go fuel (slice (S w) s)
       end).
    destruct (ws_width (bytes_of s)) as [|w] eqn:E; [reflexivity|].
    apply IH.
    assert (s <> "") by (intros ->; discriminate).
    pose proof (slice_succ_length w s ltac:(assumption)). lia.
Qed.

Lemma trimEnd_go_fuel_stable (fuel : nat) :
  forall r, (String.length r <= fuel)%nat -> trimEnd_go (S fuel) r = trimEnd_go fuel r.
Proof.
  induction fuel as [|fuel IH]; intros r H.
  - destruct r; [reflexivity | cbn [String.length] in H; lia].
  - change (trimEnd_go (S (S fuel)) r) with
      (match ws_width_rev (bytes_of r) with
       | O => r
       | S w => trimEnd_go (S fuel) (slice (S w) r)
       end).
    change (trimEnd_go (S fuel) r) with
      (match ws_width_rev (bytes_of r) with
       | O => r
       | S w => trimEnd_go fuel (slice (S w) r)
       end).
    destruct (ws_width_rev (bytes_of r)) as [|w] eqn:E; [reflexivity|].
    apply IH.
    assert (r <> "") by (intros ->; discriminate).
    pose proof (slice_succ_length w r ltac:(assumption)). lia.
Qed.

(** ** Traces only grow, and only the transport sends requests *)

Lemma fetch_count_app (a b : list Event) :
  fetch_count (a ++ b) = (fetch_count a + fetch_count b)%nat.
Proof.
  induction a as [|e a IH]; simpl; [reflexivity|].
  destruct e; simpl; rewrite IH; reflexivity.
Qed.

Lemma steps_app (a b : list Event) : steps (a ++ b) = steps a ++ steps b.
Proof.
  induction a as [|e a IH]; simpl; [reflexivity|].
  destruct e; simpl; rewrite IH; reflexivity.
Qed.

Lemma typing_texts_app (a b : list Event) :
  typing_texts (a ++ b) = typing_texts a ++ typing_texts b.
Proof.
  induction a as [|e a IH]; simpl; [reflexivity|].
  destruct e; simpl; rewrite IH; reflexivity.
Qed.

Lemma ui_only_ret g {A} (a : A) : ui_only g (ret a).
Proof. intros w. exists []. simpl. rewrite app_nil_r. auto. Qed.

Lemma ui_only_throw g {A} (t : Thrown) : ui_only g (@throw A t).
Proof. intros w. exists []. simpl. rewrite app_nil_r. auto. Qed.

Lemma ui_only_bind g {A B} (m : M A) (k : A -> M B) :
  ui_only g m -> (forall a, ui_only g (k a)) -> ui_only g (bind m k).
Proof.
  intros Hm Hk w. unfold bind.
  destruct (Hm w) as (e1 & T1 & F1 & C1 & G1).
  destruct (m w) as [[a|t] w1]; simpl in *.
  - destruct (Hk a w1) as (e2 & T2 & F2 & C2 & G2).
    exists (e1 ++ e2). rewrite T2, T1, F2, F1, fetch_count_app, C1, C2, app_assoc.
    repeat split; try reflexivity.
    intros Hg. rewrite (G1 Hg), (G2 Hg). reflexivity.
  - exists e1. auto.
Qed.

Lemma ui_only_try_catch g {A} (m : M A) (h : Thrown -> M A) :
  ui_only g m -> (forall t, ui_only g (h t)) -> ui_only g (try_catch m h).
Proof.
  intros Hm Hh w. unfold try_catch.
  destruct (Hm w) as (e1 & T1 & F1 & C1 & G1).
  destruct (m w) as [[a|t] w1]; simpl in *.
  - exists e1. auto.
  - destruct (Hh t w1) as (e2 & T2 & F2 & C2 & G2).
    exists (e1 ++ e2). rewrite T2, T1, F2, F1, fetch_count_app, C1, C2, app_assoc.
    repeat split; try reflexivity.
    intros Hg. rewrite (G1 Hg), (G2 Hg). reflexivity.
Qed.

Lemma ui_only_emit (ev : Event) :
  fetch_count [ev] = 0%nat -> ui_only true (emit ev).
Proof.
  intros H w. exists [ev]. simpl. repeat split; auto. discriminate.
Qed.

Lemma ui_only_clock g {A} (f : nat -> A) :
  ui_only g (fun w => (Normal (f (dates w)),
                       {| trace := trace w; fetches := fetches w;
                          dates := S (dates w); randoms := randoms w |})).
Proof. intros w. exists []. simpl. rewrite app_nil_r. auto. Qed.

Lemma ui_only_random g env : ui_only g (random env).
Proof. intros w. exists []. simpl. rewrite app_nil_r. auto. Qed.

Ltac ui_step :=
  first
    [ apply ui_only_ret
    | apply ui_only_throw
    | apply ui_only_random
    | apply ui_only_clock
    | apply ui_only_emit; reflexivity
    | apply ui_only_bind; [| intros ? ]
    | apply ui_only_try_catch; [| intros ? ] ].

Lemma ui_only_guarded (messageId : option string) (b : bool) (m : M unit) :
  ui_only true m -> ui_only (given messageId) (when (given messageId && b) m).
Proof.
  intros H. destruct (given messageId); simpl; [| apply ui_only_ret].
  destruct b; simpl; [exact H | apply ui_only_ret].
Qed.

Lemma ui_only_guarded1 (messageId : option string) (m : M unit) :
  ui_only true m -> ui_only (given messageId) (when (given messageId) m).
Proof.
  intros H. destruct (given messageId); simpl; [exact H | apply ui_only_ret].
Qed.

Lemma forLines_ui (messageId : option string) (lines : list string) (full : string) :
  ui_only (given messageId) (forLines messageId lines full).
Proof.
  revert full. induction lines as [|line rest IH]; intros full; cbn [forLines].
  - apply ui_only_ret.
  - destruct (String.eqb (trim line) ""); [apply IH|].
    destruct (startsWith line "data: "); [| apply IH].
    destruct (String.eqb (slice 6 line) "[DONE]"); [apply ui_only_ret|].
    destruct (line_effect (slice 6 line)) as [|text]; [apply IH|].
    apply ui_only_bind; [| intros _; apply IH].
    apply ui_only_guarded1. unfold updateMessageWithTyping. ui_step.
Qed.

Lemma readLoop_ui (messageId : option string) (reader : Reader) (buffer full : string) :
  ui_only (given messageId) (readLoop messageId reader buffer full).
Proof.
  revert buffer full. induction reader as [|value next IH|e]; intros buffer full; cbn [readLoop].
  - apply ui_only_ret.
  - destruct (pop (split LF (buffer +:+ value))) as [lines last].
    apply ui_only_bind; [apply forLines_ui | intros full'; apply IH].
  - apply ui_only_ret.
Qed.

Lemma handleStreamResponse_ui (response_body : option Reader) (messageId : option string) :
  ui_only (given messageId) (handleStreamResponse response_body messageId).
Proof.
  unfold handleStreamResponse. destruct response_body as [reader|]; [| apply ui_only_throw].
  apply ui_only_bind.
  { apply ui_only_guarded1. unfold removeStreamingEffect, updateMessage. repeat ui_step. }
  intros _. apply ui_only_bind; [apply readLoop_ui|].
  intros [full failure]. apply ui_only_bind.
  { apply ui_only_guarded. unfold finishTyping. ui_step. }
  intros _. destruct failure; ui_step.
Qed.

Lemma typeWords_ui env (messageId : string) (words : list string) (i : nat) (cur : string) :
  ui_only true (typeWords env messageId words i cur).
Proof.
  revert i cur. induction words as [|word rest IH]; intros i cur; cbn [typeWords].
  - apply ui_only_ret.
  - unfold updateMessageWithTyping, sleep. repeat ui_step. apply IH.
Qed.

Lemma simulateTypingEffect_ui env (messageId : string) (content : json) :
  ui_only true (simulateTypingEffect env messageId content).
Proof.
  unfold simulateTypingEffect. destruct content; try apply ui_only_throw.
  apply ui_only_bind; [apply typeWords_ui|]. intros _. unfold finishTyping. ui_step.
Qed.

Lemma reveal_ui env (messageId : option string) (content : json) :
  ui_only (given messageId) (reveal env messageId content).
Proof.
  unfold reveal. apply ui_only_guarded1.
  unfold removeStreamingEffect, updateMessage. repeat ui_step.
  apply simulateTypingEffect_ui.
Qed.

Lemma handle_json_ui env (data : json) (messageId : option string) :
  ui_only (given messageId) (handle_json env data messageId).
Proof.
  unfold handle_json.
  destruct data; try apply ui_only_throw;
    repeat match goal with
           | |- ui_only _ (if ?c then _ else _) => destruct c
           end;
    try apply ui_only_throw;
    (apply ui_only_bind; [apply reveal_ui | intros _; apply ui_only_ret]).
Qed.

Lemma handle_response_ui env (response : Response) (messageId : option string) :
  ui_only (given messageId) (handle_response env response messageId).
Proof.
  unfold handle_response.
  destruct (negb (ok response)); [apply ui_only_throw|].
  destruct (text response) as [e|responseText]; [apply ui_only_throw|].
  destruct (includes _ "text/event-stream").
  { destruct (_ || _); [apply ui_only_throw|].
    apply ui_only_bind; [apply handleStreamResponse_ui | intros ?; apply ui_only_ret]. }
  destruct (_ || _).
  - destruct (JSON_parse responseText) as [data|].
    + apply handle_json_ui.
    + apply ui_only_bind; [apply reveal_ui | intros _; apply ui_only_ret].
  - apply ui_only_bind; [apply reveal_ui | intros _; apply ui_only_ret].
Qed.

Lemma classify_error_ui g env s (error : Thrown) : ui_only g (classify_error env s error).
Proof.
  unfold classify_error. destruct error as [e|]; [| apply ui_only_throw].
  repeat match goal with
         | |- ui_only _ (if ?c then _ else _) => destruct c
         end; try apply ui_only_throw.
  unfold performNetworkDiagnostics, now_toLocaleString. repeat ui_step.
Qed.

(** ** callApi: one request per call *)

Lemma callApi_eq env s message messageId w :
  apiUrl s <> "" ->
  callApi env s message messageId w =
  after_fetch env s messageId
    (fetch env (fetches w) (build_request s message (Date_toISOString env (dates w))))
    (sent env s message w).
Proof.
  intros Hurl. unfold callApi. rewrite (string_eqb_false _ _ Hurl).
  unfold after_fetch, bind, try_catch, now_toISOString, do_fetch, sent, throw.
  cbn [dates fetches trace randoms].
  destruct (fetch env (fetches w) _); reflexivity.
Qed.

Lemma after_fetch_ui env s messageId outcome :
  ui_only (given messageId) (after_fetch env s messageId outcome).
Proof.
  unfold after_fetch. apply ui_only_try_catch.
  - destruct outcome; [apply ui_only_throw | apply handle_response_ui].
  - intros t. apply classify_error_ui.
Qed.

Lemma callApi_sends env s message messageId w :
  apiUrl s <> "" ->
  exists evs,
    trace (snd (callApi env s message messageId w))
    = trace w ++ Fetch (build_request s message (Date_toISOString env (dates w))) :: evs
    /\ fetches (snd (callApi env s message messageId w)) = S (fetches w)
    /\ fetch_count evs = 0%nat
    /\ (given messageId = false -> evs = []).
Proof.
  intros Hurl. rewrite (callApi_eq _ _ _ _ _ Hurl).
  destruct (after_fetch_ui env s messageId
              (fetch env (fetches w) (build_request s message (Date_toISOString env (dates w))))
              (sent env s message w)) as (evs & T & F & C & G).
  exists evs. rewrite T, F. cbn [sent trace fetches]. rewrite <- app_assoc.
  repeat split; auto.
Qed.

Lemma callApi_no_url env s message messageId w :
  apiUrl s = "" ->
  callApi env s message messageId w
  = (Abrupt (Exception (new_Error "请先配置API URL")), w).
Proof. intros H. unfold callApi. rewrite H. reflexivity. Qed.

(** ** The retry loop, one iteration at a time *)

Lemma retry_from_step env s fuel attempt maxRetries message loadingId lastError w :
  retry_from env s (S fuel) attempt maxRetries message loadingId lastError w =
  match callApi env s message None (announced attempt maxRetries loadingId w) with
  | (Normal a, w') => (Normal a, w')
  | (Abrupt error, w') =>
      on_failure attempt maxRetries loadingId
        (retry_from env s fuel (attempt + 1) maxRetries message loadingId error) error w'
  end.
Proof.
  cbn [retry_from]. unfold bind at 1, announced.
  destruct (given loadingId && (1 <? attempt)); reflexivity.
Qed.

Lemma announced_first maxRetries loadingId w : announced 1 maxRetries loadingId w = w.
Proof. unfold announced. rewrite andb_false_r. reflexivity. Qed.

Lemma announced_steps attempt maxRetries loadingId w :
  exists evs, trace (announced attempt maxRetries loadingId w) = trace w ++ evs
              /\ steps evs = [] /\ fetch_count evs = 0%nat
              /\ fetches (announced attempt maxRetries loadingId w) = fetches w
              /\ dates (announced attempt maxRetries loadingId w) = dates w.
Proof.
  unfold announced. destruct (given loadingId && (1 <? attempt)).
  - eexists. cbn [log trace fetches dates]. repeat split; reflexivity.
  - exists []. rewrite app_nil_r. repeat split; reflexivity.
Qed.

(** An error that is not a connection failure leaves the loop at once. *)
Lemma on_failure_other attempt maxRetries loadingId again e w :
  includes (err_message e) "Failed to fetch" = false ->
  includes (err_message e) "网络连接失败" = false ->
  on_failure attempt maxRetries loadingId again (Exception e) w
  = (Abrupt (Exception e), w).
Proof. intros H1 H2. unfold on_failure. rewrite H1, H2. reflexivity. Qed.

(** ** C6 *)

(** C6. With an empty endpoint URL, [callApi] and [callApiWithRetry] raise
    the configuration error "请先配置API URL" and leave the world as it
    was: no request is sent, whatever the message, the key and the
    authentication type are. *)
Theorem C6_empty_url_raises_before_any_request
    env s message messageId (maxRetries : Z) loadingId w :
  apiUrl s = "" ->
  1 <= maxRetries ->
  callApi env s message messageId w
  = (Abrupt (Exception (new_Error "请先配置API URL")), w)
  /\ callApiWithRetry env s message maxRetries loadingId w
     = (Abrupt (Exception (new_Error "请先配置API URL")), w)
  /\ fetch_count (trace (snd (callApi env s message messageId w))) = fetch_count (trace w)
  /\ fetches (snd (callApiWithRetry env s message maxRetries loadingId w)) = fetches w.
Proof.
  intros Hurl Hmax.
  assert (Hretry : callApiWithRetry env s message maxRetries loadingId w
                   = (Abrupt (Exception (new_Error "请先配置API URL")), w)).
  { unfold callApiWithRetry.
    destruct (Z.to_nat maxRetries) as [|fuel] eqn:E; [lia|].
    rewrite retry_from_step, announced_first, (callApi_no_url _ _ _ _ _ Hurl).
    apply on_failure_other; reflexivity. }
  rewrite Hretry, (callApi_no_url _ _ _ _ _ Hurl). auto.
Qed.

Lemma C6_witness :
  callApi (sample_env (fun _ => Rejected (new_TypeError "Failed to fetch")))
    {| apiUrl := ""; apiKey := "abc"; authType := "Bearer" |} "hello" (Some "m1") initial
  = (Abrupt (Exception (new_Error "请先配置API URL")), initial).
Proof.
  apply (C6_empty_url_raises_before_any_request
           (sample_env (fun _ => Rejected (new_TypeError "Failed to fetch")))
           {| apiUrl := ""; apiKey := "abc"; authType := "Bearer" |}
           "hello" (Some "m1") 3 None initial); [reflexivity | lia].
Defined.

(** ** C7 *)

(** C7. The headers of the request: a Bearer configuration with a key
    carries [Authorization: Bearer <key>]; an ApiKey configuration with a
    key carries [X-API-Key: <key>]; with authentication type None, or with
    an empty key, neither header is set; and in every case with an endpoint
    URL the request goes out with exactly these headers, the first thing
    [callApi] does. *)
Theorem C7_authentication_headers env (s : ApiSettings) message messageId w :
  apiUrl s <> "" ->
  (authType s = "Bearer" -> apiKey s <> "" ->
   request_headers s !! "Authorization" = Some ("Bearer " +:+ apiKey s))
  /\ (authType s = "ApiKey" -> apiKey s <> "" ->
      request_headers s !! "X-API-Key" = Some (apiKey s))
  /\ (authType s = "None" ->
      request_headers s !! "Authorization" = None
      /\ request_headers s !! "X-API-Key" = None)
  /\ (apiKey s = "" ->
      request_headers s !! "Authorization" = None
      /\ request_headers s !! "X-API-Key" = None)
  /\ exists req evs,
       trace (snd (callApi env s message messageId w)) = trace w ++ Fetch req :: evs
       /\ url req = apiUrl s
       /\ headers req = request_headers s.
Proof.
  intros Hurl. unfold request_headers. split; [| split; [| split; [| split]]].
  - intros Ha Hk. rewrite Ha, (string_eqb_false _ _ Hk). cbn.
    apply lookup_insert_eq.
  - intros Ha Hk. rewrite Ha, (string_eqb_false _ _ Hk). cbn.
    apply lookup_insert_eq.
  - intros Ha. rewrite Ha. split; reflexivity.
  - intros Hk. rewrite Hk, String.eqb_refl, andb_false_r. split; reflexivity.
  - destruct (callApi_sends env s message messageId w Hurl) as (evs & T & _).
    eexists _, evs. split; [exact T|]. split; reflexivity.
Qed.

Lemma C7_witness :
  request_headers sample_settings !! "Authorization" = Some "Bearer abc".
Proof.
  apply (C7_authentication_headers
           (sample_env (fun _ => Rejected (new_TypeError "Failed to fetch")))
           sample_settings "hello" None initial); [discriminate | reflexivity | discriminate].
Defined.

(** ** C10 *)

(** C10. [update] leaves the stored settings as they are when the payload
    has no data view, when its first data view has no objects, and when the
    objects have no [apiSettings] entry; the settings change only when the
    first data view carries such an entry, and then every field is taken
    from it, a missing (or empty) [apiUrl] or [apiKey] becoming the empty
    string and a missing (or empty) [authType] becoming "Bearer". *)
Theorem C10_update_frame (this_apiSettings : ApiSettings) (options : VisualUpdateOptions) :
  (dataViews options = [] -> update this_apiSettings options = this_apiSettings)
  /\ (forall dataView rest,
        dataViews options = dataView :: rest ->
        objects (metadata dataView) = None ->
        update this_apiSettings options = this_apiSettings)
  /\ (forall dataView rest objs,
        dataViews options = dataView :: rest ->
        objects (metadata dataView) = Some objs ->
        objs !! "apiSettings" = None ->
        update this_apiSettings options = this_apiSettings)
  /\ (update this_apiSettings options <> this_apiSettings ->
      exists dataView rest objs o,
        dataViews options = dataView :: rest
        /\ objects (metadata dataView) = Some objs
        /\ objs !! "apiSettings" = Some o)
  /\ (forall dataView rest objs o,
        dataViews options = dataView :: rest ->
        objects (metadata dataView) = Some objs ->
        objs !! "apiSettings" = Some o ->
        let updated := update this_apiSettings options in
        (o !! "apiUrl" = None -> apiUrl updated = "")
        /\ (o !! "apiKey" = None -> apiKey updated = "")
        /\ (o !! "authType" = None -> authType updated = "Bearer")
        /\ (o !! "apiUrl" = Some "" -> apiUrl updated = "")
        /\ (o !! "apiKey" = Some "" -> apiKey updated = "")
        /\ (o !! "authType" = Some "" -> authType updated = "Bearer")
        /\ (forall v, o !! "apiUrl" = Some v -> v <> "" -> apiUrl updated = v)
        /\ (forall v, o !! "apiKey" = Some v -> v <> "" -> apiKey updated = v)
        /\ (forall v, o !! "authType" = Some v -> v <> "" -> authType updated = v)).
Proof.
  unfold update, apiSettings_object. split; [| split; [| split; [| split]]].
  - intros ->. reflexivity.
  - intros dv rest -> ->. reflexivity.
  - intros dv rest objs -> -> ->. reflexivity.
  - intros Hne. destruct (dataViews options) as [|dv rest]; [contradiction|].
    destruct (objects (metadata dv)) as [objs|] eqn:Hobjs; [| contradiction].
    destruct (objs !! "apiSettings") as [o|] eqn:Ho; [| contradiction].
    exists dv, rest, objs, o. repeat split; assumption.
  - intros dv rest objs o -> -> ->. cbn [apiUrl apiKey authType].
    repeat split.
    + intros ->. reflexivity.
    + intros ->. reflexivity.
    + intros ->. reflexivity.
    + intros ->. reflexivity.
    + intros ->. reflexivity.
    + intros ->. reflexivity.
    + intros v -> Hv. cbn. rewrite (string_eqb_false _ _ Hv). reflexivity.
    + intros v -> Hv. cbn. rewrite (string_eqb_false _ _ Hv). reflexivity.
    + intros v -> Hv. cbn. rewrite (string_eqb_false _ _ Hv). reflexivity.
Qed.

Lemma C10_witness :
  update sample_settings endpoint_only
  = {| apiUrl := "https://other.example.com"; apiKey := ""; authType := "Bearer" |}.
Proof.
  destruct (C10_update_frame sample_settings endpoint_only)
    as (_ & _ & _ & _ & Happlied).
  destruct (Happlied _ _ _ _ eq_refl eq_refl eq_refl)
    as (_ & Hkey & Hauth & _ & _ & _ & Hurl & _).
  specialize (Hkey eq_refl). specialize (Hauth eq_refl).
  specialize (Hurl "https://other.example.com" eq_refl ltac:(discriminate)).
  destruct (update sample_settings endpoint_only) as [u k t]. cbn in *. congruence.
Defined.

(** ** The retry loop *)

Lemma on_failure_retry attempt maxRetries loadingId again e w :
  retriable e = true -> attempt < maxRetries ->
  on_failure attempt maxRetries loadingId again (Exception e) w
  = again (backed_off attempt loadingId w).
Proof.
  intros Hr Hlt. unfold on_failure. fold (retriable e). rewrite Hr.
  assert ((attempt <? maxRetries) = true) as -> by (apply Z.ltb_lt; lia).
  cbn [andb]. unfold bind, when, backed_off, updateMessage, sleep, emit, ret.
  destruct (given loadingId); reflexivity.
Qed.

Lemma on_failure_last attempt maxRetries loadingId again e w :
  maxRetries <= attempt ->
  on_failure attempt maxRetries loadingId again (Exception e) w
  = (Abrupt (Exception e), w).
Proof.
  intros Hle. unfold on_failure.
  assert ((attempt <? maxRetries) = false) as -> by (apply Z.ltb_ge; lia).
  rewrite andb_false_r. reflexivity.
Qed.

Lemma on_failure_cases attempt maxRetries loadingId again error w :
  (attempt < maxRetries
   /\ on_failure attempt maxRetries loadingId again error w
      = again (backed_off attempt loadingId w))
  \/ exists t, on_failure attempt maxRetries loadingId again error w = (Abrupt t, w).
Proof.
  destruct error as [e|]; [| right; eexists; reflexivity].
  destruct (retriable e) eqn:Hr.
  - destruct (Z.lt_ge_cases attempt maxRetries) as [Hlt|Hge].
    + left. split; [exact Hlt | apply on_failure_retry; assumption].
    + right. eexists. apply on_failure_last. exact Hge.
  - right. eexists. unfold on_failure. fold (retriable e). rewrite Hr. reflexivity.
Qed.

Lemma backed_off_trace attempt loadingId w :
  exists evs,
    trace (backed_off attempt loadingId w) = trace w ++ evs
    /\ steps evs = [Wait (inject_Z (backoff_delay attempt))]
    /\ fetch_count evs = 0%nat
    /\ fetches (backed_off attempt loadingId w) = fetches w
    /\ dates (backed_off attempt loadingId w) = dates w.
Proof.
  unfold backed_off. destruct (given loadingId); cbn [log trace fetches dates].
  - eexists. rewrite <- app_assoc. repeat split; reflexivity.
  - eexists. repeat split; reflexivity.
Qed.

Lemma schedule_from_more attempt m :
  schedule_from attempt (S (S m))
  = Attempt :: Wait (inject_Z (backoff_delay attempt)) :: schedule_from (attempt + 1) (S m).
Proof. reflexivity. Qed.

(** Every run of the loop is a schedule: attempts separated by the backoff
    delays, for as many attempts as were made. *)
Lemma retry_from_schedule env s message maxRetries loadingId :
  apiUrl s <> "" ->
  forall fuel attempt lastError w,
    Z.of_nat (S fuel) = maxRetries - attempt + 1 ->
    exists m evs,
      (1 <= m <= S fuel)%nat
      /\ trace (snd (retry_from env s (S fuel) attempt maxRetries message loadingId lastError w))
         = trace w ++ evs
      /\ steps evs = schedule_from attempt m
      /\ fetch_count evs = m.
Proof.
  intros Hurl. induction fuel as [|fuel IH]; intros attempt lastError w Hinv;
    rewrite retry_from_step;
    destruct (announced_steps attempt maxRetries loadingId w) as (e0 & T0 & S0 & C0 & _);
    destruct (callApi_sends env s message None (announced attempt maxRetries loadingId w) Hurl)
      as (e1 & T1 & _ & _ & G1);
    rewrite (G1 eq_refl) in T1; clear G1;
    destruct (callApi env s message None (announced attempt maxRetries loadingId w))
      as [[v|error] w2]; cbn [snd] in T1.
  - exists 1%nat. eexists. split; [lia|]. cbn [snd]. rewrite T1, T0, <- app_assoc.
    split; [reflexivity|]. rewrite steps_app, fetch_count_app, S0, C0. split; reflexivity.
  - destruct (on_failure_cases attempt maxRetries loadingId
                (retry_from env s 0 (attempt + 1) maxRetries message loadingId error) error w2)
      as [[Hlt _]|[t Ht]]; [lia|].
    rewrite Ht. exists 1%nat. eexists. split; [lia|]. cbn [snd]. rewrite T1, T0, <- app_assoc.
    split; [reflexivity|]. rewrite steps_app, fetch_count_app, S0, C0. split; reflexivity.
  - exists 1%nat. eexists. split; [lia|]. cbn [snd]. rewrite T1, T0, <- app_assoc.
    split; [reflexivity|]. rewrite steps_app, fetch_count_app, S0, C0. split; reflexivity.
  - destruct (on_failure_cases attempt maxRetries loadingId
                (retry_from env s (S fuel) (attempt + 1) maxRetries message loadingId error)
                error w2) as [[Hlt Hc]|[t Ht]].
    + rewrite Hc.
      destruct (backed_off_trace attempt loadingId w2) as (e2 & T2 & S2 & C2 & _).
      destruct (IH (attempt + 1) error (backed_off attempt loadingId w2)) as
        (m & e3 & Hm & T3 & S3 & C3); [lia|].
      exists (S m). eexists. split; [lia|]. rewrite T3, T2, T1, T0.
      rewrite <- !app_assoc. split; [reflexivity|].
      rewrite !steps_app, !fetch_count_app, S0, C0, S2, C2, S3, C3.
      destruct m as [|m]; [lia|]. rewrite schedule_from_more. split; reflexivity.
    + rewrite Ht. exists 1%nat. eexists. split; [lia|]. cbn [snd].
      rewrite T1, T0, <- app_assoc.
      split; [reflexivity|]. rewrite steps_app, fetch_count_app, S0, C0. split; reflexivity.
Qed.

(** Where the waits and attempts sit in a schedule. *)
Lemma schedule_from_nth (m : nat) :
  forall attempt (j : nat),
    (S j < m)%nat ->
    nth_error (schedule_from attempt m) (2 * j + 1)
    = Some (Wait (inject_Z (backoff_delay (attempt + Z.of_nat j))))
    /\ nth_error (schedule_from attempt m) (2 * j + 2) = Some Attempt.
Proof.
  induction m as [|m IH]; intros attempt j Hj; [lia|].
  destruct m as [|m]; [lia|]. rewrite schedule_from_more.
  destruct j as [|j].
  - cbn [Nat.mul Nat.add nth_error]. rewrite Z.add_0_r. split; [reflexivity|].
    destruct m; reflexivity.
  - replace (2 * S j + 1)%nat with (S (S (2 * j + 1))) by lia.
    replace (2 * S j + 2)%nat with (S (S (2 * j + 2))) by lia.
    cbn [nth_error].
    replace (attempt + Z.of_nat (S j)) with (attempt + 1 + Z.of_nat j) by lia.
    apply IH. lia.
Qed.

Lemma backoff_delay_capped (attempt : Z) : 4 <= attempt -> backoff_delay attempt = 5000.
Proof.
  intros H. unfold backoff_delay. apply Z.min_r.
  replace (attempt - 1) with (3 + (attempt - 4)) by lia.
  rewrite Z.pow_add_r by lia.
  assert (0 < 2 ^ (attempt - 4)) by (apply Z.pow_pos_nonneg; lia).
  change (2 ^ 3) with 8. nia.
Qed.

(** ** C5 *)

(** C5. In every run of [callApiWithRetry], whatever the transport does,
    the requests and waits form a schedule [Attempt, Wait, Attempt, ...];
    the wait just before attempt number [k] (for [2 <= k] up to the number
    of attempts made) is [min(1000 * 2^(k-2), 5000)] milliseconds: 1000
    before attempt 2, 2000 before attempt 3, 4000 before attempt 4, and
    5000 before attempt 5 and every later one. *)
Theorem C5_backoff_delay_before_each_attempt
    env s message (maxRetries : Z) loadingId w :
  exists (m : nat) evs,
    trace (snd (callApiWithRetry env s message maxRetries loadingId w)) = trace w ++ evs
    /\ fetch_count evs = m
    /\ (m <= Z.to_nat maxRetries)%nat
    /\ (forall k : nat,
          (2 <= k <= m)%nat ->
          nth_error (steps evs) (2 * k - 3)
          = Some (Wait (inject_Z (Z.min (1000 * 2 ^ (Z.of_nat k - 2)) 5000)))
          /\ nth_error (steps evs) (2 * k - 2) = Some Attempt)
    /\ Z.min (1000 * 2 ^ (2 - 2)) 5000 = 1000
    /\ Z.min (1000 * 2 ^ (3 - 2)) 5000 = 2000
    /\ Z.min (1000 * 2 ^ (4 - 2)) 5000 = 4000
    /\ (forall k : Z, 5 <= k -> Z.min (1000 * 2 ^ (k - 2)) 5000 = 5000).
Proof.
  assert (Hcap : forall k : Z, 5 <= k -> Z.min (1000 * 2 ^ (k - 2)) 5000 = 5000).
  { intros k Hk. replace (k - 2) with (k - 1 - 1) by lia.
    apply (backoff_delay_capped (k - 1)). lia. }
  unfold callApiWithRetry.
  destruct (Z.to_nat maxRetries) as [|fuel] eqn:Hfuel.
  { exists 0%nat, []. cbn. rewrite app_nil_r. repeat split; auto; lia. }
  destruct (String.eqb (apiUrl s) "") eqn:Hurl.
  - apply String.eqb_eq in Hurl.
    rewrite retry_from_step, announced_first, (callApi_no_url _ _ _ _ _ Hurl).
    rewrite on_failure_other by reflexivity.
    exists 0%nat, []. cbn. rewrite app_nil_r. repeat split; auto; lia.
  - apply String.eqb_neq in Hurl.
    destruct (retry_from_schedule env s message maxRetries loadingId Hurl
                fuel 1 Undefined w) as (m & evs & Hm & T & St & C); [lia|].
    exists m, evs. split; [exact T|]. split; [exact C|]. split; [lia|].
    split; [| repeat split; auto].
    intros k Hk. rewrite St.
    destruct (schedule_from_nth m 1 (k - 2)) as [Hw Ha]; [lia|].
    replace (2 * k - 3)%nat with (2 * (k - 2) + 1)%nat by lia.
    replace (2 * k - 2)%nat with (2 * (k - 2) + 2)%nat by lia.
    rewrite Hw, Ha. split; [| reflexivity].
    unfold backoff_delay.
    replace (1 + Z.of_nat (k - 2) - 1) with (Z.of_nat k - 2) by lia. reflexivity.
Qed.

(** ** Connection failures *)

Lemma callApi_network_failure env s message messageId w e :
  apiUrl s <> "" ->
  fetch env (fetches w) (build_request s message (Date_toISOString env (dates w)))
  = Rejected e ->
  err_name e <> "AbortError" ->
  includes (err_message e) "Failed to fetch" = true ->
  callApi env s message messageId w
  = (Abrupt (Exception
               (new_Error (network_failure
                             (diagnostics env s (Date_toLocaleString env (S (dates w))))))),
     failed env s message w).
Proof.
  intros Hurl Hf Hname Hmsg. rewrite (callApi_eq _ _ _ _ _ Hurl), Hf.
  unfold after_fetch, try_catch, throw, classify_error.
  rewrite (string_eqb_false _ _ Hname), Hmsg. reflexivity.
Qed.

Lemma network_failure_retriable (diagnosticInfo : string) :
  retriable (new_Error (network_failure diagnosticInfo)) = true.
Proof.
  unfold retriable, network_failure. cbn [err_message new_Error].
  rewrite includes_at_start. apply orb_true_r.
Qed.

Lemma retry_from_all_fail env s message (n : Z) loadingId :
  apiUrl s <> "" ->
  (forall i req, exists e,
      fetch env i req = Rejected e
      /\ err_name e <> "AbortError"
      /\ includes (err_message e) "Failed to fetch" = true) ->
  forall fuel attempt lastError w,
    Z.of_nat (S fuel) = n - attempt + 1 ->
    exists evs w_last,
      retry_from env s (S fuel) attempt n message loadingId lastError w
      = callApi env s message None w_last
      /\ trace (snd (callApi env s message None w_last)) = trace w ++ evs
      /\ fetch_count evs = S fuel
      /\ steps evs = schedule_from attempt (S fuel)
      /\ fetches w_last = (fetches w + fuel)%nat
      /\ dates w_last = (dates w + 2 * fuel)%nat.
Proof.
  intros Hurl Hfail.
  induction fuel as [|fuel IH]; intros attempt lastError w Hinv;
    rewrite retry_from_step;
    destruct (announced_steps attempt n loadingId w) as (e0 & T0 & S0 & C0 & F0 & D0);
    set (w1 := announced attempt n loadingId w) in *;
    destruct (Hfail (fetches w1) (build_request s message (Date_toISOString env (dates w1))))
      as (e & Hf & Hname & Hmsg);
    pose proof (callApi_network_failure env s message None w1 e Hurl Hf Hname Hmsg) as Hcall;
    rewrite Hcall.
  - rewrite on_failure_last by lia.
    exists (e0 ++ [Fetch (build_request s message (Date_toISOString env (dates w1)))]), w1.
    rewrite Hcall. cbn [snd failed trace]. rewrite T0, <- app_assoc.
    rewrite steps_app, fetch_count_app, S0, C0, F0, D0.
    repeat split; try reflexivity; lia.
  - rewrite on_failure_retry by (apply network_failure_retriable || lia).
    destruct (backed_off_trace attempt loadingId (failed env s message w1))
      as (e2 & T2 & S2 & C2 & F2 & D2).
    destruct (IH (attempt + 1)
                (Exception
                   (new_Error (network_failure
                                 (diagnostics env s (Date_toLocaleString env (S (dates w1)))))))
                (backed_off attempt loadingId (failed env s message w1)))
      as (e3 & w_last & Heq & T3 & C3 & S3 & F3 & D3); [lia|].
    exists (e0 ++ [Fetch (build_request s message (Date_toISOString env (dates w1)))]
            ++ e2 ++ e3), w_last.
    rewrite Heq, T3, T2. cbn [failed trace]. rewrite T0, <- !app_assoc.
    rewrite !steps_app, !fetch_count_app, S0, C0, S2, C2, S3, C3, F3, D3, F2, D2.
    cbn [failed fetches dates]. rewrite F0, D0, schedule_from_more.
    repeat split; try reflexivity; lia.
Qed.

(** ** Connection failures that the code recognises *)

(** Let the transport reject every request with an error other than an
    abort whose message contains "Failed to fetch", the wording of the
    Chromium hosts.  Then for every budget [n >= 1] and a configured
    endpoint, [callApiWithRetry] sends exactly [n] requests, separated by
    the backoff waits, and ends by raising the error of its [n]-th call of
    [callApi]: the connection-failure error whose report was made at that
    call. *)
Theorem recognised_connection_failures_use_every_attempt
    env s message (n : Z) loadingId w :
  1 <= n ->
  apiUrl s <> "" ->
  (forall i req, exists e,
      fetch env i req = Rejected e
      /\ err_name e <> "AbortError"
      /\ includes (err_message e) "Failed to fetch" = true) ->
  exists evs w_last,
    trace (snd (callApiWithRetry env s message n loadingId w)) = trace w ++ evs
    /\ fetch_count evs = Z.to_nat n
    /\ fetches (snd (callApiWithRetry env s message n loadingId w))
       = (fetches w + Z.to_nat n)%nat
    /\ steps evs = schedule_from 1 (Z.to_nat n)
    /\ fetches w_last = (fetches w + (Z.to_nat n - 1))%nat
    /\ callApiWithRetry env s message n loadingId w = callApi env s message None w_last
    /\ fst (callApiWithRetry env s message n loadingId w)
       = Abrupt (Exception
                   (new_Error
                      (network_failure
                         (diagnostics env s
                            (Date_toLocaleString env (dates w + 2 * Z.to_nat n - 1)))))).
Proof.
  intros Hn Hurl Hfail. unfold callApiWithRetry.
  destruct (Z.to_nat n) as [|fuel] eqn:Hfuel; [lia|].
  destruct (retry_from_all_fail env s message n loadingId Hurl Hfail fuel 1 Undefined w)
    as (evs & w_last & Heq & T & C & St & F & D); [lia|].
  exists evs, w_last. rewrite Heq.
  destruct (Hfail (fetches w_last)
              (build_request s message (Date_toISOString env (dates w_last))))
    as (e & Hf & Hname & Hmsg).
  pose proof (callApi_network_failure env s message None w_last e Hurl Hf Hname Hmsg) as Hcall.
  split; [exact T|]. split; [exact C|]. rewrite Hcall. cbn [fst snd failed fetches].
  rewrite F, D. split; [lia|]. split; [exact St|]. split; [lia|]. split; [reflexivity|].
  replace (dates w + 2 * S fuel - 1)%nat with (S (dates w + 2 * fuel)) by lia.
  reflexivity.
Qed.

Lemma recognised_connection_failures_use_every_attempt_witness :
  fetches (snd (callApiWithRetry
                  (sample_env (fun _ => Rejected (new_TypeError "Failed to fetch")))
                  sample_settings "hello" 3 (Some "loading") initial)) = 3%nat.
Proof.
  destruct (recognised_connection_failures_use_every_attempt
              (sample_env (fun _ => Rejected (new_TypeError "Failed to fetch")))
              sample_settings "hello" 3 (Some "loading") initial)
    as (evs & w_last & _ & _ & F & _).
  - lia.
  - discriminate.
  - intros i req. exists (new_TypeError "Failed to fetch").
    split; [reflexivity|]. split; [discriminate | reflexivity].
  - exact F.
Defined.

(** ** C3 *)

(** C3. The code at the failing input.  Every request is rejected with
    the error Firefox raises when the network fails, a [TypeError] that
    reads "NetworkError when attempting to fetch resource.".  Neither
    [callApi] nor the retry loop finds "Failed to fetch" in it: with a
    budget of three, [callApiWithRetry] sends one request, which is its
    only event (no wait, nothing shown in the loading message), and
    raises the error of the transport as it came, where three requests
    and the connection-failure error with its report were due. *)
Theorem C3_network_failure_worded_otherwise_is_tried_once :
  let env := sample_env (fun _ => Rejected firefox_failure) in
  let run := callApiWithRetry env sample_settings "hello" 3 (Some "loading") initial in
  err_name firefox_failure = "TypeError"
  /\ fetch_count (trace (snd run)) = 1%nat
  /\ steps (trace (snd run)) = [Attempt]
  /\ length (trace (snd run)) = 1%nat
  /\ fst run = Abrupt (Exception firefox_failure)
  /\ fst run
     <> Abrupt (Exception
                  (new_Error
                     (network_failure (diagnostics env sample_settings "2024/1/1 00:00:01")))).
Proof.
  cbv zeta. repeat split; try (vm_compute; reflexivity).
  vm_compute. discriminate.
Qed.

(** ** Errors that are not connection failures *)

(** A request that runs into the deadline is tried once. *)
Lemma timeout_is_not_retried env s message (maxRetries : Z) loadingId w e :
  1 <= maxRetries ->
  apiUrl s <> "" ->
  fetch env (fetches w) (build_request s message (Date_toISOString env (dates w)))
  = Rejected e ->
  err_name e = "AbortError" ->
  callApiWithRetry env s message maxRetries loadingId w
  = (Abrupt (Exception (new_Error "请求超时，请检查网络连接或API响应速度")),
     sent env s message w).
Proof.
  intros Hmax Hurl Hf Hname. unfold callApiWithRetry.
  destruct (Z.to_nat maxRetries) as [|fuel] eqn:E; [lia|].
  rewrite retry_from_step, announced_first, (callApi_eq _ _ _ _ _ Hurl), Hf.
  unfold after_fetch, try_catch, throw, classify_error. rewrite Hname.
  cbn [String.eqb]. rewrite !Ascii.eqb_refl.
  apply on_failure_other; reflexivity.
Qed.

(** A response outside the 2xx range is tried once, provided the text of
    its error contains none of the markers the two [catch] blocks look for. *)
Lemma http_error_is_not_retried env s message (maxRetries : Z) loadingId w response :
  1 <= maxRetries ->
  apiUrl s <> "" ->
  fetch env (fetches w) (build_request s message (Date_toISOString env (dates w)))
  = Resolved response ->
  ok response = false ->
  includes (http_failure response) "Failed to fetch" = false ->
  includes (http_failure response) "CORS" = false ->
  includes (http_failure response) "TypeError" = false ->
  includes (http_failure response) "网络连接失败" = false ->
  callApiWithRetry env s message maxRetries loadingId w
  = (Abrupt (Exception (new_Error (http_failure response))), sent env s message w).
Proof.
  intros Hmax Hurl Hf Hok H1 H2 H3 H4. unfold callApiWithRetry.
  destruct (Z.to_nat maxRetries) as [|fuel] eqn:E; [lia|].
  rewrite retry_from_step, announced_first, (callApi_eq _ _ _ _ _ Hurl), Hf.
  unfold after_fetch, try_catch, handle_response. rewrite Hok. cbn [negb].
  fold (http_failure response). unfold throw, classify_error.
  cbn [err_name err_message new_Error].
  change (String.eqb "Error" "AbortError") with false. cbn iota.
  rewrite H1, H2, H3. apply on_failure_other; assumption.
Qed.

(** ** C4 *)

(** C4. The code at the failing input.  Every request is answered by an
    HTTP 502 whose body reads "Failed to fetch upstream".  With a budget of
    three, [callApiWithRetry] does not stop after the first attempt: it
    sends three requests, waits 1000 ms and 2000 ms between them, and ends
    with the connection-failure error instead of the HTTP error. *)
Theorem C4_http_error_with_marker_is_retried :
  let run := callApiWithRetry (sample_env (fun _ => Resolved bad_gateway))
               sample_settings "hello" 3 None initial in
  ok bad_gateway = false
  /\ fetch_count (trace (snd run)) = 3%nat
  /\ steps (trace (snd run))
     = [Attempt; Wait (inject_Z 1000); Attempt; Wait (inject_Z 2000); Attempt]
  /\ fst run
     = Abrupt (Exception
                 (new_Error
                    (network_failure
                       (diagnostics (sample_env (fun _ => Resolved bad_gateway))
                          sample_settings "2024/1/1 00:00:05"))))
  /\ fst run <> Abrupt (Exception (new_Error (http_failure bad_gateway))).
Proof.
  cbv zeta. repeat split; try (vm_compute; reflexivity).
  vm_compute. discriminate.
Qed.

(** ** C2 *)

(** Within one chunk the lines after a [DONE] line are skipped. *)
Lemma forLines_done messageId (before after : list string) (full : string) w :
  forLines messageId (before ++ "data: [DONE]" :: after) full w
  = forLines messageId (before ++ ["data: [DONE]"]) full w.
Proof.
  revert full w. induction before as [|line rest IH]; intros full w.
  - reflexivity.
  - cbn [app forLines].
    destruct (String.eqb (trim line) ""); [apply IH|].
    destruct (startsWith line "data: "); [| apply IH].
    destruct (String.eqb (slice 6 line) "[DONE]"); [reflexivity|].
    destruct (line_effect (slice 6 line)) as [|text]; [apply IH|].
    unfold bind. destruct (when _ _ w) as [[[]|t] w1]; [apply IH | reflexivity].
Qed.

(** C2. The code at the failing input.  The first chunk holds the event
    [{"content":"a"}] and the [DONE] line; a second chunk holds the event
    [{"content":"b"}].  The decoder goes on after [DONE]: it reports "ab"
    as a further fragment and returns "ab", not the text "a" assembled
    before the [DONE] line.  The same happens inside [callApi] when the
    body of an event-stream response is read back in these two chunks. *)
Theorem C2_lines_after_done_in_later_chunks_are_decoded :
  let chunk1 := data_line (object1 "content" "a") +:+ data_line "[DONE]" in
  let chunk2 := data_line (object1 "content" "b") in
  let run := handleStreamResponse (Some (reader_of [chunk1; chunk2])) (Some "m1") initial in
  let env := read_in_two (String.length chunk1)
               (sample_env (fun _ => Resolved (event_stream_response (chunk1 +:+ chunk2)))) in
  fst run = Normal "ab"
  /\ typing_texts (trace (snd run)) = ["a"; "ab"]
  /\ trace (snd run)
     = [RemoveStreamingEffect "m1"; UpdateMessage "m1" "";
        UpdateMessageWithTyping "m1" "a"; UpdateMessageWithTyping "m1" "ab";
        FinishTyping "m1" "ab"]
  /\ fst (handleStreamResponse (Some (reader_of [chunk1])) (Some "m1") initial) = Normal "a"
  /\ body_chunks env (chunk1 +:+ chunk2) = [chunk1; chunk2]
  /\ fst (callApi env sample_settings "hello" (Some "m1") initial) = Normal (JStr "ab")
  /\ typing_texts (trace (snd (callApi env sample_settings "hello" (Some "m1") initial)))
     = ["a"; "ab"].
Proof. cbv zeta. repeat split; vm_compute; reflexivity. Qed.

(** ** The stream decoder reports cumulative text *)

Lemma append_cons (c : ascii) (s t : string) : String c s +:+ t = String c (s +:+ t).
Proof. reflexivity. Qed.

Lemma append_nil_r (s : string) : s +:+ "" = s.
Proof.
  induction s as [|c s IH]; [reflexivity | rewrite append_cons, IH; reflexivity].
Qed.

Lemma append_assoc (a b c : string) : (a +:+ b) +:+ c = a +:+ (b +:+ c).
Proof.
  induction a as [|x a IH]; [reflexivity | rewrite !append_cons, IH; reflexivity].
Qed.

Lemma running_texts_app (acc : string) (f1 f2 : list string) :
  running_texts acc (f1 ++ f2)
  = running_texts acc f1 ++ running_texts (acc +:+ concat_all f1) f2.
Proof.
  revert acc. induction f1 as [|f f1 IH]; intros acc; cbn [app running_texts concat_all].
  - rewrite append_nil_r. reflexivity.
  - rewrite IH, append_assoc. reflexivity.
Qed.

Lemma concat_all_app (f1 f2 : list string) :
  concat_all (f1 ++ f2) = concat_all f1 +:+ concat_all f2.
Proof.
  induction f1 as [|f f1 IH]; cbn [app concat_all]; [reflexivity|].
  rewrite IH, append_assoc. reflexivity.
Qed.

Lemma report_step {A} messageId fullResponse (k : M A) w :
  (when (given messageId) (updateMessageWithTyping (id_of messageId) fullResponse) ;; k) w
  = k (reported messageId fullResponse w).
Proof. unfold reported, bind, when. destruct (given messageId); reflexivity. Qed.

Lemma reported_trace messageId fullResponse w :
  exists evs,
    trace (reported messageId fullResponse w) = trace w ++ evs
    /\ typing_texts evs = if given messageId then [fullResponse] else [].
Proof.
  unfold reported. destruct (given messageId).
  - eexists. split; reflexivity.
  - exists []. rewrite app_nil_r. split; reflexivity.
Qed.

Lemma forLines_cumulative messageId (lines : list string) :
  forall full w,
  exists evs fragments w',
    forLines messageId lines full w = (Normal (full +:+ concat_all fragments), w')
    /\ trace w' = trace w ++ evs
    /\ typing_texts evs
       = if given messageId then running_texts full fragments else [].
Proof.
  assert (Hstop : forall full w,
             exists evs fragments w',
               (Normal full, w) = (Normal (full +:+ concat_all fragments), w')
               /\ trace w' = trace w ++ evs
               /\ typing_texts evs
                  = if given messageId then running_texts full fragments else []).
  { intros full w. exists [], [], w. cbn [concat_all running_texts typing_texts].
    rewrite append_nil_r, app_nil_r.
    destruct (given messageId); auto. }
  assert (Hmore : forall (rest : list string) f full w,
             (forall full w,
                 exists evs fragments w',
                   forLines messageId rest full w
                   = (Normal (full +:+ concat_all fragments), w')
                   /\ trace w' = trace w ++ evs
                   /\ typing_texts evs
                      = if given messageId then running_texts full fragments else []) ->
             exists evs fragments w',
               forLines messageId rest (full +:+ f) (reported messageId (full +:+ f) w)
               = (Normal (full +:+ concat_all fragments), w')
               /\ trace w' = trace w ++ evs
               /\ typing_texts evs
                  = if given messageId then running_texts full fragments else []).
  { intros rest f full w IH.
    destruct (reported_trace messageId (full +:+ f) w) as (e1 & T1 & X1).
    destruct (IH (full +:+ f) (reported messageId (full +:+ f) w))
      as (e2 & fr & w' & E & T2 & X2).
    exists (e1 ++ e2), (f :: fr), w'. rewrite E, T2, T1, typing_texts_app, X1, X2.
    cbn [concat_all running_texts]. rewrite append_assoc, app_assoc.
    destruct (given messageId); auto. }
  induction lines as [|line rest IH]; intros full w; cbn [forLines].
  - apply Hstop.
  - destruct (String.eqb (trim line) ""); [apply IH|].
    destruct (startsWith line "data: "); [| apply IH].
    destruct (String.eqb (slice 6 line) "[DONE]"); [apply Hstop|].
    destruct (line_effect (slice 6 line)) as [|text]; [apply IH|].
    rewrite report_step. apply Hmore, IH.
Qed.

Lemma readLoop_cumulative messageId (reader : Reader) :
  forall buffer full w,
  exists evs fragments failure w',
    readLoop messageId reader buffer full w
    = (Normal (full +:+ concat_all fragments, failure), w')
    /\ trace w' = trace w ++ evs
    /\ typing_texts evs
       = if given messageId then running_texts full fragments else [].
Proof.
  induction reader as [|value next IH|e]; intros buffer full w; cbn [readLoop].
  - exists [], [], None, w. unfold ret. cbn [concat_all running_texts typing_texts].
    rewrite append_nil_r, app_nil_r.
    destruct (given messageId); auto.
  - destruct (pop (split LF (buffer +:+ value))) as [lines last].
    destruct (forLines_cumulative messageId lines full w) as (e1 & f1 & w1 & E1 & T1 & X1).
    unfold bind. rewrite E1.
    destruct (IH (default "" last) (full +:+ concat_all f1) w1)
      as (e2 & f2 & failure & w2 & E2 & T2 & X2).
    exists (e1 ++ e2), (f1 ++ f2), failure, w2.
    rewrite E2, T2, T1, typing_texts_app, X1, X2, concat_all_app, running_texts_app.
    rewrite append_assoc, app_assoc. destruct (given messageId); auto.
  - exists [], [], (Some e), w. unfold ret. cbn [concat_all running_texts typing_texts].
    rewrite append_nil_r, app_nil_r.
    destruct (given messageId); auto.
Qed.

Lemma handleStreamResponse_run (reader : Reader) (messageId : option string) (w : World) :
  exists evs fragments failure w',
    handleStreamResponse (Some reader) messageId w
    = (match failure with
       | Some e => Abrupt (Exception e)
       | None => Normal (if String.eqb (concat_all fragments) "" then "收到空响应"
                         else concat_all fragments)
       end, w')
    /\ trace w' = trace w ++ evs
    /\ typing_texts evs = (if given messageId then running_texts "" fragments else []).
Proof.
  unfold handleStreamResponse.
  set (w0 := snd (when (given messageId)
                    (removeStreamingEffect (id_of messageId) ;;
                     updateMessage (id_of messageId) "") w)).
  assert (H0 : when (given messageId)
                 (removeStreamingEffect (id_of messageId) ;;
                  updateMessage (id_of messageId) "") w = (Normal tt, w0)
               /\ exists e0, trace w0 = trace w ++ e0 /\ typing_texts e0 = []).
  { subst w0. destruct (given messageId); cbn.
    - split; [reflexivity|]. eexists. rewrite <- app_assoc. split; reflexivity.
    - split; [reflexivity|]. exists []. rewrite app_nil_r. split; reflexivity. }
  destruct H0 as (E0 & e0 & T0 & X0).
  destruct (readLoop_cumulative messageId reader "" "" w0)
    as (e1 & fragments & failure & w1 & E1 & T1 & X1).
  change ("" +:+ concat_all fragments) with (concat_all fragments) in E1.
  unfold bind at 1. rewrite E0. unfold bind at 1. rewrite E1.
  set (w2 := snd (when (given messageId && negb (String.eqb (concat_all fragments) ""))
                    (finishTyping (id_of messageId) (concat_all fragments)) w1)).
  assert (H2 : when (given messageId && negb (String.eqb (concat_all fragments) ""))
                 (finishTyping (id_of messageId) (concat_all fragments)) w1
               = (Normal tt, w2)
               /\ exists e2, trace w2 = trace w1 ++ e2 /\ typing_texts e2 = []).
  { subst w2. destruct (given messageId && negb (String.eqb (concat_all fragments) "")); cbn.
    - split; [reflexivity|]. eexists. split; reflexivity.
    - split; [reflexivity|]. exists []. rewrite app_nil_r. split; reflexivity. }
  destruct H2 as (E2 & e2 & T2 & X2).
  unfold bind. rewrite E2.
  exists (e0 ++ e1 ++ e2), fragments, failure, w2.
  rewrite T2, T1, T0, <- !app_assoc, !typing_texts_app, X0, X1, X2, app_nil_r.
  destruct failure; repeat split; reflexivity.
Qed.

(** ** C8 *)

(** C8. Whatever chunks arrive, the texts reported through
    [updateMessageWithTyping] are the successive values of the full text:
    there are fragments such that the k-th report is the concatenation of
    the first k of them, and the text returned is the concatenation of
    all (the notice "收到空响应" when that is empty).  Nothing is reported
    when no message identifier is given.  On the three chunks of the
    specification the reports are "Hel" then "Hello" and the decoder
    returns "Hello". *)
Theorem C8_fragments_are_cumulative :
  (forall (reader : Reader) (messageId : option string) (w : World),
      exists evs fragments,
        trace (snd (handleStreamResponse (Some reader) messageId w)) = trace w ++ evs
        /\ typing_texts evs
           = (if given messageId then running_texts "" fragments else [])
        /\ (forall full,
              fst (handleStreamResponse (Some reader) messageId w) = Normal full ->
              full = if String.eqb (concat_all fragments) "" then "收到空响应"
                     else concat_all fragments))
  /\ (let chunks := [data_line (object1 "content" "Hel") +:+ NL;
                     data_line (object1 "content" "lo") +:+ NL;
                     data_line "[DONE]" +:+ NL] in
      let run := handleStreamResponse (Some (reader_of chunks)) (Some "m1") initial in
      typing_texts (trace (snd run)) = ["Hel"; "Hello"]
      /\ fst run = Normal "Hello"
      /\ trace (snd run)
         = [RemoveStreamingEffect "m1"; UpdateMessage "m1" "";
            UpdateMessageWithTyping "m1" "Hel"; UpdateMessageWithTyping "m1" "Hello";
            FinishTyping "m1" "Hello"]).
Proof.
  split; [| cbv zeta; repeat split; vm_compute; reflexivity].
  intros reader messageId w.
  destruct (handleStreamResponse_run reader messageId w)
    as (evs & fragments & failure & w' & E & T & X).
  exists evs, fragments. rewrite E. cbn [fst snd].
  split; [exact T|]. split; [exact X|].
  intros full Hfull. destruct failure; [discriminate|].
  injection Hfull as <-. reflexivity.
Qed.

(** ** Simulated typing *)

(** Rounding to a double *)

Lemma floor_log2_low (p q : Z) :
  0 < p -> 0 < q -> 0 <= floor_log2 p q -> q * 2 ^ floor_log2 p q <= p.
Proof.
  intros Hp Hq. unfold floor_log2.
  pose proof (Z.log2_spec p Hp) as [Ha1 Ha2].
  pose proof (Z.log2_spec q Hq) as [Hb1 Hb2].
  pose proof (Z.log2_nonneg p) as Ha0. pose proof (Z.log2_nonneg q) as Hb0.
  set (a := Z.log2 p) in *. set (b := Z.log2 q) in *.
  destruct (0 <=? a - b) eqn:Hest.
  - apply Z.leb_le in Hest. destruct (p <? q * 2 ^ (a - b)) eqn:Ht.
    + intros Hres.
      assert (q * 2 ^ (a - b - 1) < 2 ^ a); [| lia].
      replace a with (b + 1 + (a - b - 1)) at 2 by lia.
      rewrite Z.pow_add_r by lia.
      assert (0 < 2 ^ (a - b - 1)) by (apply Z.pow_pos_nonneg; lia).
      replace (Z.succ b) with (b + 1) in Hb2 by lia. nia.
    + intros _. apply Z.ltb_ge in Ht. exact Ht.
  - apply Z.leb_gt in Hest. destruct (p * 2 ^ (- (a - b)) <? q); intros Hres; lia.
Qed.

Lemma round_half_even_le (n d j : Z) :
  0 < d -> n <= j * d -> round_half_even n d <= j.
Proof.
  intros Hd H. unfold round_half_even.
  pose proof (Z.div_mod n d ltac:(lia)) as E.
  pose proof (Z.mod_pos_bound n d Hd) as B.
  assert (Hk : n / d <= j) by (apply Z.div_le_upper_bound; lia).
  destruct (2 * (n mod d) <? d) eqn:H1; [exact Hk|].
  apply Z.ltb_ge in H1.
  assert (n / d < j); [| destruct (d <? 2 * (n mod d)); [lia|]; destruct (Z.even (n / d)); lia].
  destruct (Z.eq_dec (n / d) j) as [Heq|]; [| lia]. rewrite Heq in E. nia.
Qed.

Lemma round_half_even_ge (n d j : Z) :
  0 < d -> j * d <= n -> j <= round_half_even n d.
Proof.
  intros Hd H. unfold round_half_even.
  assert (Hk : j <= n / d) by (apply Z.div_le_lower_bound; lia).
  destruct (2 * (n mod d) <? d); [exact Hk|].
  destruct (d <? 2 * (n mod d)); [lia|]. destruct (Z.even (n / d)); lia.
Qed.

(** Rounding a positive value below [2^53] never crosses an integer. *)
Lemma nearest_double_integer (p q K : Z) :
  0 < p -> 0 < q -> p < 2 ^ 53 * q ->
  (p <= K * q -> (double_value (nearest_double p q) <= inject_Z K)%Q)
  /\ (K * q <= p -> (inject_Z K <= double_value (nearest_double p q))%Q).
Proof.
  intros Hp Hq Hsmall.
  assert (Hlog : floor_log2 p q <= 52).
  { destruct (Z_le_gt_dec (floor_log2 p q) 52) as [H|H]; [exact H|].
    pose proof (floor_log2_low p q Hp Hq ltac:(lia)) as L.
    assert (2 ^ 53 <= 2 ^ floor_log2 p q) by (apply Z.pow_le_mono_r; lia). nia. }
  unfold nearest_double, double_value. cbn [fst snd].
  set (E := Z.max (floor_log2 p q - 52) (-1074)).
  assert (HE : E <= 0) by lia.
  destruct (0 <=? E) eqn:H0.
  - apply Z.leb_le in H0. assert (E = 0) as -> by lia.
    change (2 ^ 0) with 1. rewrite !Z.mul_1_r. split; intros H.
    + rewrite <- Zle_Qle. apply round_half_even_le; lia.
    + rewrite <- Zle_Qle. apply round_half_even_ge; lia.
  - apply Z.leb_gt in H0.
    assert (Hpow : 0 < 2 ^ (- E)) by (apply Z.pow_pos_nonneg; lia).
    split; intros H; unfold Qle; cbn [Qnum Qden inject_Z]; rewrite Z2Pos.id by exact Hpow;
      rewrite Z.mul_1_r.
    + apply round_half_even_le; [lia | nia].
    + apply round_half_even_ge; [lia | nia].
Qed.

Lemma round_double_between (x : Q) (lo hi : Z) :
  0 <= lo -> hi < 2 ^ 53 ->
  (inject_Z lo <= x)%Q -> (x <= inject_Z hi)%Q ->
  (inject_Z lo <= round_double x)%Q /\ (round_double x <= inject_Z hi)%Q.
Proof.
  intros Hlo Hhi Hx1 Hx2. destruct x as [n d]. unfold round_double. cbn [Qnum Qden].
  unfold Qle in Hx1, Hx2. cbn [Qnum Qden inject_Z] in Hx1, Hx2.
  destruct n as [|p|p].
  - split; unfold Qle; cbn; lia.
  - assert (Hsmall : Z.pos p < 2 ^ 53 * Z.pos d).
    { change (2 ^ 53) with 9007199254740992 in *. nia. }
    destruct (nearest_double_integer (Zpos p) (Zpos d) lo) as [_ L]; try lia.
    destruct (nearest_double_integer (Zpos p) (Zpos d) hi) as [U _]; try lia.
    split; [apply L | apply U]; lia.
  - lia.
Qed.

Lemma delay_in_range (r : Q) : (0 <= r /\ r < 1)%Q -> in_range (typing_delay r).
Proof.
  intros [H0 H1]. unfold in_range, typing_delay.
  destruct (round_double_between (r * 100) 0 100) as [A B]; [lia | reflexivity | | |].
  - change (inject_Z 0) with 0%Q. lra.
  - change (inject_Z 100) with 100%Q. lra.
  - change (inject_Z 0) with 0%Q in A. change (inject_Z 100) with 100%Q in B.
    destruct (round_double_between (round_double (r * 100) + 50) 50 150) as [C D];
      [lia | reflexivity | | |].
    + change (inject_Z 50) with 50%Q. lra.
    + change (inject_Z 150) with 150%Q. lra.
    + split; [exact C | exact D].
Qed.

Lemma typeWords_run env (messageId : string) (words : list string) :
  (forall i, (0 <= Math_random env i /\ Math_random env i < 1)%Q) ->
  forall i currentText w,
  exists delays w',
    typeWords env messageId words i currentText w = (Normal tt, w')
    /\ trace w' = trace w ++ playback messageId (revealed i currentText words) delays
    /\ length delays = length words
    /\ Forall in_range delays.
Proof.
  intros Hrnd. induction words as [|word rest IH]; intros i cur w; cbn [typeWords revealed].
  - exists [], w. cbn. rewrite app_nil_r. auto.
  - destruct (IH (S i) (cur +:+ (if (0 <? i)%nat then " " else "") +:+ word)
                (log (SetTimeout (typing_delay (Math_random env (randoms w))))
                   {| trace := trace w ++ [UpdateMessageWithTyping messageId
                                             (cur +:+ (if (0 <? i)%nat then " " else "")
                                              +:+ word)];
                      fetches := fetches w; dates := dates w; randoms := S (randoms w) |}))
      as (delays & w' & E & T & L & R).
    exists (typing_delay (Math_random env (randoms w)) :: delays), w'.
    split; [exact E|]. rewrite T. cbn [log trace playback length].
    rewrite <- !app_assoc. split; [reflexivity|]. split; [lia|].
    constructor; [apply delay_in_range, Hrnd | exact R].
Qed.

Lemma join_snoc (sep : string) (pre : list string) (word : string) :
  pre <> [] -> join sep (pre ++ [word]) = join sep pre +:+ sep +:+ word.
Proof.
  induction pre as [|a pre IH]; intros Hne; [contradiction|].
  destruct pre as [|b pre]; [reflexivity|].
  change (join sep ((a :: b :: pre) ++ [word]))
    with (a +:+ sep +:+ join sep ((b :: pre) ++ [word])).
  rewrite IH by discriminate.
  change (join sep (a :: b :: pre)) with (a +:+ sep +:+ join sep (b :: pre)).
  rewrite !append_assoc. reflexivity.
Qed.

Lemma revealed_joined (words : list string) :
  forall pre,
    pre <> [] ->
    revealed (length pre) (join " " pre) words
    = map (fun k => join " " (pre ++ firstn k words)) (seq 1 (length words)).
Proof.
  induction words as [|word rest IH]; intros pre Hne; [reflexivity|].
  cbn [revealed length seq map firstn].
  assert ((0 <? length pre)%nat = true) as ->.
  { destruct pre; [contradiction | reflexivity]. }
  rewrite <- (join_snoc " " pre word Hne).
  f_equal.
  replace (S (length pre)) with (length (pre ++ [word])) by (rewrite length_app; cbn; lia).
  rewrite IH by (destruct pre; discriminate).
  rewrite <- (seq_shift (length rest) 1), map_map. apply map_ext. intros k.
  cbn [firstn]. rewrite <- app_assoc. reflexivity.
Qed.

Lemma revealed_prefixes (words : list string) :
  revealed 0 "" words = map (fun k => join " " (firstn k words)) (seq 1 (length words)).
Proof.
  destruct words as [|word rest]; [reflexivity|].
  cbn [revealed length seq map firstn Nat.ltb Nat.leb].
  change ("" +:+ "" +:+ word) with (join " " [word]). f_equal.
  assert (Hne : [word] <> []) by discriminate.
  pose proof (revealed_joined rest [word] Hne) as H. cbn [length] in H. rewrite H.
  rewrite <- (seq_shift (length rest) 1), map_map. reflexivity.
Qed.

Lemma split_not_nil (sep : ascii) (s : string) : split sep s <> [].
Proof.
  destruct s as [|c s]; cbn [split]; [discriminate|].
  destruct (Ascii.eqb c sep); [discriminate|].
  destruct (split sep s); discriminate.
Qed.

Lemma join_split (sep : ascii) (s : string) : join (String sep "") (split sep s) = s.
Proof.
  induction s as [|c s IH]; [reflexivity|]. cbn [split].
  destruct (Ascii.eqb c sep) eqn:E.
  - apply Ascii.eqb_eq in E. subst c.
    pose proof (split_not_nil sep s) as Hne.
    destruct (split sep s) as [|w ws]; [contradiction|].
    change (join (String sep "") ("" :: w :: ws))
      with (String sep (join (String sep "") (w :: ws))).
    rewrite IH. reflexivity.
  - destruct (split sep s) as [|w ws] eqn:Es; [exfalso; exact (split_not_nil sep s Es)|].
    destruct ws as [|x ws].
    + cbn [join] in *. rewrite IH. reflexivity.
    + change (join (String sep "") (String c w :: x :: ws))
        with (String c (join (String sep "") (w :: x :: ws))).
      rewrite IH. reflexivity.
Qed.

Lemma typing_texts_playback (messageId : string) (texts : list string) :
  forall delays,
    length delays = length texts ->
    typing_texts (playback messageId texts delays) = texts.
Proof.
  induction texts as [|t texts IH]; intros [|d delays] Hlen; try discriminate; [reflexivity|].
  cbn [playback typing_texts]. rewrite IH by (cbn in Hlen; lia). reflexivity.
Qed.

Lemma simulateTypingEffect_run env (messageId text : string) (w : World) :
  (forall i, (0 <= Math_random env i /\ Math_random env i < 1)%Q) ->
  exists delays w',
    simulateTypingEffect env messageId (JStr text) w = (Normal tt, w')
    /\ trace w'
       = trace w
         ++ playback messageId
              (map (fun k => join " " (firstn k (split " " text)))
                 (seq 1 (length (split " " text)))) delays
         ++ [FinishTyping messageId text]
    /\ length delays = length (split " " text)
    /\ Forall in_range delays.
Proof.
  intros Hrnd. unfold simulateTypingEffect.
  destruct (typeWords_run env messageId (split " " text) Hrnd 0%nat "" w)
    as (delays & w1 & E & T & L & R).
  exists delays. eexists. unfold bind. rewrite E. unfold finishTyping, emit.
  split; [reflexivity|]. cbn [log trace]. rewrite T, revealed_prefixes, <- app_assoc.
  auto.
Qed.

(** ** C9 *)

(** C9, as amended.  With a random generator that answers in [0, 1):
    simulated playback of a text cuts it at every space character (and
    only there), shows the first word, the first two words joined by a
    space, and so on up to the whole text, waits a delay in the 50-150 ms
    range after each, and ends with [finishTyping] on the text.  For
    "a b c" the updates are "a", "a b", "a b c", three in all.  The range
    includes both ends: the delay is computed in doubles, and the largest
    random number below 1 gives exactly 150. *)
Theorem C9_simulated_playback_reveals_space_separated_words env :
  (forall i, (0 <= Math_random env i /\ Math_random env i < 1)%Q) ->
  (forall (messageId text : string) (w : World),
      let words := split " " text in
      let run := simulateTypingEffect env messageId (JStr text) w in
      exists delays,
        fst run = Normal tt
        /\ trace (snd run)
           = trace w
             ++ playback messageId
                  (map (fun k => join " " (firstn k words)) (seq 1 (length words))) delays
             ++ [FinishTyping messageId text]
        /\ length delays = length words
        /\ Forall in_range delays
        /\ typing_texts (trace (snd run))
           = typing_texts (trace w)
             ++ map (fun k => join " " (firstn k words)) (seq 1 (length words))
        /\ join " " words = text)
  /\ (forall (messageId : string) (w : World),
        exists d1 d2 d3,
          trace (snd (simulateTypingEffect env messageId (JStr "a b c") w))
          = trace w
            ++ [UpdateMessageWithTyping messageId "a"; SetTimeout d1;
                UpdateMessageWithTyping messageId "a b"; SetTimeout d2;
                UpdateMessageWithTyping messageId "a b c"; SetTimeout d3;
                FinishTyping messageId "a b c"]
          /\ in_range d1 /\ in_range d2 /\ in_range d3)
  /\ (typing_delay 0 == 50)%Q
  /\ (typing_delay (1 - (1 # 9007199254740992)) == 150)%Q.
Proof.
  intros Hrnd. split; [| split; [| split; vm_compute; reflexivity]].
  - intros messageId text w words run. subst words run.
    destruct (simulateTypingEffect_run env messageId text w Hrnd)
      as (delays & w' & E & T & L & R).
    exists delays. rewrite E. cbn [fst snd]. rewrite T.
    split; [reflexivity|]. split; [reflexivity|]. split; [exact L|]. split; [exact R|].
    split; [| apply join_split].
    rewrite !typing_texts_app, typing_texts_playback by (rewrite length_map, length_seq; exact L).
    cbn [typing_texts]. rewrite app_nil_r. reflexivity.
  - intros messageId w.
    destruct (simulateTypingEffect_run env messageId "a b c" w Hrnd)
      as (delays & w' & E & T & L & R).
    rewrite E. cbn [snd]. rewrite T.
    destruct delays as [|d1 [|d2 [|d3 [|d4 delays]]]]; try discriminate.
    exists d1, d2, d3. split; [reflexivity|].
    inversion R as [|? ? R1 R']; subst. inversion R' as [|? ? R2 R'']; subst.
    inversion R'' as [|? ? R3 ?]; subst. auto.
Qed.

Lemma C9_witness :
  typing_texts
    (trace (snd (simulateTypingEffect
                   (sample_env (fun _ => Rejected (new_TypeError "Failed to fetch")))
                   "m1" (JStr "a b c") initial)))
  = ["a"; "a b"; "a b c"].
Proof.
  assert (Hrnd : forall i,
             (0 <= Math_random
                     (sample_env (fun _ => Rejected (new_TypeError "Failed to fetch"))) i
              /\ Math_random
                   (sample_env (fun _ => Rejected (new_TypeError "Failed to fetch"))) i < 1)%Q).
  { intros i. split; [unfold Qle | unfold Qlt]; simpl; lia. }
  destruct (C9_simulated_playback_reveals_space_separated_words
              (sample_env (fun _ => Rejected (new_TypeError "Failed to fetch"))) Hrnd)
    as [Hall _].
  destruct (Hall "m1" "a b c" initial) as (delays & _ & _ & _ & _ & X & _).
  exact X.
Defined.

(** C9, the claim as stated fails: a tab is white space, yet the text
    "a<TAB>b" is shown in a single update, where cutting at white space
    gives the two tokens "a" and "b" and so two updates. *)
Lemma C9_counterexample_tab_does_not_separate_words :
  let run := simulateTypingEffect
               (sample_env (fun _ => Rejected (new_TypeError "Failed to fetch")))
               "m1" (JStr ("a" +:+ TAB +:+ "b")) initial in
  typing_texts (trace (snd run)) = ["a" +:+ TAB +:+ "b"]
  /\ whitespace_tokens ("a" +:+ TAB +:+ "b") = ["a"; "b"]
  /\ spec_revealed ("a" +:+ TAB +:+ "b") = ["a"; "a b"]
  /\ typing_texts (trace (snd run)) <> spec_revealed ("a" +:+ TAB +:+ "b").
Proof.
  cbv zeta. repeat split; try (vm_compute; reflexivity).
  vm_compute. discriminate.
Qed.

(** ** C1 *)



Lemma first_present_step (data : json) (field : string) (rest : list string) :
  first_present data (field :: rest)
  = if truthy (prop data field) then prop data field else first_present data rest.
Proof.
  cbn [first_present]. destruct (prop data field) as [v|]; [| reflexivity].
  destruct (truthy (Some v)); reflexivity.
Qed.




(** The error of the code is the one described by [raised_error]. *)
Lemma error_message_raised (data : json) :
  match error_message data with
  | Some errorMessage => new_Error errorMessage
  | None => new_TypeError cannot_convert
  end
  = raised_error data.
Proof.
  unfold error_message, raised_error. rewrite !first_present_step. cbn [first_present].
  unfold js_or.
  destruct (truthy (prop data "error")) eqn:Ea.
  - rewrite Ea. destruct (prop data "error"); [reflexivity | discriminate Ea].
  - destruct (truthy (prop data "message")) eqn:Eb; [| reflexivity].
    destruct (prop data "message"); [reflexivity | discriminate Eb].
Qed.




(** ** The examples of the specification, evaluated *)

Example object1_is_the_text :
  object1 "content" "Hel"
  = "{" +:+ String DQUOTE "content" +:+ String DQUOTE ":" +:+ String DQUOTE "Hel"
    +:+ String DQUOTE "}".
Proof. reflexivity. Qed.

Example parse_content_event :
  JSON_parse (object1 "content" "Hel") = Some (JObj [("content", JStr "Hel")]).
Proof. vm_compute. reflexivity. Qed.

Example parse_rejects_plain_text : JSON_parse "plain text" = None.
Proof. vm_compute. reflexivity. Qed.

Example parse_rejects_done : JSON_parse "[DONE]" = None.
Proof. vm_compute. reflexivity. Qed.

(** A payload that is not JSON is appended as it stands. *)
Example plain_text_payload_is_literal :
  fst (handleStreamResponse (Some (reader_of [data_line "plain text" +:+ NL])) None initial)
  = Normal "plain text".
Proof. vm_compute. reflexivity. Qed.

(** An event stream without content yields the notice, not the empty text. *)
Example empty_stream_yields_notice :
  fst (handleStreamResponse (Some (reader_of [data_line "[DONE]"])) None initial)
  = Normal "收到空响应".
Proof. vm_compute. reflexivity. Qed.

(** [{"error":"bad input"}] is classified as the error "bad input". *)
Example error_body_is_an_api_error :
  fst (callApi (sample_env (fun _ => Resolved (json_response 200 "OK"
                                                 (object1 "error" "bad input"))))
         sample_settings "hello" None initial)
  = Abrupt (Exception (new_Error "bad input")).
Proof. vm_compute. reflexivity. Qed.

(** An object with a reply but neither a success signal nor an error field
    is raised as an error: the branch that would return the reply is never
    reached. *)
Example reply_without_status_is_raised :
  fst (callApi (sample_env (fun _ => Resolved (json_response 200 "OK"
                                                 (object1 "response" "hi"))))
         sample_settings "hello" None initial)
  = Abrupt (Exception (new_Error "API返回错误状态: undefined")).
Proof. vm_compute. reflexivity. Qed.

(** The third branch of the JSON handling is dead code. *)
Lemma handle_json_never_serializes env (data : json) (messageId : option string) :
  handle_json env data messageId
  = match data with
    | JNull =>
        throw (Exception
                 (new_TypeError "Cannot read properties of null (reading 'statusCode')"))
    | _ =>
        if signals_success data then
          reveal env messageId (value_or (reply_fields data) (JStr "收到回复，但内容为空")) ;;
          ret (value_or (reply_fields data) (JStr "收到回复，但内容为空"))
        else throw (Exception (raised_error data))
    end.
Proof.
  unfold handle_json, signals_success. rewrite error_message_raised.
  destruct data; try reflexivity;
    match goal with
    | |- context [is_number ?v 200 || ?b || ?c] =>
        destruct (is_number v 200) eqn:E1; cbn [orb negb]; try reflexivity;
        destruct (b || c); cbn [orb negb]; try reflexivity;
        rewrite orb_true_r; reflexivity
    end.
Qed.

Example bearer_header_example :
  request_headers {| apiUrl := "https://api.example.com/chat"; apiKey := "abc";
                     authType := "Bearer" |} !! "Authorization"
  = Some "Bearer abc".
Proof. reflexivity. Qed.

Example none_sets_no_authorization :
  request_headers {| apiUrl := "https://api.example.com/chat"; apiKey := "abc";
                     authType := "None" |} !! "Authorization"
  = None.
Proof. reflexivity. Qed.

Example backoff_values :
  map backoff_delay [1; 2; 3; 4; 5; 6] = [1000; 2000; 4000; 5000; 5000; 5000].
Proof. reflexivity. Qed.

(** ** Numbers are doubles, and conversions to text can throw *)

(** A number is rounded to the nearest double when it is read. *)
Example numbers_are_rounded_when_read :
  JSON_parse "200.00000000000000001" = Some (JNum 2 2)
  /\ JSON_parse "200" = Some (JNum 2 2)
  /\ JSON_parse "0.5" = Some (JNum 5 (-1))
  /\ JSON_parse "0.1"
     = Some (JNum 1000000000000000055511151231257827021181583404541015625 (-55))
  /\ JSON_parse "9007199254740993" = Some (JNum 9007199254740992 0)
  /\ JSON_parse "-0" = Some (JNum 0 0)
  /\ JSON_parse "1e-400" = Some (JNum 0 0)
  /\ JSON_parse "5e-324" = JSON_parse "4e-324"
  /\ JSON_parse "1.7976931348623157e308" = JSON_parse "17976931348623157e292"
  /\ JSON_parse "1e400" = Some (JInfinity false)
  /\ JSON_parse "-1e400" = Some (JInfinity true).
Proof. repeat split; vm_compute; reflexivity. Qed.

(** The text of a number: plain digits up to 21 of them, an exponent from
    1e21 and below 1e-6, and no more digits than tell the double from its
    neighbours. *)
Example numbers_as_text :
  map (fun text => ToString_val (JSON_parse text))
    ["200"; "-12.50"; "1e21"; "123456789012345678901"; "1e-7"; "0.000001";
     "0.00000123"; "1.5e300"; "0.30000000000000004"; "0.3000000000000000001";
     "9007199254740993"; "5e-324"; "1e400"; "-1e400"; "-0"]
  = map Some
      ["200"; "-12.5"; "1e+21"; "123456789012345680000"; "1e-7"; "0.000001";
       "0.00000123"; "1.5e+300"; "0.30000000000000004"; "0.3";
       "9007199254740992"; "5e-324"; "Infinity"; "-Infinity"; "0"].
Proof. vm_compute. reflexivity. Qed.

(** The text of an array joins the texts of its elements, [null] giving
    the empty text; an object is "[object Object]" unless it has a member
    [toString] of its own, which is not a function in data read from
    JSON: then the conversion throws, also from inside an array. *)
Example values_as_text :
  map (fun text => JSON_parse text ≫= ToString)
    ["[1,[2,null],true,{}]"; "[]"; "{}"; "null";
     "{" +:+ quote "toString" +:+ ":1}"; "[[{" +:+ quote "toString" +:+ ":null}]]"]
  = [Some "1,2,,true,[object Object]"; Some ""; Some "[object Object]"; Some "null";
     None; None].
Proof. vm_compute. reflexivity. Qed.

(** A status written with more digits than a double holds is the status
    200: the body is a success, whatever its [error] field says. *)
Example status_is_compared_as_a_double :
  fst (callApi
         (sample_env (fun _ => Resolved
            (json_response 200 "OK"
               ("{" +:+ quote "statusCode" +:+ ":200.00000000000000001,"
                +:+ quote "error" +:+ ":" +:+ quote "x" +:+ "}"))))
         sample_settings "hello" None initial)
  = Normal (JStr "收到回复，但内容为空").
Proof. vm_compute. reflexivity. Qed.

(** The status in the message of an error is written as a double is. *)
Example status_in_the_error_message :
  fst (callApi
         (sample_env (fun _ => Resolved
            (json_response 200 "OK" ("{" +:+ quote "status" +:+ ":1e21}"))))
         sample_settings "hello" None initial)
  = Abrupt (Exception (new_Error "API返回错误状态: 1e+21")).
Proof. vm_compute. reflexivity. Qed.

(** An [error] field that cannot be converted to text: building the error
    throws a [TypeError] instead. *)
Example error_field_that_is_no_text :
  fst (callApi
         (sample_env (fun _ => Resolved
            (json_response 200 "OK"
               ("{" +:+ quote "error" +:+ ":{" +:+ quote "toString" +:+ ":1}}"))))
         sample_settings "hello" None initial)
  = Abrupt (Exception (new_TypeError "Cannot convert object to primitive value")).
Proof. vm_compute. reflexivity. Qed.

(** In an event stream a number is appended as its text, and an event whose
    content cannot be converted is appended as the line reads. *)
Example stream_content_that_is_no_string :
  fst (handleStreamResponse
         (Some (reader_of [data_line ("{" +:+ quote "content" +:+ ":1e21}");
                           data_line ("{" +:+ quote "content" +:+ ":{"
                                      +:+ quote "toString" +:+ ":1}}")]))
         None initial)
  = Normal ("1e+21" +:+ "{" +:+ quote "content" +:+ ":{" +:+ quote "toString" +:+ ":1}}").
Proof. vm_compute. reflexivity. Qed.

(** * Further properties of the code *)

(** ** Lines and chunks *)

Lemma pop_cons_nonempty (x y : string) (l : list string) :
  pop (x :: y :: l) = (x :: fst (pop (y :: l)), snd (pop (y :: l))).
Proof.
  change (pop (x :: y :: l)) with (let '(init, last) := pop (y :: l) in (x :: init, last)).
  destruct (pop (y :: l)) as [init last]. reflexivity.
Qed.

Lemma pop_app (l1 l2 : list string) :
  l2 <> [] -> pop (l1 ++ l2) = (l1 ++ fst (pop l2), snd (pop l2)).
Proof.
  intros Hne. induction l1 as [|x l1 IH].
  - cbn [app]. destruct (pop l2); reflexivity.
  - destruct (l1 ++ l2) as [|y l] eqn:E.
    + destruct l1; [cbn in E; contradiction | discriminate].
    + cbn [app]. rewrite E, pop_cons_nonempty, IH. reflexivity.
Qed.

Lemma pop_split_some (sep : ascii) (s : string) :
  exists last, snd (pop (split sep s)) = Some last.
Proof.
  pose proof (split_not_nil sep s) as Hne.
  induction (split sep s) as [|x l IH]; [contradiction|].
  destruct l as [|y l]; [exists x; reflexivity|].
  rewrite pop_cons_nonempty. cbn [snd]. apply IH. discriminate.
Qed.

(** Splitting a text received in two parts: the lines completed by the
    first part, then the split of the unfinished line followed by the
    second part. *)
Lemma split_app (sep : ascii) (x y : string) :
  split sep (x +:+ y)
  = fst (pop (split sep x)) ++ split sep (default "" (snd (pop (split sep x))) +:+ y).
Proof.
  induction x as [|c x IH]; [reflexivity|].
  rewrite append_cons. cbn [split].
  destruct (Ascii.eqb c sep) eqn:Ec.
  - pose proof (split_not_nil sep x) as Hne.
    destruct (split sep x) as [|w ws] eqn:Ex; [contradiction|].
    rewrite pop_cons_nonempty. cbn [fst snd app]. rewrite IH. reflexivity.
  - pose proof (split_not_nil sep x) as Hne.
    destruct (split sep x) as [|w ws] eqn:Ex; [contradiction|].
    rewrite IH. destruct ws as [|w2 ws].
    + cbn [pop fst snd app].
      change (default "" (Some (String c w))) with (String c w).
      change (default "" (Some w)) with w.
      rewrite append_cons. cbn [split]. rewrite Ec. reflexivity.
    + rewrite !pop_cons_nonempty. cbn [fst snd app]. reflexivity.
Qed.

Lemma split_no_sep (sep : ascii) (s : string) :
  has_char sep s = false -> split sep s = [s].
Proof.
  induction s as [|c s IH]; [reflexivity|]. cbn [has_char split]. intros H.
  apply orb_false_iff in H as [Hc Hs]. rewrite Hc, (IH Hs). reflexivity.
Qed.

Lemma has_char_app (sep : ascii) (a b : string) :
  has_char sep (a +:+ b) = has_char sep a || has_char sep b.
Proof.
  induction a as [|c a IH]; [reflexivity|].
  rewrite append_cons. cbn [has_char]. rewrite IH, orb_assoc. reflexivity.
Qed.

(** The unfinished line holds no separator. *)
Lemma pop_split_last_no_sep (sep : ascii) (s : string) :
  has_char sep (default "" (snd (pop (split sep s)))) = false.
Proof.
  induction s as [|c s IH]; [reflexivity|]. cbn [split].
  pose proof (split_not_nil sep s) as Hne.
  destruct (Ascii.eqb c sep) eqn:Ec.
  - destruct (split sep s) as [|w ws] eqn:Ex; [contradiction|].
    rewrite pop_cons_nonempty. exact IH.
  - destruct (split sep s) as [|w ws] eqn:Ex; [contradiction|].
    destruct ws as [|w2 ws].
    + cbn [pop snd] in *. change (default "" (Some (String c w))) with (String c w).
      change (default "" (Some w)) with w in IH.
      cbn [has_char]. rewrite Ec, IH. reflexivity.
    + rewrite pop_cons_nonempty in *. exact IH.
Qed.

Lemma bind_assoc {A B C} (m : M A) (f : A -> M B) (g : B -> M C) (w : World) :
  bind (bind m f) g w = bind m (fun a => bind (f a) g) w.
Proof. unfold bind. destruct (m w) as [[a|t] w1]; reflexivity. Qed.

Lemma bind_ext {A B} (m : M A) (f g : A -> M B) (w : World) :
  (forall a w', f a w' = g a w') -> bind m f w = bind m g w.
Proof. intros H. unfold bind. destruct (m w) as [[a|t] w1]; [apply H | reflexivity]. Qed.

Lemma bind_ret_l {A B} (a : A) (f : A -> M B) (w : World) : bind (ret a) f w = f a w.
Proof. reflexivity. Qed.

(** The only line at which the line loop stops. *)
Lemma done_line (line : string) :
  startsWith line "data: " = true ->
  String.eqb (slice 6 line) "[DONE]" = true ->
  line = "data: [DONE]".
Proof.
  unfold startsWith. intros H1 H2. apply String.eqb_eq in H2.
  do 6 (destruct line as [|? line]; [discriminate H1|];
        cbn [String.prefix] in H1;
        match type of H1 with
        | context [ascii_dec ?a ?b] => destruct (ascii_dec a b) as [<-|]; [| discriminate H1]
        end).
  cbn [slice] in H2. subst line. reflexivity.
Qed.

(** Without a [DONE] line among them, lines are decoded one list after
    the other. *)
Lemma forLines_app messageId (l1 l2 : list string) :
  ~ In "data: [DONE]" l1 ->
  forall full w,
    forLines messageId (l1 ++ l2) full w
    = bind (forLines messageId l1 full) (forLines messageId l2) w.
Proof.
  induction l1 as [|line rest IH]; intros Hno full w; [reflexivity|].
  assert (Hrest : ~ In "data: [DONE]" rest) by (intros Hin; apply Hno; right; exact Hin).
  cbn [app forLines].
  destruct (String.eqb (trim line) ""); [apply IH, Hrest|].
  destruct (startsWith line "data: ") eqn:Hs; [| apply IH, Hrest].
  destruct (String.eqb (slice 6 line) "[DONE]") eqn:Hd.
  { exfalso. apply Hno. left. apply done_line; assumption. }
  destruct (line_effect (slice 6 line)) as [|text]; [apply IH, Hrest|].
  rewrite bind_assoc, !report_step. apply IH, Hrest.
Qed.

Lemma bind_forLines_app {B} messageId (l1 l2 : list string) (k : string -> M B) :
  ~ In "data: [DONE]" l1 ->
  forall full w,
    bind (forLines messageId (l1 ++ l2) full) k w
    = bind (forLines messageId l1 full) (fun full' => bind (forLines messageId l2 full') k) w.
Proof.
  intros Hno full w. unfold bind at 1. rewrite (forLines_app _ _ _ Hno).
  unfold bind. destruct (forLines messageId l1 full w) as [[a|t] w1]; reflexivity.
Qed.

Lemma complete_lines_app (x y : string) :
  complete_lines (x +:+ y)
  = complete_lines x ++ complete_lines (default "" (snd (pop (split LF x))) +:+ y).
Proof.
  unfold complete_lines. rewrite split_app, pop_app by apply split_not_nil. reflexivity.
Qed.

(** Reading a [DONE]-free stream chunk by chunk decodes the complete lines
    of the whole text, in order. *)
Lemma readLoop_whole messageId (chunks : list string) :
  forall buffer full w,
    has_char LF buffer = false ->
    ~ In "data: [DONE]" (complete_lines (buffer +:+ concat_all chunks)) ->
    readLoop messageId (reader_of chunks) buffer full w
    = bind (forLines messageId (complete_lines (buffer +:+ concat_all chunks)) full)
        (fun full' => ret (full', None)) w.
Proof.
  induction chunks as [|c rest IH]; intros buffer full w Hbuf Hno.
  - cbn [reader_of readLoop concat_all]. rewrite append_nil_r.
    unfold complete_lines. rewrite (split_no_sep _ _ Hbuf). reflexivity.
  - cbn [reader_of readLoop concat_all] in *.
    rewrite <- append_assoc in *. rewrite complete_lines_app in *.
    unfold complete_lines at 1. unfold complete_lines at 1 in Hno.
    destruct (pop (split LF (buffer +:+ c))) as [lines last] eqn:Ep.
    cbn [fst snd] in *.
    rewrite bind_forLines_app by (intros Hin; apply Hno, in_or_app; left; exact Hin).
    apply bind_ext. intros full' w'.
    apply IH.
    + pose proof (pop_split_last_no_sep LF (buffer +:+ c)) as H. rewrite Ep in H. exact H.
    + intros Hin. apply Hno, in_or_app. right. exact Hin.
Qed.

(** X1. When no complete line of the stream is [data: DONE] in brackets,
    the decoder gives the same result and makes the same reports however
    the text is cut into chunks: reading the chunks one by one is reading
    the whole text at once. *)
Theorem stream_result_does_not_depend_on_chunking
    (chunks : list string) (messageId : option string) (w : World) :
  ~ In "data: [DONE]" (complete_lines (concat_all chunks)) ->
  handleStreamResponse (Some (reader_of chunks)) messageId w
  = handleStreamResponse (Some (reader_of [concat_all chunks])) messageId w.
Proof.
  intros Hno. unfold handleStreamResponse.
  apply bind_ext. intros _ w1.
  unfold bind at 1 3.
  rewrite (readLoop_whole messageId chunks "" "" w1 eq_refl Hno).
  rewrite (readLoop_whole messageId [concat_all chunks] "" "" w1 eq_refl)
    by (cbn [concat_all]; rewrite append_nil_r; exact Hno).
  cbn [concat_all]. rewrite append_nil_r. reflexivity.
Qed.

Lemma stream_result_does_not_depend_on_chunking_witness :
  handleStreamResponse
    (Some (reader_of ["data: {" +:+ quote "content" +:+ ":" +:+ String DQUOTE "Hel";
                      "lo" +:+ String DQUOTE "}" +:+ NL +:+ "da";
                      "ta: plain" +:+ NL]))
    (Some "m1") initial
  = handleStreamResponse
      (Some (reader_of [data_line (object1 "content" "Hello") +:+ data_line "plain"]))
      (Some "m1") initial.
Proof.
  apply (stream_result_does_not_depend_on_chunking
           ["data: {" +:+ quote "content" +:+ ":" +:+ String DQUOTE "Hel";
            "lo" +:+ String DQUOTE "}" +:+ NL +:+ "da";
            "ta: plain" +:+ NL]
           (Some "m1") initial).
  vm_compute. intros [H|[H|[]]]; discriminate H.
Defined.

(** X2. A last chunk without a line feed is never decoded: the stream
    gives the same result, and the same reports, without it.  An event
    that is not terminated by a line feed before the stream closes is
    lost. *)
Theorem unterminated_last_chunk_is_dropped
    (chunks : list string) (tail : string) (messageId : option string) (w : World) :
  has_char LF tail = false ->
  handleStreamResponse (Some (reader_of (chunks ++ [tail]))) messageId w
  = handleStreamResponse (Some (reader_of chunks)) messageId w.
Proof.
  intros Htail. unfold handleStreamResponse.
  apply bind_ext. intros _ w1. unfold bind at 1 3.
  assert (H : forall buffer full w2,
             has_char LF buffer = false ->
             readLoop messageId (reader_of (chunks ++ [tail])) buffer full w2
             = readLoop messageId (reader_of chunks) buffer full w2).
  { induction chunks as [|c rest IH]; intros buffer full w2 Hbuf.
    - cbn [app reader_of readLoop].
      rewrite split_no_sep by (rewrite has_char_app, Hbuf, Htail; reflexivity).
      reflexivity.
    - cbn [app reader_of readLoop].
      destruct (pop (split LF (buffer +:+ c))) as [lines last] eqn:Ep.
      apply bind_ext. intros full' w'. apply IH.
      pose proof (pop_split_last_no_sep LF (buffer +:+ c)) as H. rewrite Ep in H. exact H. }
  rewrite H by reflexivity. reflexivity.
Qed.

Lemma unterminated_last_chunk_is_dropped_witness :
  handleStreamResponse (Some (reader_of ([] ++ ["data: hello"]))) None initial
  = handleStreamResponse (Some (reader_of [])) None initial.
Proof.
  apply (unterminated_last_chunk_is_dropped [] "data: hello" None initial). reflexivity.
Defined.

(** ** One call, one request *)

(** X3. With an endpoint configured, every call of [callApi] sends exactly
    one request, whatever the transport answers and whether or not a
    message is being updated: a POST to the endpoint carrying the message,
    the time of the call and the stream flag, without cookies.  Every
    other event of the call is a call into the user interface or a timer,
    and there is none when no message identifier is given. *)
Theorem callApi_sends_exactly_one_request env s message messageId w :
  apiUrl s <> "" ->
  exists req evs,
    trace (snd (callApi env s message messageId w)) = trace w ++ Fetch req :: evs
    /\ fetch_count evs = 0%nat
    /\ fetches (snd (callApi env s message messageId w)) = S (fetches w)
    /\ url req = apiUrl s
    /\ method req = "POST"
    /\ credentials req = "omit"
    /\ body req = {| message := message;
                     timestamp := Date_toISOString env (dates w);
                     stream := true |}
    /\ (given messageId = false -> evs = []).
Proof.
  intros Hurl. destruct (callApi_sends env s message messageId w Hurl) as (evs & T & F & C & G).
  eexists _, evs. split; [exact T|]. repeat split; assumption.
Qed.

Lemma callApi_sends_exactly_one_request_witness :
  fetches (snd (callApi (sample_env (fun _ => Resolved bad_gateway)) sample_settings
                  "hello" (Some "m1") initial)) = 1%nat.
Proof.
  destruct (callApi_sends_exactly_one_request
              (sample_env (fun _ => Resolved bad_gateway)) sample_settings
              "hello" (Some "m1") initial) as (req & evs & _ & _ & F & _).
  - discriminate.
  - exact F.
Defined.

(** ** What the retry loop does not retry *)

(** X4. A request that is aborted by the deadline is tried once, whatever
    the budget: [callApiWithRetry] raises "请求超时，请检查网络连接或API响应速度"
    after that single request, also when the message of the abort contains
    the words of a connection failure. *)
Theorem timeout_ends_the_retry_loop env s message (maxRetries : Z) loadingId w e :
  1 <= maxRetries ->
  apiUrl s <> "" ->
  fetch env (fetches w) (build_request s message (Date_toISOString env (dates w)))
  = Rejected e ->
  err_name e = "AbortError" ->
  callApiWithRetry env s message maxRetries loadingId w
  = (Abrupt (Exception (new_Error "请求超时，请检查网络连接或API响应速度")),
     sent env s message w)
  /\ fetch_count (trace (sent env s message w)) = S (fetch_count (trace w))
  /\ steps (trace (sent env s message w)) = steps (trace w) ++ [Attempt].
Proof.
  intros Hmax Hurl Hf Hname.
  split; [apply (timeout_is_not_retried env s message maxRetries loadingId w e); assumption|].
  cbn [sent trace]. rewrite fetch_count_app, steps_app. cbn. split; [lia | reflexivity].
Qed.

Lemma timeout_ends_the_retry_loop_witness :
  fst (callApiWithRetry
         (sample_env (fun _ => Rejected {| err_name := "AbortError";
                                           err_message := "Failed to fetch" |}))
         sample_settings "hello" 5 (Some "loading") initial)
  = Abrupt (Exception (new_Error "请求超时，请检查网络连接或API响应速度")).
Proof.
  destruct (timeout_ends_the_retry_loop
              (sample_env (fun _ => Rejected {| err_name := "AbortError";
                                                err_message := "Failed to fetch" |}))
              sample_settings "hello" 5 (Some "loading") initial
              {| err_name := "AbortError"; err_message := "Failed to fetch" |})
    as [E _]; [lia | discriminate | reflexivity | reflexivity |].
  rewrite E. reflexivity.
Defined.

(** X5. A response outside the 2xx range is tried once and raised as
    "API调用失败 (status): statusText. body" (with "未知错误" for a body that
    cannot be read), provided that text contains none of the words the
    two [catch] blocks look for. *)
Theorem http_error_ends_the_retry_loop
    env s message (maxRetries : Z) loadingId w response :
  1 <= maxRetries ->
  apiUrl s <> "" ->
  fetch env (fetches w) (build_request s message (Date_toISOString env (dates w)))
  = Resolved response ->
  ok response = false ->
  includes (http_failure response) "Failed to fetch" = false ->
  includes (http_failure response) "CORS" = false ->
  includes (http_failure response) "TypeError" = false ->
  includes (http_failure response) "网络连接失败" = false ->
  callApiWithRetry env s message maxRetries loadingId w
  = (Abrupt (Exception (new_Error (http_failure response))), sent env s message w)
  /\ callApi env s message None w
     = (Abrupt (Exception (new_Error (http_failure response))), sent env s message w)
  /\ (forall e, text response = inl e ->
                http_failure response
                = "API调用失败 (" +:+ pretty (status response) +:+ "): "
                  +:+ statusText response +:+ ". 未知错误").
Proof.
  intros Hmax Hurl Hf Hok H1 H2 H3 H4.
  split; [apply http_error_is_not_retried; assumption|]. split.
  - rewrite (callApi_eq _ _ _ _ _ Hurl), Hf.
    unfold after_fetch, try_catch, handle_response. rewrite Hok. cbn [negb].
    fold (http_failure response). unfold throw, classify_error.
    cbn [err_name err_message new_Error].
    change (String.eqb "Error" "AbortError") with false. cbn iota.
    rewrite H1, H2, H3. reflexivity.
  - intros e He. unfold http_failure. rewrite He. reflexivity.
Qed.

Lemma http_error_ends_the_retry_loop_witness :
  fst (callApiWithRetry
         (sample_env (fun _ => Resolved {| status := 500; statusText := "Server Error";
                                           content_type := None;
                                           text := inl (new_TypeError "body stream") |}))
         sample_settings "hello" 3 None initial)
  = Abrupt (Exception (new_Error "API调用失败 (500): Server Error. 未知错误")).
Proof.
  destruct (http_error_ends_the_retry_loop
              (sample_env (fun _ => Resolved {| status := 500; statusText := "Server Error";
                                                content_type := None;
                                                text := inl (new_TypeError "body stream") |}))
              sample_settings "hello" 3 None initial
              {| status := 500; statusText := "Server Error"; content_type := None;
                 text := inl (new_TypeError "body stream") |})
    as [E _]; [lia | discriminate | reflexivity | reflexivity | reflexivity | reflexivity
              | reflexivity | reflexivity |].
  rewrite E. reflexivity.
Defined.



(** ** Which messages a call touches *)

Lemma only_ret P {A} (a : A) : only P (ret a).
Proof. intros w. exists []. simpl. rewrite app_nil_r. auto. Qed.

Lemma only_throw P {A} (t : Thrown) : only P (@throw A t).
Proof. intros w. exists []. simpl. rewrite app_nil_r. auto. Qed.

Lemma only_bind P {A B} (m : M A) (k : A -> M B) :
  only P m -> (forall a, only P (k a)) -> only P (bind m k).
Proof.
  intros Hm Hk w. unfold bind.
  destruct (Hm w) as (e1 & T1 & F1).
  destruct (m w) as [[a|t] w1]; simpl in *.
  - destruct (Hk a w1) as (e2 & T2 & F2).
    exists (e1 ++ e2). rewrite T2, T1, forallb_app, F1, F2, app_assoc. auto.
  - exists e1. auto.
Qed.

Lemma only_try_catch P {A} (m : M A) (h : Thrown -> M A) :
  only P m -> (forall t, only P (h t)) -> only P (try_catch m h).
Proof.
  intros Hm Hh w. unfold try_catch.
  destruct (Hm w) as (e1 & T1 & F1).
  destruct (m w) as [[a|t] w1]; simpl in *.
  - exists e1. auto.
  - destruct (Hh t w1) as (e2 & T2 & F2).
    exists (e1 ++ e2). rewrite T2, T1, forallb_app, F1, F2, app_assoc. auto.
Qed.

Lemma only_emit P (ev : Event) : P ev = true -> only P (emit ev).
Proof. intros H w. exists [ev]. simpl. rewrite H. auto. Qed.

Lemma only_clock P {A} (f : nat -> A) :
  only P (fun w => (Normal (f (dates w)),
                    {| trace := trace w; fetches := fetches w;
                       dates := S (dates w); randoms := randoms w |})).
Proof. intros w. exists []. simpl. rewrite app_nil_r. auto. Qed.

Lemma only_random P env : only P (random env).
Proof. intros w. exists []. simpl. rewrite app_nil_r. auto. Qed.

Lemma only_when P (b : bool) (m : M unit) : only P m -> only P (when b m).
Proof. intros H. destruct b; simpl; [exact H | apply only_ret]. Qed.

Lemma only_do_fetch P env (req : Request) : P (Fetch req) = true -> only P (do_fetch env req).
Proof.
  intros H w. exists [Fetch req]. unfold do_fetch.
  destruct (fetch env (fetches w) req); simpl; rewrite H; auto.
Qed.

Ltac only_step :=
  first
    [ apply only_ret
    | apply only_throw
    | apply only_random
    | apply only_clock
    | apply only_emit; cbn; apply String.eqb_refl
    | apply only_when
    | apply only_bind; [| intros ? ]
    | apply only_try_catch; [| intros ? ] ].

Lemma forLines_targets (messageId : option string) (lines : list string) (full : string) :
  only (targets (id_of messageId)) (forLines messageId lines full).
Proof.
  revert full. induction lines as [|line rest IH]; intros full; cbn [forLines].
  - apply only_ret.
  - destruct (String.eqb (trim line) ""); [apply IH|].
    destruct (startsWith line "data: "); [| apply IH].
    destruct (String.eqb (slice 6 line) "[DONE]"); [apply only_ret|].
    destruct (line_effect (slice 6 line)) as [|text]; [apply IH|].
    apply only_bind; [| intros _; apply IH].
    unfold updateMessageWithTyping. repeat only_step.
Qed.

Lemma readLoop_targets (messageId : option string) (reader : Reader) (buffer full : string) :
  only (targets (id_of messageId)) (readLoop messageId reader buffer full).
Proof.
  revert buffer full. induction reader as [|value next IH|e]; intros buffer full; cbn [readLoop].
  - apply only_ret.
  - destruct (pop (split LF (buffer +:+ value))) as [lines last].
    apply only_bind; [apply forLines_targets | intros full'; apply IH].
  - apply only_ret.
Qed.

Lemma handleStreamResponse_targets (response_body : option Reader) (messageId : option string) :
  only (targets (id_of messageId)) (handleStreamResponse response_body messageId).
Proof.
  unfold handleStreamResponse. destruct response_body as [reader|]; [| apply only_throw].
  apply only_bind.
  { unfold removeStreamingEffect, updateMessage. repeat only_step. }
  intros _. apply only_bind; [apply readLoop_targets|].
  intros [full failure]. apply only_bind.
  { unfold finishTyping. repeat only_step. }
  intros _. destruct failure; only_step.
Qed.

Lemma typeWords_targets env (messageId : string) (words : list string) (i : nat) (cur : string) :
  only (targets messageId) (typeWords env messageId words i cur).
Proof.
  revert i cur. induction words as [|word rest IH]; intros i cur; cbn [typeWords].
  - apply only_ret.
  - unfold updateMessageWithTyping, sleep.
    apply only_bind; [only_step|]. intros _.
    apply only_bind; [only_step|]. intros r.
    apply only_bind; [apply only_emit; reflexivity|]. intros _. apply IH.
Qed.

Lemma simulateTypingEffect_targets env (messageId : string) (content : json) :
  only (targets messageId) (simulateTypingEffect env messageId content).
Proof.
  unfold simulateTypingEffect. destruct content; try apply only_throw.
  apply only_bind; [apply typeWords_targets|]. intros _. unfold finishTyping. only_step.
Qed.

Lemma reveal_targets env (messageId : option string) (content : json) :
  only (targets (id_of messageId)) (reveal env messageId content).
Proof.
  unfold reveal. apply only_when.
  unfold removeStreamingEffect, updateMessage.
  apply only_bind; [only_step|]. intros _.
  apply only_bind; [only_step|]. intros _.
  apply simulateTypingEffect_targets.
Qed.

Lemma handle_json_targets env (data : json) (messageId : option string) :
  only (targets (id_of messageId)) (handle_json env data messageId).
Proof.
  unfold handle_json.
  destruct data; try apply only_throw;
    repeat match goal with
           | |- only _ (if ?c then _ else _) => destruct c
           end;
    try apply only_throw;
    (apply only_bind; [apply reveal_targets | intros _; apply only_ret]).
Qed.

Lemma handle_response_targets env (response : Response) (messageId : option string) :
  only (targets (id_of messageId)) (handle_response env response messageId).
Proof.
  unfold handle_response.
  destruct (negb (ok response)); [apply only_throw|].
  destruct (text response) as [e|responseText]; [apply only_throw|].
  destruct (includes _ "text/event-stream").
  { destruct (_ || _); [apply only_throw|].
    apply only_bind; [apply handleStreamResponse_targets | intros ?; apply only_ret]. }
  destruct (_ || _).
  - destruct (JSON_parse responseText) as [data|].
    + apply handle_json_targets.
    + apply only_bind; [apply reveal_targets | intros _; apply only_ret].
  - apply only_bind; [apply reveal_targets | intros _; apply only_ret].
Qed.

Lemma classify_error_only P env s (error : Thrown) : only P (classify_error env s error).
Proof.
  unfold classify_error. destruct error as [e|]; [| apply only_throw].
  repeat match goal with
         | |- only _ (if ?c then _ else _) => destruct c
         end; try apply only_throw.
  unfold performNetworkDiagnostics, now_toLocaleString. repeat only_step.
Qed.

Lemma callApi_targets env s message (messageId : option string) :
  only (targets (id_of messageId)) (callApi env s message messageId).
Proof.
  unfold callApi. destruct (String.eqb (apiUrl s) ""); [apply only_throw|].
  unfold now_toISOString. apply only_bind; [only_step|]. intros timestamp.
  apply only_try_catch; [| intros t; apply classify_error_only].
  apply only_bind; [apply only_do_fetch; reflexivity|].
  intros response. apply handle_response_targets.
Qed.

(** X7. Every call that [callApi] makes into the user interface is about
    the message it was given: besides the request and timers, a run adds
    only updates, typing updates, the end of typing and the removal of the
    streaming effect for that identifier. *)
Theorem callApi_updates_only_its_message env s message (messageId : option string) w :
  exists evs,
    trace (snd (callApi env s message messageId w)) = trace w ++ evs
    /\ forallb (targets (id_of messageId)) evs = true.
Proof. apply callApi_targets. Qed.

(** ** What a call can return or throw *)

Lemma classify_error_throws env s (error : Thrown) (w : World) :
  exists e, fst (classify_error env s error w) = Abrupt (Exception e).
Proof.
  unfold classify_error. destruct error as [e|]; [| eexists; reflexivity].
  repeat match goal with
         | |- context [if ?c then _ else _] => destruct c
         end; eexists; reflexivity.
Qed.

Lemma reveal_normal_is_text env (messageId : option string) (content : json) (w : World) :
  given messageId = true ->
  fst (reveal env messageId content w) = Normal tt ->
  exists t, content = JStr t.
Proof.
  intros Hg. unfold reveal. rewrite Hg. cbn [when].
  unfold bind, removeStreamingEffect, updateMessage, emit. cbn iota beta.
  destruct content; try (cbn; discriminate). eauto.
Qed.

Lemma bind_ret_normal {A} (m : M unit) (a : A) (w : World) (v : A) :
  fst (bind m (fun _ => ret a) w) = Normal v -> fst (m w) = Normal tt /\ v = a.
Proof.
  unfold bind, ret. destruct (m w) as [[[]|t] w']; cbn; [| discriminate].
  intros H. injection H as <-. auto.
Qed.

Lemma handle_json_text env (data : json) (messageId : option string) (w : World) (v : json) :
  given messageId = true ->
  fst (handle_json env data messageId w) = Normal v ->
  exists t, v = JStr t.
Proof.
  intros Hg. rewrite handle_json_never_serializes.
  destruct data; try (cbn; discriminate);
    (destruct (signals_success _); [| cbn; discriminate]);
    intros H; apply bind_ret_normal in H as [H ->];
    apply (reveal_normal_is_text _ _ _ _ Hg H).
Qed.

Lemma handle_response_text env (response : Response) (messageId : option string)
    (w : World) (v : json) :
  given messageId = true ->
  fst (handle_response env response messageId w) = Normal v ->
  exists t, v = JStr t.
Proof.
  intros Hg. unfold handle_response.
  destruct (negb (ok response)); [cbn; discriminate|].
  destruct (text response) as [e|responseText]; [cbn; discriminate|].
  destruct (includes _ "text/event-stream").
  { destruct (_ || _); [cbn; discriminate|].
    unfold bind, ret. destruct (handleStreamResponse _ _ w) as [[full|t] w'];
      cbn [fst]; [| discriminate].
    intros H. inversion H. eauto. }
  destruct (_ || _).
  - destruct (JSON_parse responseText) as [data|].
    + apply handle_json_text. exact Hg.
    + intros H. apply bind_ret_normal in H as [_ ->]. eauto.
  - intros H. apply bind_ret_normal in H as [_ ->]. eauto.
Qed.

Lemma callApi_outcome env s message (messageId : option string) w :
  throws_undefined (fst (callApi env s message messageId w)) = false
  /\ (given messageId = true ->
      forall v, fst (callApi env s message messageId w) = Normal v -> exists t, v = JStr t).
Proof.
  destruct (String.eqb (apiUrl s) "") eqn:Hurl.
  - apply String.eqb_eq in Hurl. rewrite (callApi_no_url _ _ _ _ _ Hurl).
    split; [reflexivity | discriminate].
  - apply String.eqb_neq in Hurl. rewrite (callApi_eq _ _ _ _ _ Hurl).
    unfold after_fetch, try_catch.
    match goal with
    | |- context [match ?o with Rejected _ => _ | Resolved _ => _ end ?w0] =>
        destruct (match o with
                  | Rejected e => throw (Exception e)
                  | Resolved r => handle_response env r messageId
                  end w0) as [[a|t] w'] eqn:E
    end.
    + split; [reflexivity|]. intros Hg v Hv. cbn in Hv. injection Hv as <-.
      destruct (fetch env _ _) as [e|r0]; [discriminate|].
      apply (handle_response_text env r0 messageId (sent env s message w) a Hg).
      rewrite E. reflexivity.
    + destruct (classify_error_throws env s t w') as [e He].
      split; [rewrite He; reflexivity|]. intros _ v Hv. rewrite He in Hv. discriminate.
Qed.

(** X8. [callApi] never throws [undefined]: whatever it throws is an error
    object, so the [error.message] of its callers is defined.  When it is
    given a message to update, what it returns is a text: a reply that is
    not a string (a number or an object in the [response] field) cannot be
    played back and is raised as an error instead. *)
Theorem callApi_returns_text_or_throws_an_error env s message (messageId : option string) w :
  throws_undefined (fst (callApi env s message messageId w)) = false
  /\ (given messageId = true -> text_or_error (fst (callApi env s message messageId w))).
Proof.
  destruct (callApi_outcome env s message messageId w) as [H1 H2].
  split; [exact H1|]. intros Hg. specialize (H2 Hg).
  destruct (fst (callApi env s message messageId w)) as [v|[e|]]; cbn in *;
    try discriminate; auto.
  destruct (H2 v eq_refl) as [t ->]. exact I.
Qed.

Lemma callApi_returns_text_or_throws_an_error_witness :
  fst (callApi (sample_env (fun _ => Resolved number_reply))
         sample_settings "hello" (Some "m1") initial)
  = Abrupt (Exception (new_TypeError "text.split is not a function"))
  /\ text_or_error
       (fst (callApi (sample_env (fun _ => Resolved number_reply))
               sample_settings "hello" (Some "m1") initial)).
Proof.
  split; [vm_compute; reflexivity|].
  apply (callApi_returns_text_or_throws_an_error
           (sample_env (fun _ => Resolved number_reply))
           sample_settings "hello" (Some "m1") initial).
  reflexivity.
Defined.

(** ** The retry loop: what it shows and what it throws *)

Lemma callApi_without_message P env s message :
  (forall req, P (Fetch req) = true) -> only P (callApi env s message None).
Proof.
  intros HP w. destruct (String.eqb (apiUrl s) "") eqn:Hurl.
  - apply String.eqb_eq in Hurl. rewrite (callApi_no_url _ _ _ _ _ Hurl).
    exists []. cbn. rewrite app_nil_r. auto.
  - apply String.eqb_neq in Hurl.
    destruct (callApi_sends env s message None w Hurl) as (evs & T & _ & _ & G).
    rewrite (G eq_refl) in T. eexists. split; [exact T|]. cbn. rewrite HP. reflexivity.
Qed.

Lemma notice_for_update (loadingId : option string) (t : string) :
  given loadingId = true ->
  notice_for loadingId (UpdateMessage (id_of loadingId) t) = true.
Proof. intros Hg. cbn. rewrite Hg, String.eqb_refl. reflexivity. Qed.

Lemma on_failure_notices attempt maxRetries loadingId (again : M json) (error : Thrown) :
  only (notice_for loadingId) again ->
  only (notice_for loadingId) (on_failure attempt maxRetries loadingId again error).
Proof.
  intros Hagain. unfold on_failure. destruct error as [e|]; [| apply only_throw].
  destruct (_ && _); [| apply only_throw].
  apply only_bind.
  { destruct (given loadingId) eqn:Hg; cbn [when]; [| apply only_ret].
    apply only_emit. apply notice_for_update. exact Hg. }
  intros _. apply only_bind; [apply only_emit; reflexivity|]. intros _. exact Hagain.
Qed.

Lemma retry_from_try_catch env s fuel attempt maxRetries message loadingId lastError :
  retry_from env s (S fuel) attempt maxRetries message loadingId lastError
  = try_catch
      (when (given loadingId && (1 <? attempt))
         (updateMessage (id_of loadingId)
            ("正在重试连接... (" +:+ pretty attempt +:+ "/" +:+ pretty maxRetries +:+ ")")) ;;
       callApi env s message None)
      (fun error =>
         on_failure attempt maxRetries loadingId
           (retry_from env s fuel (attempt + 1) maxRetries message loadingId error) error).
Proof. reflexivity. Qed.

Lemma retry_from_notices env s maxRetries message loadingId :
  forall fuel attempt lastError,
    only (notice_for loadingId)
      (retry_from env s fuel attempt maxRetries message loadingId lastError).
Proof.
  induction fuel as [|fuel IH]; intros attempt lastError.
  - apply only_throw.
  - rewrite retry_from_try_catch. apply only_try_catch.
    + apply only_bind; [| intros _; apply callApi_without_message; reflexivity].
      destruct (given loadingId) eqn:Hg; cbn [andb when]; [| apply only_ret].
      apply only_when. apply only_emit. apply notice_for_update. exact Hg.
    + intros error. apply on_failure_notices. apply IH.
Qed.

(** X9. [callApiWithRetry] never shows the reply: besides requests and
    backoff timers, all it adds are plain text notices written to the
    loading message; with no loading message it calls nothing of the user
    interface.  No typing update, end of typing or removal of the
    streaming effect comes from it, whatever the transport answers. *)
Theorem callApiWithRetry_shows_only_notices env s message (maxRetries : Z) loadingId w :
  exists evs,
    trace (snd (callApiWithRetry env s message maxRetries loadingId w)) = trace w ++ evs
    /\ forallb (notice_for loadingId) evs = true.
Proof. apply retry_from_notices. Qed.

Lemma on_failure_defined attempt maxRetries loadingId (again : M json) (e : JsError) w :
  (forall w', throws_undefined (fst (again w')) = false) ->
  throws_undefined (fst (on_failure attempt maxRetries loadingId again (Exception e) w)) = false.
Proof.
  intros Hagain. unfold on_failure. destruct (_ && _); [| reflexivity].
  unfold bind, when, updateMessage, sleep, emit, ret.
  destruct (given loadingId); apply Hagain.
Qed.

Lemma retry_from_defined env s maxRetries message loadingId :
  forall fuel attempt lastError w,
    (fuel = 0%nat -> lastError <> Undefined) ->
    throws_undefined
      (fst (retry_from env s fuel attempt maxRetries message loadingId lastError w)) = false.
Proof.
  induction fuel as [|fuel IH]; intros attempt lastError w Hlast.
  - destruct lastError as [e|]; [reflexivity|]. exfalso. apply Hlast; reflexivity.
  - rewrite retry_from_step.
    pose proof (proj1 (callApi_outcome env s message None
                         (announced attempt maxRetries loadingId w))) as Hcall.
    destruct (callApi env s message None (announced attempt maxRetries loadingId w))
      as [[v|[e|]] w2]; cbn in Hcall; [reflexivity | | discriminate].
    apply on_failure_defined. intros w'. apply IH. intros _. discriminate.
Qed.

(** X10. What [callApiWithRetry] throws is [undefined], the initial value of
    [lastError], exactly when the budget is zero or less: then the loop
    body never runs, nothing is sent and nothing is shown.  With a budget
    of one or more it returns or throws an error object. *)
Theorem retry_throws_undefined_only_without_budget
    env s message (maxRetries : Z) loadingId w :
  (maxRetries <= 0 ->
   callApiWithRetry env s message maxRetries loadingId w = (Abrupt Undefined, w))
  /\ (1 <= maxRetries ->
      throws_undefined (fst (callApiWithRetry env s message maxRetries loadingId w)) = false).
Proof.
  unfold callApiWithRetry. split; intros H.
  - replace (Z.to_nat maxRetries) with 0%nat by lia. reflexivity.
  - apply retry_from_defined. lia.
Qed.

(** ** The attempt that ends the loop *)

Lemma retry_from_failures env s message (maxRetries : Z) loadingId :
  apiUrl s <> "" ->
  forall (n fuel : nat) attempt lastError w,
    (forall i req, (fetches w <= i < fetches w + n)%nat ->
       exists e, fetch env i req = Rejected e
                 /\ err_name e <> "AbortError"
                 /\ includes (err_message e) "Failed to fetch" = true) ->
    attempt + Z.of_nat n <= maxRetries ->
    exists evs w_n lastError',
      retry_from env s (n + fuel) attempt maxRetries message loadingId lastError w
      = retry_from env s fuel (attempt + Z.of_nat n) maxRetries message loadingId lastError' w_n
      /\ trace w_n = trace w ++ evs
      /\ fetch_count evs = n
      /\ steps evs ++ [Attempt] = schedule_from attempt (S n)
      /\ fetches w_n = (fetches w + n)%nat
      /\ dates w_n = (dates w + 2 * n)%nat.
Proof.
  intros Hurl. induction n as [|n IH]; intros fuel attempt lastError w Hfail Hle.
  - exists [], w, lastError. rewrite Z.add_0_r, app_nil_r, !Nat.add_0_r.
    repeat split; reflexivity.
  - change (S n + fuel)%nat with (S (n + fuel)). rewrite retry_from_step.
    destruct (announced_steps attempt maxRetries loadingId w) as (e0 & T0 & S0 & C0 & F0 & D0).
    set (w1 := announced attempt maxRetries loadingId w) in *.
    destruct (Hfail (fetches w1) (build_request s message (Date_toISOString env (dates w1))))
      as (e & Hf & Hname & Hmsg); [rewrite F0; lia|].
    rewrite (callApi_network_failure env s message None w1 e Hurl Hf Hname Hmsg).
    rewrite on_failure_retry by (apply network_failure_retriable || lia).
    destruct (backed_off_trace attempt loadingId (failed env s message w1))
      as (e2 & T2 & S2 & C2 & F2 & D2).
    destruct (IH fuel (attempt + 1)
                (Exception
                   (new_Error (network_failure
                                 (diagnostics env s (Date_toLocaleString env (S (dates w1)))))))
                (backed_off attempt loadingId (failed env s message w1)))
      as (e3 & w_n & lastError' & Heq & T3 & C3 & S3 & F3 & D3).
    { intros i req Hi. apply Hfail. rewrite F2 in Hi. cbn [failed fetches] in Hi.
      rewrite F0 in Hi. lia. }
    { lia. }
    exists (e0 ++ [Fetch (build_request s message (Date_toISOString env (dates w1)))]
            ++ e2 ++ e3), w_n, lastError'.
    rewrite Heq, T3, T2. cbn [failed trace]. rewrite T0, <- !app_assoc.
    rewrite !steps_app, !fetch_count_app, S0, C0, S2, C2, C3, F3, D3, F2, D2.
    cbn [failed fetches dates]. rewrite F0, D0, schedule_from_more, <- S3.
    replace (attempt + 1 + Z.of_nat n) with (attempt + Z.of_nat (S n)) by lia.
    repeat split; try reflexivity; lia.
Qed.

(** X11. The loop ends with the first attempt that is not a connection
    failure.  If the first [k - 1] requests are rejected for a connection
    failure and [k] is within the budget, then [callApiWithRetry] makes its
    [k]-th call of [callApi] after [k - 1] requests and the backoff waits
    between them; when that call returns, its value is the result, and
    when it raises an error that is not a connection failure, that error
    is thrown at once. *)
Theorem retry_ends_with_the_first_other_outcome
    env s message (maxRetries : Z) loadingId w (k : nat) :
  apiUrl s <> "" ->
  (1 <= k)%nat ->
  Z.of_nat k <= maxRetries ->
  (forall i req, (fetches w <= i < fetches w + (k - 1))%nat ->
     exists e, fetch env i req = Rejected e
               /\ err_name e <> "AbortError"
               /\ includes (err_message e) "Failed to fetch" = true) ->
  exists evs w_k,
    trace w_k = trace w ++ evs
    /\ fetch_count evs = (k - 1)%nat
    /\ steps evs ++ [Attempt] = schedule_from 1 k
    /\ fetches w_k = (fetches w + (k - 1))%nat
    /\ dates w_k = (dates w + 2 * (k - 1))%nat
    /\ (forall v w', callApi env s message None w_k = (Normal v, w') ->
                     callApiWithRetry env s message maxRetries loadingId w = (Normal v, w'))
    /\ (forall e w', callApi env s message None w_k = (Abrupt (Exception e), w') ->
                     retriable e = false ->
                     callApiWithRetry env s message maxRetries loadingId w
                     = (Abrupt (Exception e), w')).
Proof.
  intros Hurl Hk Hmax Hfail. unfold callApiWithRetry.
  replace (Z.to_nat maxRetries) with ((k - 1) + S (Z.to_nat maxRetries - k))%nat by lia.
  destruct (retry_from_failures env s message maxRetries loadingId Hurl
              (k - 1) (S (Z.to_nat maxRetries - k)) 1 Undefined w Hfail)
    as (evs & w_n & lastError' & Heq & T & C & St & F & D); [lia|].
  rewrite Heq, retry_from_step.
  destruct (announced_steps (1 + Z.of_nat (k - 1)) maxRetries loadingId w_n)
    as (e0 & T0 & S0 & C0 & F0 & D0).
  exists (evs ++ e0), (announced (1 + Z.of_nat (k - 1)) maxRetries loadingId w_n).
  rewrite T0, T, <- app_assoc, fetch_count_app, steps_app, S0, C0, F0, D0, F, D, app_nil_r.
  replace (S (k - 1)) with k in St by lia.
  repeat split; try assumption; try lia.
  - intros v w' Hcall. rewrite Hcall. reflexivity.
  - intros e w' Hcall Hr. rewrite Hcall. apply on_failure_other.
    + unfold retriable in Hr. apply orb_false_iff in Hr. apply Hr.
    + unfold retriable in Hr. apply orb_false_iff in Hr. apply Hr.
Qed.

Lemma retry_ends_with_the_first_other_outcome_witness :
  exists evs w_k,
    trace w_k = trace initial ++ evs
    /\ fetch_count evs = 2%nat
    /\ steps evs ++ [Attempt]
       = [Attempt; Wait (inject_Z 1000); Attempt; Wait (inject_Z 2000); Attempt]
    /\ fetches w_k = 2%nat.
Proof.
  destruct (retry_ends_with_the_first_other_outcome
              (sample_env (fun i => if (i <? 2)%nat
                                    then Rejected (new_TypeError "Failed to fetch")
                                    else Resolved (json_response 200 "OK" "done")))
              sample_settings "hello" 5 (Some "loading") initial 3)
    as (evs & w_k & T & C & St & F & _).
  - discriminate.
  - lia.
  - lia.
  - intros i req Hi. exists (new_TypeError "Failed to fetch").
    cbn in Hi. destruct i as [|[|i]]; [| | lia];
      (split; [reflexivity|]; split; [discriminate | reflexivity]).
  - exists evs, w_k. repeat split; assumption.
Defined.

(** ** Credentials *)

Lemma request_headers_cases (s : ApiSettings) :
  let base : gmap string string :=
    <["Accept" := "text/event-stream, application/json"]>
      (<["Content-Type" := "application/json"]> ∅) in
  (authType s = "Bearer" /\ apiKey s <> ""
   /\ request_headers s = <["Authorization" := "Bearer " +:+ apiKey s]> base)
  \/ (authType s = "ApiKey" /\ apiKey s <> ""
      /\ request_headers s = <["X-API-Key" := apiKey s]> base)
  \/ ((authType s <> "Bearer" \/ apiKey s = "")
      /\ (authType s <> "ApiKey" \/ apiKey s = "")
      /\ request_headers s = base).
Proof.
  intros base. unfold request_headers. fold base.
  destruct (String.eqb (apiKey s) "") eqn:Hkey.
  { apply String.eqb_eq in Hkey. rewrite andb_false_r. cbn iota.
    right. right. repeat split; auto. }
  apply String.eqb_neq in Hkey.
  destruct (String.eqb (authType s) "None") eqn:Hnone.
  { apply String.eqb_eq in Hnone. cbn [negb andb]. right. right.
    rewrite Hnone. repeat split; auto; left; discriminate. }
  cbn [negb andb].
  destruct (String.eqb (authType s) "Bearer") eqn:Hbearer.
  { apply String.eqb_eq in Hbearer. left. repeat split; auto. }
  apply String.eqb_neq in Hbearer.
  destruct (String.eqb (authType s) "ApiKey") eqn:Hapikey.
  { apply String.eqb_eq in Hapikey. right. left. repeat split; auto. }
  apply String.eqb_neq in Hapikey. right. right. repeat split; auto.
Qed.

(** X12. The request carries at most one credential header, and only for
    the two authentication types the code knows: [Authorization] is set
    exactly when the type is "Bearer" and the key is not empty, [X-API-Key]
    exactly when the type is "ApiKey" and the key is not empty; any other
    type (the comparison is case sensitive) sends the request without a
    credential although a key is configured.  [Content-Type] and [Accept]
    are always set, and no other header is. *)
Theorem request_headers_carry_at_most_one_credential (s : ApiSettings) :
  request_headers s !! "Content-Type" = Some "application/json"
  /\ request_headers s !! "Accept" = Some "text/event-stream, application/json"
  /\ (is_Some (request_headers s !! "Authorization")
      <-> authType s = "Bearer" /\ apiKey s <> "")
  /\ (is_Some (request_headers s !! "X-API-Key")
      <-> authType s = "ApiKey" /\ apiKey s <> "")
  /\ ~ (is_Some (request_headers s !! "Authorization")
        /\ is_Some (request_headers s !! "X-API-Key"))
  /\ (forall name, is_Some (request_headers s !! name) ->
        name = "Content-Type" \/ name = "Accept"
        \/ name = "Authorization" \/ name = "X-API-Key").
Proof.
  assert (Hbase : forall name v,
             (<["Accept" := "text/event-stream, application/json"]>
                (<["Content-Type" := "application/json"]> (∅ : gmap string string)))
               !! name = Some v ->
             name = "Content-Type" \/ name = "Accept").
  { intros name v H. apply lookup_insert_Some in H as [[<- _]|[_ H]]; [auto|].
    apply lookup_insert_Some in H as [[<- _]|[_ H]]; [auto|].
    rewrite lookup_empty in H. discriminate. }
  destruct (request_headers_cases s) as [(Ha & Hk & ->)|[(Ha & Hk & ->)|(H1 & H2 & ->)]].
  - split; [reflexivity|]. split; [reflexivity|].
    split; [split; [auto | intros _; eexists; apply lookup_insert_eq]|].
    split; [split; [intros [v Hv]; discriminate Hv | intros [Ha' _]; congruence]|].
    split; [intros [_ [v Hv]]; discriminate Hv|].
    intros name [v Hv]. apply lookup_insert_Some in Hv as [[<- _]|[_ Hv]]; [auto|].
    destruct (Hbase name v Hv); auto.
  - split; [reflexivity|]. split; [reflexivity|].
    split; [split; [intros [v Hv]; discriminate Hv | intros [Ha' _]; congruence]|].
    split; [split; [auto | intros _; eexists; apply lookup_insert_eq]|].
    split; [intros [[v Hv] _]; discriminate Hv|].
    intros name [v Hv]. apply lookup_insert_Some in Hv as [[<- _]|[_ Hv]]; [auto|].
    destruct (Hbase name v Hv); auto.
  - split; [reflexivity|]. split; [reflexivity|].
    split; [split; [intros [v Hv]; discriminate Hv | intros [Ha Hk]; destruct H1; contradiction]|].
    split; [split; [intros [v Hv]; discriminate Hv | intros [Ha Hk]; destruct H2; contradiction]|].
    split; [intros [[v Hv] _]; discriminate Hv|].
    intros name [v Hv]. destruct (Hbase name v Hv); auto.
Qed.

(** X13. The diagnostic report, which ends up in the error shown for a
    failed connection, does not contain the key: two configurations that
    differ only in the value of a key that is set give the same report. *)
Theorem diagnostics_do_not_reveal_the_key env (s s' : ApiSettings) (now : string) :
  apiUrl s = apiUrl s' ->
  authType s = authType s' ->
  apiKey s <> "" ->
  apiKey s' <> "" ->
  diagnostics env s now = diagnostics env s' now
  /\ network_failure (diagnostics env s now) = network_failure (diagnostics env s' now).
Proof.
  intros Hurl Hauth Hk Hk'.
  assert (H : diagnostics env s now = diagnostics env s' now).
  { unfold diagnostics.
    rewrite Hurl, Hauth, (string_eqb_false _ _ Hk), (string_eqb_false _ _ Hk'). reflexivity. }
  rewrite H. auto.
Qed.

Lemma diagnostics_do_not_reveal_the_key_witness :
  diagnostics (sample_env (fun _ => Resolved bad_gateway)) sample_settings "now"
  = diagnostics (sample_env (fun _ => Resolved bad_gateway))
      {| apiUrl := "https://api.example.com/chat"; apiKey := "another key";
         authType := "Bearer" |} "now".
Proof.
  apply (diagnostics_do_not_reveal_the_key
           (sample_env (fun _ => Resolved bad_gateway)) sample_settings
           {| apiUrl := "https://api.example.com/chat"; apiKey := "another key";
              authType := "Bearer" |} "now");
    [reflexivity | reflexivity | discriminate | discriminate].
Defined.

(** ** Settings that survive a round trip *)

Lemma string_or_not_empty (value : option string) (fallback : string) :
  fallback <> "" -> string_or value fallback <> "".
Proof.
  intros Hf. unfold string_or. destruct value as [v|]; [| exact Hf].
  destruct (String.eqb v "") eqn:E; [exact Hf | apply String.eqb_neq; exact E].
Qed.

Lemma update_keeps_authType (s : ApiSettings) (options : VisualUpdateOptions) :
  authType s <> "" -> authType (update s options) <> "".
Proof.
  intros H. unfold update. destruct (apiSettings_object options) as [o|]; [| exact H].
  cbn [authType]. apply string_or_not_empty. discriminate.
Qed.

Lemma updates_keep_authType (history : list VisualUpdateOptions) :
  forall s, authType s <> "" -> authType (fold_left update history s) <> "".
Proof.
  induction history as [|options rest IH]; intros s H; [exact H|].
  cbn [fold_left]. apply IH. apply update_keeps_authType. exact H.
Qed.

Lemma string_or_same (v fallback : string) : v <> "" -> string_or (Some v) fallback = v.
Proof. intros H. unfold string_or. rewrite (string_eqb_false _ _ H). reflexivity. Qed.

Lemma string_or_empty (v : string) : string_or (Some v) "" = v.
Proof. unfold string_or. destruct (String.eqb v "") eqn:E; [| reflexivity].
  apply String.eqb_eq in E. auto. Qed.

(** X14. The settings survive a round trip through the host.  After any
    history of updates of a new visual the authentication type is never
    empty, and handing the properties that [enumerateObjectInstances]
    lists back to [update] restores exactly the settings they were listed
    from, whatever was stored at that moment. *)
Theorem enumerated_settings_round_trip
    (history : list VisualUpdateOptions) (stored : ApiSettings) :
  let s := fold_left update history initial_apiSettings in
  authType s <> ""
  /\ update stored (persisted (enumerateObjectInstances s)) = s.
Proof.
  intros s.
  assert (Hauth : authType s <> "").
  { apply updates_keep_authType. discriminate. }
  split; [exact Hauth|].
  unfold update, persisted, enumerateObjectInstances, apiSettings_object.
  cbn [dataViews metadata objects foldr objectName properties].
  rewrite lookup_insert_eq.
  clearbody s. destruct s as [u k a]. cbn [apiUrl apiKey authType] in *.
  rename Hauth into Ha.
  assert (E1 : (<["authType":=a]> (<["apiKey":=k]> (<["apiUrl":=u]> (∅ : gmap string string))))
               !! "apiUrl" = Some u).
  { rewrite lookup_insert_ne by discriminate. rewrite lookup_insert_ne by discriminate.
    apply lookup_insert_eq. }
  assert (E2 : (<["authType":=a]> (<["apiKey":=k]> (<["apiUrl":=u]> (∅ : gmap string string))))
               !! "apiKey" = Some k).
  { rewrite lookup_insert_ne by discriminate. apply lookup_insert_eq. }
  assert (E3 : (<["authType":=a]> (<["apiKey":=k]> (<["apiUrl":=u]> (∅ : gmap string string))))
               !! "authType" = Some a).
  { apply lookup_insert_eq. }
  rewrite E1, E2, E3.
  rewrite !string_or_empty, (string_or_same _ _ Ha). reflexivity.
Qed.

(** ** The message list *)

Lemma set_text_ids (i t : string) (l : list ChatMessage.t) :
  map ChatMessage.id (set_text i t l) = map ChatMessage.id l.
Proof.
  induction l as [|m l IH]; [reflexivity|]. cbn [set_text].
  destruct (String.eqb (ChatMessage.id m) i); cbn [map]; [reflexivity|].
  rewrite IH. reflexivity.
Qed.

Lemma set_text_isUser (i t : string) (l : list ChatMessage.t) :
  map ChatMessage.isUser (set_text i t l) = map ChatMessage.isUser l.
Proof.
  induction l as [|m l IH]; [reflexivity|]. cbn [set_text].
  destruct (String.eqb (ChatMessage.id m) i); cbn [map]; [reflexivity|].
  rewrite IH. reflexivity.
Qed.

Lemma set_text_absent (i t : string) (l : list ChatMessage.t) :
  ~ In i (map ChatMessage.id l) -> set_text i t l = l.
Proof.
  induction l as [|m l IH]; intros Hn; [reflexivity|]. cbn [set_text].
  destruct (String.eqb (ChatMessage.id m) i) eqn:E.
  - apply String.eqb_eq in E. exfalso. apply Hn. left. exact E.
  - rewrite IH; [reflexivity|]. intros Hin. apply Hn. right. exact Hin.
Qed.

Lemma set_text_first (i t : string) (l1 l2 : list ChatMessage.t) (p : ChatMessage.t) :
  ~ In i (map ChatMessage.id l1) ->
  ChatMessage.id p = i ->
  set_text i t (l1 ++ p :: l2) = l1 ++ with_text p t :: l2.
Proof.
  intros Hn Hp. induction l1 as [|m l1 IH]; cbn [app set_text].
  - rewrite Hp, String.eqb_refl. reflexivity.
  - destruct (String.eqb (ChatMessage.id m) i) eqn:E.
    + apply String.eqb_eq in E. exfalso. apply Hn. left. exact E.
    + rewrite IH; [reflexivity|]. intros Hin. apply Hn. right. exact Hin.
Qed.

Lemma set_text_other (i t : string) (l : list ChatMessage.t) :
  List.filter (fun m => negb (String.eqb (ChatMessage.id m) i)) (set_text i t l)
  = List.filter (fun m => negb (String.eqb (ChatMessage.id m) i)) l.
Proof.
  induction l as [|m l IH]; [reflexivity|]. cbn [set_text].
  destruct (String.eqb (ChatMessage.id m) i) eqn:E; cbn [List.filter with_text ChatMessage.id];
    rewrite E; cbn [negb]; [reflexivity|]. rewrite IH. reflexivity.
Qed.

(** X15. An update in memory changes the text of the first message with
    that identifier and nothing else: the identifiers, the senders, the
    order and the number of messages stay, a message with another
    identifier keeps its text, a second message with the same identifier
    is not touched, and an identifier that is not in the list changes
    nothing. *)
Theorem set_text_changes_the_first_match_only (messageId newText : string)
    (msgs : list ChatMessage.t) :
  map ChatMessage.id (set_text messageId newText msgs) = map ChatMessage.id msgs
  /\ map ChatMessage.isUser (set_text messageId newText msgs) = map ChatMessage.isUser msgs
  /\ length (set_text messageId newText msgs) = length msgs
  /\ (~ In messageId (map ChatMessage.id msgs) -> set_text messageId newText msgs = msgs)
  /\ (forall before m after,
        msgs = before ++ m :: after ->
        ChatMessage.id m = messageId ->
        ~ In messageId (map ChatMessage.id before) ->
        set_text messageId newText msgs = before ++ with_text m newText :: after)
  /\ removeMessage messageId (set_text messageId newText msgs) = removeMessage messageId msgs.
Proof.
  split; [apply set_text_ids|]. split; [apply set_text_isUser|].
  split; [rewrite <- (length_map ChatMessage.id), set_text_ids; apply length_map|].
  split; [apply set_text_absent|]. split.
  - intros before m after -> Hm Hn. apply set_text_first; assumption.
  - apply set_text_other.
Qed.

Lemma removeMessage_absent (i : string) (l : list ChatMessage.t) :
  ~ In i (map ChatMessage.id (removeMessage i l)).
Proof.
  unfold removeMessage. induction l as [|m l IH]; cbn [List.filter map]; [auto|].
  destruct (String.eqb (ChatMessage.id m) i) eqn:E; cbn [negb]; [exact IH|].
  cbn [map]. intros [H|H]; [| exact (IH H)].
  apply String.eqb_neq in E. exact (E H).
Qed.

Lemma removeMessage_set_text (i j t : string) (l : list ChatMessage.t) :
  i <> j ->
  removeMessage i (set_text j t l) = set_text j t (removeMessage i l).
Proof.
  intros Hij. unfold removeMessage. induction l as [|m l IH]; [reflexivity|].
  cbn [set_text List.filter].
  destruct (String.eqb (ChatMessage.id m) j) eqn:Ej;
    destruct (String.eqb (ChatMessage.id m) i) eqn:Ei;
    cbn [List.filter with_text ChatMessage.id negb set_text]; rewrite ?Ei, ?Ej; cbn [negb].
  - apply String.eqb_eq in Ej, Ei. congruence.
  - reflexivity.
  - exact IH.
  - rewrite IH. reflexivity.
Qed.

(** X16. [removeMessage] removes every message with the identifier, also
    duplicates, and leaves the others as they were and in their order;
    afterwards an update for that identifier finds nothing to change, and
    removing commutes with an update of another message. *)
Theorem removeMessage_removes_every_match (messageId : string) (msgs : list ChatMessage.t) :
  ~ In messageId (map ChatMessage.id (removeMessage messageId msgs))
  /\ (forall m, In m (removeMessage messageId msgs)
                <-> In m msgs /\ ChatMessage.id m <> messageId)
  /\ removeMessage messageId (removeMessage messageId msgs) = removeMessage messageId msgs
  /\ (forall t, set_text messageId t (removeMessage messageId msgs)
                = removeMessage messageId msgs)
  /\ (forall other t, messageId <> other ->
        removeMessage messageId (set_text other t msgs)
        = set_text other t (removeMessage messageId msgs))
  /\ (~ In messageId (map ChatMessage.id msgs) -> removeMessage messageId msgs = msgs).
Proof.
  split; [apply removeMessage_absent|]. split.
  { intros m. unfold removeMessage. rewrite filter_In. split.
    - intros [Hin Hne]. split; [exact Hin|].
      apply String.eqb_neq. destruct (String.eqb _ _); [discriminate | reflexivity].
    - intros [Hin Hne]. split; [exact Hin|].
      apply String.eqb_neq in Hne. rewrite Hne. reflexivity. }
  split.
  { unfold removeMessage. induction msgs as [|m l IH]; [reflexivity|]. cbn [List.filter].
    destruct (String.eqb (ChatMessage.id m) messageId) eqn:E; cbn [negb List.filter].
    - exact IH.
    - rewrite E. cbn [negb]. rewrite IH. reflexivity. }
  split; [intros t; apply set_text_absent, removeMessage_absent|].
  split; [intros other t Hne; apply removeMessage_set_text; exact Hne|].
  intros Hn. unfold removeMessage. induction msgs as [|m l IH]; [reflexivity|].
  cbn [List.filter]. destruct (String.eqb (ChatMessage.id m) messageId) eqn:E.
  - apply String.eqb_eq in E. exfalso. apply Hn. left. exact E.
  - cbn [negb]. rewrite IH; [reflexivity|]. intros Hin. apply Hn. right. exact Hin.
Qed.

(** ** sendMessage *)

Lemma pretty_N_go_not_empty (x : N) : forall s, s <> "" -> pretty_N_go x s <> "".
Proof.
  induction x as [x IH] using (well_founded_induction N.lt_wf_0). intros s Hs.
  destruct (decide (x = 0%N)) as [->|Hx].
  - rewrite pretty_N_go_0. exact Hs.
  - rewrite pretty_N_go_step by lia. apply IH.
    + apply N.div_lt; lia.
    + discriminate.
Qed.

Lemma pretty_N_not_empty (x : N) : pretty x <> "".
Proof.
  unfold pretty, pretty_N. destruct (decide (x = 0%N)) as [->|Hx]; [discriminate|].
  rewrite pretty_N_go_step by lia. apply pretty_N_go_not_empty. discriminate.
Qed.

Lemma pretty_Z_not_empty (z : Z) : pretty z <> "".
Proof.
  unfold pretty, pretty_Z. destruct z as [|p|p].
  - discriminate.
  - apply pretty_N_not_empty.
  - discriminate.
Qed.

Lemma new_messageId_given env Date_now Number_toString36 (w : World) :
  given (Some (new_messageId env Date_now Number_toString36 w)) = true.
Proof.
  unfold given, new_messageId.
  pose proof (pretty_Z_not_empty (Date_now (dates w))) as H.
  destruct (pretty (Date_now (dates w))) as [|c r]; [contradiction|]. reflexivity.
Qed.

Lemma events_of_app {A} (m : M A) (w : World) (evs : list Event) :
  trace (snd (m w)) = trace w ++ evs -> events_of m w = evs.
Proof.
  intros H. unfold events_of. rewrite H.
  rewrite skipn_app, skipn_all, Nat.sub_diag. reflexivity.
Qed.

Lemma trace_log (ev : Event) (w : World) : trace (log ev w) = trace w ++ [ev].
Proof. reflexivity. Qed.

(** The exchange of [sendMessage], once the two messages are added. *)
Lemma exchange_run env s (messageText responseId : string) (w : World) :
  given (Some responseId) = true ->
  try_catch
    (response <- callApi env s messageText (Some responseId) ;;
     show_response responseId response)
    (show_error responseId) w
  = (Normal tt,
     match final_notice (fst (callApi env s messageText (Some responseId) w)) with
     | Some t => log (UpdateMessage responseId t)
                   (snd (callApi env s messageText (Some responseId) w))
     | None => snd (callApi env s messageText (Some responseId) w)
     end).
Proof.
  intros Hg.
  destruct (callApi_outcome env s messageText (Some responseId) w) as [Hu Ht].
  specialize (Ht Hg). unfold try_catch, bind.
  destruct (callApi env s messageText (Some responseId) w) as [[v|[e|]] w1];
    cbn [fst snd] in *; [| reflexivity | discriminate].
  destruct (Ht v eq_refl) as [t ->].
  unfold show_response, final_notice, is_string, truthy.
  destruct (String.eqb t "") eqn:E1.
  - apply String.eqb_eq in E1. subst t. reflexivity.
  - destruct (String.eqb t "收到空响应") eqn:E2; reflexivity.
Qed.

Lemma sendMessage_eq env s Date_now Number_toString36 (v : Visual) :
  trim (messageInput_value v) <> "" ->
  sendMessage env s Date_now Number_toString36 v
  = on_world
      (try_catch
         (response <- callApi env s (trim (messageInput_value v))
                        (Some (response_id env Date_now Number_toString36 v)) ;;
          show_response (response_id env Date_now Number_toString36 v) response)
         (show_error (response_id env Date_now Number_toString36 v)))
      {| world := asking (world v);
         messages :=
           (messages v
            ++ [ {| ChatMessage.id := user_id env Date_now Number_toString36 v;
                    ChatMessage.text := trim (messageInput_value v);
                    ChatMessage.isUser := true;
                    ChatMessage.timestamp := S (dates (world v)) |} ])
           ++ [ {| ChatMessage.id := response_id env Date_now Number_toString36 v;
                   ChatMessage.text := "正在连接...";
                   ChatMessage.isUser := false;
                   ChatMessage.timestamp := S (S (S (dates (world v)))) |} ];
         messageInput_value := "" |}.
Proof.
  intros Hne. unfold sendMessage. rewrite (string_eqb_false _ _ Hne). reflexivity.
Qed.

Lemma replay_ids (evs : list Event) :
  forall l, map ChatMessage.id (fold_left apply_event evs l) = map ChatMessage.id l
            /\ map ChatMessage.isUser (fold_left apply_event evs l)
               = map ChatMessage.isUser l.
Proof.
  induction evs as [|ev evs IH]; intros l; [split; reflexivity|]. cbn [fold_left].
  destruct (IH (apply_event l ev)) as [H1 H2]. rewrite H1, H2.
  destruct ev; cbn [apply_event]; rewrite ?set_text_ids, ?set_text_isUser; split; reflexivity.
Qed.

Lemma replay_targets (i : string) (l1 l2 : list ChatMessage.t) (evs : list Event) :
  ~ In i (map ChatMessage.id l1) ->
  forallb (targets i) evs = true ->
  forall p, ChatMessage.id p = i ->
    fold_left apply_event evs (l1 ++ p :: l2)
    = l1 ++ with_text p (last_text i evs (ChatMessage.text p)) :: l2.
Proof.
  intros Hn. induction evs as [|ev evs IH]; intros Hall p Hp.
  - destruct p; reflexivity.
  - cbn [forallb] in Hall. apply andb_true_iff in Hall as [Hev Hall].
    cbn [fold_left]. unfold last_text. cbn [fold_left]. fold (last_text i evs).
    destruct ev; cbn [apply_event targets] in *;
      try (apply (IH Hall p Hp));
      apply String.eqb_eq in Hev; subst messageId;
      rewrite (set_text_first _ _ _ _ _ Hn Hp), String.eqb_refl;
      rewrite (IH Hall (with_text p _)) by exact Hp; reflexivity.
Qed.

Lemma last_text_app (i : string) (a b : list Event) (before : string) :
  last_text i (a ++ b) before = last_text i b (last_text i a before).
Proof. unfold last_text. apply fold_left_app. Qed.

(** X17. [sendMessage] never rejects and sends at most one request.  A
    blank input changes nothing.  Otherwise the input box is emptied, the
    list gains the user's message and the placeholder of the reply, in
    this order and after the messages that were there, and exactly one
    request is sent when an endpoint is configured, none when it is not:
    a failed request is not sent again.  The identifier of the placeholder
    is never empty. *)
Theorem sendMessage_completes_with_one_request
    env s Date_now Number_toString36 (v : Visual) :
  let after := snd (sendMessage env s Date_now Number_toString36 v) in
  fst (sendMessage env s Date_now Number_toString36 v) = Normal tt
  /\ (trim (messageInput_value v) = "" -> after = v)
  /\ (trim (messageInput_value v) <> "" ->
      messageInput_value after = ""
      /\ map ChatMessage.id (messages after)
         = map ChatMessage.id (messages v)
           ++ [user_id env Date_now Number_toString36 v;
               response_id env Date_now Number_toString36 v]
      /\ map ChatMessage.isUser (messages after)
         = map ChatMessage.isUser (messages v) ++ [true; false]
      /\ response_id env Date_now Number_toString36 v <> ""
      /\ fetches (world after)
         = (fetches (world v) + if String.eqb (apiUrl s) "" then 0 else 1)%nat).
Proof.
  intros after. subst after.
  destruct (String.eqb (trim (messageInput_value v)) "") eqn:Hblank.
  - apply String.eqb_eq in Hblank. unfold sendMessage. rewrite Hblank. cbn.
    split; [reflexivity|]. split; [reflexivity|]. intros H. contradiction.
  - apply String.eqb_neq in Hblank. rewrite (sendMessage_eq _ _ _ _ _ Hblank).
    pose proof (new_messageId_given env Date_now Number_toString36
                  {| trace := trace (world v); fetches := fetches (world v);
                     dates := S (S (dates (world v))); randoms := S (randoms (world v)) |})
      as Hg.
    fold (response_id env Date_now Number_toString36 v) in Hg.
    unfold on_world. cbn [fst snd messages world messageInput_value].
    rewrite (exchange_run _ _ _ _ _ Hg). cbn [fst snd].
    split; [reflexivity|]. split; [intros H; contradiction|]. intros _.
    split; [reflexivity|].
    match goal with |- context [fold_left apply_event ?evs ?l] =>
      destruct (replay_ids evs l) as [H1 H2] end.
    rewrite H1, H2, !map_app, <- !app_assoc. cbn [map app ChatMessage.id ChatMessage.isUser].
    split; [reflexivity|]. split; [reflexivity|].
    split.
    { intros E. rewrite E in Hg. discriminate. }
    assert (Hf : fetches (snd (callApi env s (trim (messageInput_value v))
                                 (Some (response_id env Date_now Number_toString36 v))
                                 (asking (world v))))
                 = (fetches (world v) + if String.eqb (apiUrl s) "" then 0 else 1)%nat).
    { destruct (String.eqb (apiUrl s) "") eqn:Hurl.
      - apply String.eqb_eq in Hurl. rewrite (callApi_no_url _ _ _ _ _ Hurl). cbn. lia.
      - apply String.eqb_neq in Hurl.
        destruct (callApi_sends env s (trim (messageInput_value v))
                    (Some (response_id env Date_now Number_toString36 v))
                    (asking (world v)) Hurl) as (evs & _ & F & _).
        rewrite F. cbn. lia. }
    destruct (final_notice _); cbn [log fetches]; exact Hf.
Qed.

Lemma sendMessage_messages
    env s Date_now Number_toString36 (v : Visual) :
  trim (messageInput_value v) <> "" ->
  user_id env Date_now Number_toString36 v <> response_id env Date_now Number_toString36 v ->
  ~ In (response_id env Date_now Number_toString36 v) (map ChatMessage.id (messages v)) ->
  let call := callApi env s (trim (messageInput_value v))
                (Some (response_id env Date_now Number_toString36 v)) in
  messages (snd (sendMessage env s Date_now Number_toString36 v))
  = messages v
    ++ [ {| ChatMessage.id := user_id env Date_now Number_toString36 v;
            ChatMessage.text := trim (messageInput_value v);
            ChatMessage.isUser := true;
            ChatMessage.timestamp := S (dates (world v)) |};
         {| ChatMessage.id := response_id env Date_now Number_toString36 v;
            ChatMessage.text :=
              default (last_text (response_id env Date_now Number_toString36 v)
                         (events_of call (asking (world v))) "正在连接...")
                (final_notice (fst (call (asking (world v)))));
            ChatMessage.isUser := false;
            ChatMessage.timestamp := S (S (S (dates (world v)))) |} ].
Proof.
  intros Hblank Hids Hnew call.
  rewrite (sendMessage_eq _ _ _ _ _ Hblank).
  set (rid := response_id env Date_now Number_toString36 v) in *.
  set (uid := user_id env Date_now Number_toString36 v) in *.
  assert (Hg : given (Some rid) = true).
  { apply (new_messageId_given env Date_now Number_toString36
             {| trace := trace (world v); fetches := fetches (world v);
                dates := S (S (dates (world v))); randoms := S (randoms (world v)) |}). }
  unfold on_world. cbn [snd messages world].
  destruct (callApi_targets env s (trim (messageInput_value v)) (Some rid) (asking (world v)))
    as (evs & T & Hall).
  change (id_of (Some rid)) with rid in Hall. fold call in T.
  rewrite (events_of_app call _ _ T).
  set (full := try_catch _ _).
  assert (Hfull : events_of full (asking (world v))
                  = evs ++ match final_notice (fst (call (asking (world v)))) with
                           | Some t => [UpdateMessage rid t]
                           | None => []
                           end).
  { apply events_of_app. subst full. rewrite (exchange_run _ _ _ _ _ Hg). cbn [snd].
    fold call. destruct (final_notice _).
    - rewrite trace_log, T, <- app_assoc. reflexivity.
    - rewrite app_nil_r. exact T. }
  rewrite Hfull.
  rewrite (replay_targets rid (messages v ++ [_]) [] _).
  - rewrite last_text_app, <- app_assoc. cbn [app with_text ChatMessage.id ChatMessage.text
      ChatMessage.isUser ChatMessage.timestamp].
    destruct (final_notice _); cbn [last_text fold_left default];
      rewrite ?String.eqb_refl; reflexivity.
  - rewrite map_app. cbn [map ChatMessage.id]. intros Hin.
    apply in_app_or in Hin as [Hin|[Hin|[]]]; [exact (Hnew Hin) | exact (Hids Hin)].
  - rewrite forallb_app, Hall. destruct (final_notice _); cbn; rewrite ?String.eqb_refl;
      reflexivity.
  - reflexivity.
Qed.

Lemma value_or_truthy (chain : jsval) (fallback : json) :
  truthy (Some fallback) = true -> truthy (Some (value_or chain fallback)) = true.
Proof.
  intros H. unfold value_or. destruct chain as [v|]; [| exact H].
  destruct (truthy (Some v)) eqn:E; [exact E | exact H].
Qed.

Lemma handle_json_truthy env (data : json) (messageId : option string) (w : World) (v : json) :
  fst (handle_json env data messageId w) = Normal v -> truthy (Some v) = true.
Proof.
  rewrite handle_json_never_serializes.
  destruct data; try (cbn; discriminate);
    (destruct (signals_success _); [| cbn; discriminate]);
    intros H; apply bind_ret_normal in H as [_ ->]; apply value_or_truthy; reflexivity.
Qed.

Lemma reveal_empty env (messageId : string) (w : World) :
  given (Some messageId) = true ->
  exists d w',
    reveal env (Some messageId) (JStr "") w = (Normal tt, w')
    /\ trace w' = trace w ++ [RemoveStreamingEffect messageId; UpdateMessage messageId "";
                              UpdateMessageWithTyping messageId ""; SetTimeout d;
                              FinishTyping messageId ""].
Proof.
  intros Hg. unfold reveal. rewrite Hg. cbn [when]. eexists. eexists.
  split; [reflexivity|]. cbn. rewrite <- !app_assoc. reflexivity.
Qed.

(** A call that returns the empty text has shown it. *)
Lemma callApi_empty_text env s message (messageId : string) (w : World) (before : string) :
  given (Some messageId) = true ->
  fst (callApi env s message (Some messageId) w) = Normal (JStr "") ->
  last_text messageId (events_of (callApi env s message (Some messageId)) w) before = "".
Proof.
  intros Hg. destruct (String.eqb (apiUrl s) "") eqn:Hurl.
  { apply String.eqb_eq in Hurl. rewrite (callApi_no_url _ _ _ _ _ Hurl). discriminate. }
  apply String.eqb_neq in Hurl. unfold events_of. rewrite (callApi_eq _ _ _ _ _ Hurl).
  unfold after_fetch, try_catch.
  destruct (fetch env _ _) as [e|r].
  { cbn [throw]. destruct (classify_error_throws env s (Exception e) (sent env s message w))
      as [e' He']. rewrite He'. discriminate. }
  destruct (handle_response env r (Some messageId) (sent env s message w)) as [[v|t] w1] eqn:E;
    [| destruct (classify_error_throws env s t w1) as [e' He']; rewrite He'; discriminate].
  cbn [fst snd]. intros Hv. injection Hv as ->.
  revert E. unfold handle_response.
  destruct (negb (ok r)); [discriminate|].
  destruct (text r) as [e|responseText]; [discriminate|].
  destruct (includes _ "text/event-stream").
  { destruct (_ || _); [discriminate|]. unfold bind.
    destruct (handleStreamResponse_run (reader_of (body_chunks env responseText))
                (Some messageId) (sent env s message w)) as (evs & fr & failure & w' & R & _).
    rewrite R. destruct failure; [discriminate|]. cbn [ret].
    destruct (String.eqb (concat_all fr) "") eqn:Efr; intros H; inversion H as [[H1 H2]].
    rewrite H1 in Efr. discriminate Efr. }
  destruct (_ || _).
  - destruct (JSON_parse responseText) as [data|].
    + intros E. apply (f_equal fst) in E. cbn [fst] in E.
      apply handle_json_truthy in E. discriminate.
    + unfold bind.
      destruct (reveal env (Some messageId) (JStr responseText) (sent env s message w))
        as [[[]|t] w'] eqn:R; [| discriminate].
      cbn [ret]. intros H. inversion H. subst.
      destruct (reveal_empty env messageId (sent env s message w) Hg) as (d & w2 & R2 & T2).
      rewrite R in R2. injection R2 as <-. rewrite T2. cbn [sent trace].
      rewrite <- app_assoc, skipn_app, skipn_all, Nat.sub_diag. cbn [skipn app].
      unfold last_text. cbn [fold_left]. rewrite String.eqb_refl. reflexivity.
  - unfold bind.
    destruct (reveal env (Some messageId) (JStr responseText) (sent env s message w))
      as [[[]|t] w'] eqn:R; [| discriminate].
    cbn [ret]. destruct (String.eqb responseText "") eqn:Er; intros H;
      inversion H as [[H1 H2]].
    rewrite H1 in Er. discriminate Er.
Qed.

Lemma sendMessage_list env s Date_now Number_toString36 (v : Visual) :
  trim (messageInput_value v) <> "" ->
  user_id env Date_now Number_toString36 v <> response_id env Date_now Number_toString36 v ->
  ~ In (response_id env Date_now Number_toString36 v) (map ChatMessage.id (messages v)) ->
  messages (snd (sendMessage env s Date_now Number_toString36 v))
  = messages v
    ++ [ {| ChatMessage.id := user_id env Date_now Number_toString36 v;
            ChatMessage.text := trim (messageInput_value v);
            ChatMessage.isUser := true;
            ChatMessage.timestamp := S (dates (world v)) |};
         {| ChatMessage.id := response_id env Date_now Number_toString36 v;
            ChatMessage.text :=
              shown (fst (callApi env s (trim (messageInput_value v))
                            (Some (response_id env Date_now Number_toString36 v))
                            (asking (world v))));
            ChatMessage.isUser := false;
            ChatMessage.timestamp := S (S (S (dates (world v)))) |} ].
Proof.
  intros Hblank Hids Hnew.
  rewrite (sendMessage_messages env s Date_now Number_toString36 v Hblank Hids Hnew).
  cbv zeta. do 3 f_equal.
  set (rid := response_id env Date_now Number_toString36 v) in *.
  assert (Hg : given (Some rid) = true).
  { apply (new_messageId_given env Date_now Number_toString36
             {| trace := trace (world v); fetches := fetches (world v);
                dates := S (S (dates (world v))); randoms := S (randoms (world v)) |}). }
  destruct (callApi_outcome env s (trim (messageInput_value v)) (Some rid) (asking (world v)))
    as [Hu Ht]. specialize (Ht Hg).
  pose proof (callApi_empty_text env s (trim (messageInput_value v)) rid (asking (world v))
                "正在连接..." Hg) as Hempty.
  destruct (fst (callApi env s (trim (messageInput_value v)) (Some rid) (asking (world v))))
    as [r|[e|]]; [| reflexivity | discriminate].
  destruct (Ht r eq_refl) as [t ->]. unfold final_notice, shown.
  destruct (String.eqb t "") eqn:E1.
  - apply String.eqb_eq in E1. subst t. cbn [default]. rewrite (Hempty eq_refl). reflexivity.
  - destruct (String.eqb t "收到空响应"); reflexivity.
Qed.

(** X18. What the list holds after [sendMessage], when the identifier of
    the placeholder is new (it differs from the user's message and from
    every message already there): the messages that were there, unchanged,
    the user's message with the trimmed input, and the placeholder, whose
    text is the reply when [callApi] returned a text (also when that text
    is empty), the apology "抱歉，没有收到有效回复，请重试。" when it returned
    the empty-stream notice, and the error notice when it threw.  The
    connecting notice does not stay. *)
Theorem sendMessage_records_the_exchange
    env s Date_now Number_toString36 (v : Visual) :
  trim (messageInput_value v) <> "" ->
  user_id env Date_now Number_toString36 v <> response_id env Date_now Number_toString36 v ->
  ~ In (response_id env Date_now Number_toString36 v) (map ChatMessage.id (messages v)) ->
  let outcome := fst (callApi env s (trim (messageInput_value v))
                        (Some (response_id env Date_now Number_toString36 v))
                        (asking (world v))) in
  messages (snd (sendMessage env s Date_now Number_toString36 v))
  = messages v
    ++ [ {| ChatMessage.id := user_id env Date_now Number_toString36 v;
            ChatMessage.text := trim (messageInput_value v);
            ChatMessage.isUser := true;
            ChatMessage.timestamp := S (dates (world v)) |};
         {| ChatMessage.id := response_id env Date_now Number_toString36 v;
            ChatMessage.text := shown outcome;
            ChatMessage.isUser := false;
            ChatMessage.timestamp := S (S (S (dates (world v)))) |} ]
  /\ text_or_error outcome
  /\ (forall t, outcome = Normal (JStr t) -> t <> "收到空响应" -> shown outcome = t)
  /\ (forall e, outcome = Abrupt (Exception e) ->
                shown outcome = error_notice (err_message e)).
Proof.
  intros Hblank Hids Hnew outcome. split; [apply sendMessage_list; assumption|].
  assert (Hg : given (Some (response_id env Date_now Number_toString36 v)) = true).
  { apply (new_messageId_given env Date_now Number_toString36
             {| trace := trace (world v); fetches := fetches (world v);
                dates := S (S (dates (world v))); randoms := S (randoms (world v)) |}). }
  split.
  { subst outcome.
    destruct (callApi_outcome env s (trim (messageInput_value v))
                (Some (response_id env Date_now Number_toString36 v)) (asking (world v)))
      as [Hu Ht]. specialize (Ht Hg).
    destruct (fst (callApi _ _ _ _ _)) as [r|[e|]]; cbn in *; try discriminate; auto.
    destruct (Ht r eq_refl) as [t ->]. exact I. }
  split.
  - intros t -> Hne. cbn [shown]. rewrite (string_eqb_false _ _ Hne). reflexivity.
  - intros e ->. reflexivity.
Qed.

Lemma sendMessage_records_the_exchange_witness :
  map ChatMessage.text
    (messages (snd (sendMessage (sample_env (fun _ => Resolved text_reply)) sample_settings
                      sample_now sample_digits (sample_visual "  hello  "))))
  = ["hello"; "hi"].
Proof.
  destruct (sendMessage_records_the_exchange
              (sample_env (fun _ => Resolved text_reply)) sample_settings
              sample_now sample_digits (sample_visual "  hello  ")) as [E _].
  - vm_compute. discriminate.
  - vm_compute. discriminate.
  - cbn. auto.
  - rewrite E. vm_compute. reflexivity.
Defined.

Lemma sendMessage_texts env s Date_now Number_toString36 (v : Visual) :
  trim (messageInput_value v) <> "" ->
  user_id env Date_now Number_toString36 v <> response_id env Date_now Number_toString36 v ->
  ~ In (response_id env Date_now Number_toString36 v) (map ChatMessage.id (messages v)) ->
  map ChatMessage.text (messages (snd (sendMessage env s Date_now Number_toString36 v)))
  = map ChatMessage.text (messages v)
    ++ [trim (messageInput_value v);
        shown (fst (callApi env s (trim (messageInput_value v))
                      (Some (response_id env Date_now Number_toString36 v))
                      (asking (world v))))].
Proof.
  intros Hblank Hids Hnew.
  rewrite (sendMessage_list env s Date_now Number_toString36 v Hblank Hids Hnew).
  rewrite map_app. reflexivity.
Qed.

(** X19. How [sendMessage] reports a failed exchange, when the identifier
    of the placeholder is new.  Without an endpoint the placeholder reads
    "❌ 发生错误：请先配置API URL" with the advice to check the configuration,
    and nothing was sent; a request that ran into the deadline is reported
    under "⏰ 请求超时"; a connection failure is reported under
    "❌ 网络连接失败", followed by the diagnostic report and the check list.
    The request is not repeated in any of these cases. *)
Theorem sendMessage_reports_failures env s Date_now Number_toString36 (v : Visual) :
  trim (messageInput_value v) <> "" ->
  user_id env Date_now Number_toString36 v <> response_id env Date_now Number_toString36 v ->
  ~ In (response_id env Date_now Number_toString36 v) (map ChatMessage.id (messages v)) ->
  let after := snd (sendMessage env s Date_now Number_toString36 v) in
  let request :=
    build_request s (trim (messageInput_value v))
      (Date_toISOString env (S (S (S (S (dates (world v))))))) in
  (apiUrl s = "" ->
   map ChatMessage.text (messages after)
   = map ChatMessage.text (messages v)
     ++ [trim (messageInput_value v);
         "❌ 发生错误：请先配置API URL" +:+ NL +:+ NL +:+ "💡 请检查API配置和网络连接"]
   /\ trace (world after)
      = trace (world v)
        ++ [UpdateMessage (response_id env Date_now Number_toString36 v)
              ("❌ 发生错误：请先配置API URL" +:+ NL +:+ NL +:+ "💡 请检查API配置和网络连接")])
  /\ (forall e,
        apiUrl s <> "" ->
        fetch env (fetches (world v)) request = Rejected e ->
        err_name e = "AbortError" ->
        map ChatMessage.text (messages after)
        = map ChatMessage.text (messages v)
          ++ [trim (messageInput_value v);
              "⏰ 请求超时" +:+ NL +:+ NL +:+ "请求超时，请检查网络连接或API响应速度"
              +:+ NL +:+ NL +:+ "💡 建议：检查网络连接或稍后重试"]
        /\ fetches (world after) = S (fetches (world v)))
  /\ (forall e,
        apiUrl s <> "" ->
        fetch env (fetches (world v)) request = Rejected e ->
        err_name e <> "AbortError" ->
        includes (err_message e) "Failed to fetch" = true ->
        map ChatMessage.text (messages after)
        = map ChatMessage.text (messages v)
          ++ [trim (messageInput_value v);
              "❌ 网络连接失败" +:+ NL +:+ NL
              +:+ network_failure
                    (diagnostics env s
                       (Date_toLocaleString env (S (S (S (S (S (dates (world v)))))))))
              +:+ NL +:+ NL +:+ "💡 建议：检查网络连接和API配置"]
        /\ fetches (world after) = S (fetches (world v))).
Proof.
  intros Hblank Hids Hnew after request. subst after.
  pose proof (sendMessage_texts env s Date_now Number_toString36 v Hblank Hids Hnew) as Htexts.
  pose proof (new_messageId_given env Date_now Number_toString36
                {| trace := trace (world v); fetches := fetches (world v);
                   dates := S (S (dates (world v))); randoms := S (randoms (world v)) |})
    as Hg.
  fold (response_id env Date_now Number_toString36 v) in Hg.
  assert (Hworld : world (snd (sendMessage env s Date_now Number_toString36 v))
                   = match final_notice
                             (fst (callApi env s (trim (messageInput_value v))
                                     (Some (response_id env Date_now Number_toString36 v))
                                     (asking (world v)))) with
                     | Some t => log (UpdateMessage (response_id env Date_now Number_toString36 v) t)
                                   (snd (callApi env s (trim (messageInput_value v))
                                           (Some (response_id env Date_now Number_toString36 v))
                                           (asking (world v))))
                     | None => snd (callApi env s (trim (messageInput_value v))
                                      (Some (response_id env Date_now Number_toString36 v))
                                      (asking (world v)))
                     end).
  { rewrite (sendMessage_eq _ _ _ _ _ Hblank). unfold on_world. cbn [snd world].
    rewrite (exchange_run _ _ _ _ _ Hg). reflexivity. }
  rewrite Htexts, Hworld. clear Htexts Hworld.
  split; [| split].
  - intros Hurl. rewrite (callApi_no_url _ _ _ _ _ Hurl). split; reflexivity.
  - intros e Hurl Hf Hname. rewrite (callApi_eq _ _ _ _ _ Hurl).
    change (dates (asking (world v))) with (S (S (S (S (dates (world v)))))).
    change (fetches (asking (world v))) with (fetches (world v)).
    fold request. rewrite Hf. unfold after_fetch, try_catch, throw, classify_error.
    rewrite Hname. split; reflexivity.
  - intros e Hurl Hf Hname Hmsg.
    rewrite (callApi_network_failure env s _ _ (asking (world v)) e Hurl Hf Hname Hmsg).
    cbn [fst snd shown final_notice err_message new_Error].
    unfold error_notice.
    assert (includes (network_failure
                        (diagnostics env s (Date_toLocaleString env (S (dates (asking (world v)))))))
              "网络连接失败" = true) as ->.
    { unfold network_failure. apply includes_at_start. }
    split; reflexivity.
Qed.

Lemma sendMessage_reports_failures_witness :
  map ChatMessage.text
    (messages (snd (sendMessage (sample_env (fun _ => Resolved text_reply))
                      initial_apiSettings sample_now sample_digits
                      (sample_visual "hello"))))
  = ["hello";
     "❌ 发生错误：请先配置API URL" +:+ NL +:+ NL +:+ "💡 请检查API配置和网络连接"].
Proof.
  destruct (sendMessage_reports_failures
              (sample_env (fun _ => Resolved text_reply)) initial_apiSettings
              sample_now sample_digits (sample_visual "hello")) as [H _].
  - vm_compute. discriminate.
  - vm_compute. discriminate.
  - cbn. auto.
  - destruct (H eq_refl) as [E _]. exact E.
Defined.

(** ** An event stream never fails to decode *)

Lemma forLines_returns messageId (lines : list string) (full : string) (w : World) :
  exists full' w', forLines messageId lines full w = (Normal full', w').
Proof.
  destruct (forLines_cumulative messageId lines full w) as (evs & fr & w' & E & _).
  eauto.
Qed.

Lemma readLoop_reader_of messageId (chunks : list string) :
  forall buffer full w,
    exists full' w',
      readLoop messageId (reader_of chunks) buffer full w = (Normal (full', None), w').
Proof.
  induction chunks as [|c rest IH]; intros buffer full w; cbn [reader_of readLoop].
  - eexists _, _. reflexivity.
  - destruct (pop (split LF (buffer +:+ c))) as [lines last].
    destruct (forLines_returns messageId lines full w) as (full1 & w1 & E1).
    unfold bind. rewrite E1. apply IH.
Qed.

Lemma handleStreamResponse_reader_of (chunks : list string) (messageId : option string)
    (w : World) :
  exists t w', handleStreamResponse (Some (reader_of chunks)) messageId w = (Normal t, w')
               /\ t <> "".
Proof.
  unfold handleStreamResponse. unfold bind at 1.
  destruct (when (given messageId) _ w) as [[[]|x] w0] eqn:E0.
  2:{ exfalso. revert E0. unfold when, bind, removeStreamingEffect, updateMessage, emit, ret.
      destruct (given messageId); discriminate. }
  destruct (readLoop_reader_of messageId chunks "" "" w0) as (full & w1 & E1).
  unfold bind at 1. rewrite E1. unfold bind.
  destruct (when (given messageId && negb (String.eqb full "")) _ w1) as [[[]|x] w2] eqn:E2.
  2:{ exfalso. revert E2. unfold when, finishTyping, emit, ret.
      destruct (given messageId && negb (String.eqb full "")); discriminate. }
  eexists _, _. split; [reflexivity|].
  destruct (String.eqb full "") eqn:E; [discriminate | apply String.eqb_neq; exact E].
Qed.

(** X20. A response with an event-stream content type never fails to
    decode: whatever the body holds (events that are not JSON, lines that
    are not events, nothing at all) and however it is read back, [callApi]
    returns a text that is not empty.  The only such response that fails
    is one with status 204 or 205, for which no second response can be
    made from the text: the [TypeError] of the constructor is what
    [callApi] throws. *)
Theorem event_stream_always_decodes
    env s message (messageId : option string) (w : World) (response : Response)
    (body_text : string) :
  apiUrl s <> "" ->
  fetch env (fetches w) (build_request s message (Date_toISOString env (dates w)))
  = Resolved response ->
  ok response = true ->
  includes (default "" (content_type response)) "text/event-stream" = true ->
  text response = inr body_text ->
  (status response <> 204 -> status response <> 205 ->
   exists t, fst (callApi env s message messageId w) = Normal (JStr t) /\ t <> "")
  /\ (status response = 204 \/ status response = 205 ->
      callApi env s message messageId w
      = (Abrupt (Exception
                   (new_TypeError
                      "Failed to construct 'Response': Response with null body status cannot have body")),
         sent env s message w)).
Proof.
  intros Hurl Hf Hok Hct Htext. rewrite (callApi_eq _ _ _ _ _ Hurl), Hf.
  unfold after_fetch, try_catch, handle_response. rewrite Hok, Htext, Hct. cbn [negb].
  split.
  - intros H204 H205.
    assert ((status response =? 204) || (status response =? 205) = false) as ->.
    { apply orb_false_iff. split; apply Z.eqb_neq; assumption. }
    destruct (handleStreamResponse_reader_of (body_chunks env body_text) messageId
                (sent env s message w)) as (t & w' & E & Hne).
    unfold bind. rewrite E. exists t. split; [reflexivity | exact Hne].
  - intros H.
    assert ((status response =? 204) || (status response =? 205) = true) as ->.
    { apply orb_true_iff. destruct H as [H|H]; [left | right]; apply Z.eqb_eq; exact H. }
    reflexivity.
Qed.

Lemma event_stream_always_decodes_witness :
  exists t,
    fst (callApi (sample_env (fun _ => Resolved (event_stream_response "not an event")))
           sample_settings "hello" (Some "m1") initial) = Normal (JStr t)
    /\ t <> "".
Proof.
  destruct (event_stream_always_decodes
              (sample_env (fun _ => Resolved (event_stream_response "not an event")))
              sample_settings "hello" (Some "m1") initial
              (event_stream_response "not an event") "not an event") as [H _];
    [discriminate | reflexivity | reflexivity | reflexivity | reflexivity |].
  apply H; discriminate.
Defined.

(** ** The notice of a retry *)

Lemma backoff_delay_whole_seconds (attempt : Z) :
  1 <= attempt ->
  backoff_delay attempt = 1000 * Math_ceil_div (backoff_delay attempt) 1000
  /\ (Math_ceil_div (backoff_delay attempt) 1000 = 1
      \/ Math_ceil_div (backoff_delay attempt) 1000 = 2
      \/ Math_ceil_div (backoff_delay attempt) 1000 = 4
      \/ Math_ceil_div (backoff_delay attempt) 1000 = 5).
Proof.
  intros H. destruct (Z.lt_ge_cases attempt 4) as [Hlt|Hge].
  - assert (Hc : attempt = 1 \/ attempt = 2 \/ attempt = 3) by lia.
    destruct Hc as [Hc|[Hc|Hc]]; subst attempt; (split; [reflexivity|]); auto.
  - rewrite (backoff_delay_capped attempt Hge). split; [reflexivity|]. auto.
Qed.

(** X21. The notice written before a retry announces the wait that
    follows it: after a connection failure at attempt [k] below the
    budget, the loading message reads "连接失败，N秒后重试..." and the timer is
    set to exactly [N] seconds, where [N] is 1, 2, 4 or 5; the next
    attempt starts after that. *)
Theorem retry_notice_announces_the_wait
    (attempt maxRetries : Z) (loadingId : string) (again : M json) (e : JsError) (w : World) :
  1 <= attempt < maxRetries ->
  loadingId <> "" ->
  retriable e = true ->
  exists seconds : Z,
    (seconds = 1 \/ seconds = 2 \/ seconds = 4 \/ seconds = 5)
    /\ seconds = Z.min (2 ^ (attempt - 1)) 5
    /\ on_failure attempt maxRetries (Some loadingId) again (Exception e) w
       = again (log (SetTimeout (inject_Z (1000 * seconds)))
                  (log (UpdateMessage loadingId
                          ("连接失败，" +:+ pretty seconds +:+ "秒后重试...")) w)).
Proof.
  intros [H1 Hlt] Hid Hr.
  destruct (backoff_delay_whole_seconds attempt H1) as [Hwhole Hcases].
  exists (Math_ceil_div (backoff_delay attempt) 1000). split; [exact Hcases|]. split.
  - assert (0 < 2 ^ (attempt - 1)) by (apply Z.pow_pos_nonneg; lia).
    unfold backoff_delay in *. lia.
  - rewrite (on_failure_retry _ _ _ _ _ _ Hr Hlt). unfold backed_off, given.
    rewrite (string_eqb_false _ _ Hid). cbn [negb id_of default].
    rewrite <- Hwhole. reflexivity.
Qed.

Lemma retry_notice_announces_the_wait_witness :
  exists seconds : Z,
    (seconds = 1 \/ seconds = 2 \/ seconds = 4 \/ seconds = 5)
    /\ seconds = Z.min (2 ^ (3 - 1)) 5
    /\ on_failure 3 5 (Some "loading") (ret (JStr "next")) (Exception (new_Error "Failed to fetch"))
         initial
       = ret (JStr "next")
           (log (SetTimeout (inject_Z (1000 * seconds)))
              (log (UpdateMessage "loading" ("连接失败，" +:+ pretty seconds +:+ "秒后重试..."))
                 initial)).
Proof.
  apply (retry_notice_announces_the_wait 3 5 "loading" (ret (JStr "next"))
           (new_Error "Failed to fetch") initial); [lia | discriminate | reflexivity].
Defined.

(** ** The end-of-stream marker inside one read *)

Lemma readLoop_single messageId (chunk : string) (full : string) (w : World) :
  readLoop messageId (reader_of [chunk]) "" full w
  = bind (forLines messageId (complete_lines chunk) full) (fun full' => ret (full', None)) w.
Proof.
  cbn [reader_of readLoop]. change ("" +:+ chunk) with chunk. unfold complete_lines.
  destruct (pop (split LF chunk)) as [lines last]. reflexivity.
Qed.

(** X22. In a body that arrives in one read, the line [data: DONE] in
    brackets ends the stream: the complete lines after it are not decoded,
    so the result and the reports are those of the body cut after that
    line. *)
Theorem done_ends_a_body_read_at_once
    (chunk cut : string) (before after : list string) (messageId : option string)
    (w : World) :
  complete_lines chunk = before ++ "data: [DONE]" :: after ->
  complete_lines cut = before ++ ["data: [DONE]"] ->
  handleStreamResponse (Some (reader_of [chunk])) messageId w
  = handleStreamResponse (Some (reader_of [cut])) messageId w.
Proof.
  intros Hchunk Hcut.
  assert (Hread : forall w0, readLoop messageId (reader_of [chunk]) "" "" w0
                             = readLoop messageId (reader_of [cut]) "" "" w0).
  { intros w0. rewrite !readLoop_single, Hchunk, Hcut. unfold bind.
    rewrite forLines_done. reflexivity. }
  unfold handleStreamResponse. apply bind_ext. intros _ w0.
  unfold bind at 1. unfold bind at 2. rewrite Hread. reflexivity.
Qed.

Lemma done_ends_a_body_read_at_once_witness :
  handleStreamResponse
    (Some (reader_of [data_line (object1 "content" "a") +:+ data_line "[DONE]"
                      +:+ data_line (object1 "content" "b")]))
    (Some "m1") initial
  = handleStreamResponse
      (Some (reader_of [data_line (object1 "content" "a") +:+ data_line "[DONE]"]))
      (Some "m1") initial.
Proof.
  apply (done_ends_a_body_read_at_once _ _
           ["data: " +:+ object1 "content" "a"]
           ["data: " +:+ object1 "content" "b"]); vm_compute; reflexivity.
Defined.
